(** * Dataroom SPA: the hierarchical entity lifecycle engine

    A shallow embedding of the core of the dataroom application
    (core/utils/names.ts, core/utils/nameCollision.ts, core/utils/tree.ts,
    the four repositories over the Dexie tables and the three services),
    followed by the properties of the specification that were checked
    against it.

    Conventions of the embedding.
    - A JavaScript string is a [string]: a sequence of code units, of which
      the 8-bit ones are covered.
    - A Dexie table with key path [id] is a [gmap] from ids to records.
    - An [async] function is a computation in the monad [M]: it threads the
      world (the four tables, the id generator, the clock and the log of
      storage accesses) and either returns a value or throws an [Error];
      a throw keeps the world as it was when the throw happened, there is
      no rollback. An error carries its class and the resource it names,
      not the text of its message. The store itself does not fail, except
      that [add] refuses a key that is taken: a read or a write of a table
      goes through. What a write that the store rejects half way through
      a service would leave behind is not modelled: the outcome of a
      service that writes more than once is stated for the calls that
      return, and what a throw leaves is stated for the errors of the
      service's own checks.
    - [generateId] and [Date.now] read an oracle: an arbitrary sequence of
      ids and of instants, of which the world records how many were used. *)

From stdpp Require Import gmap strings list fin_maps pretty.
From Stdlib Require Import Ascii ZArith Lia.

Local Open Scope Z_scope.
Local Open Scope nat_scope.

(** ** Errors (core/errors.ts) *)

Inductive Error : Type :=
  | NotFoundError (resource id : string)
  | AlreadyExistsError (resource identifier : string)
  | FileValidationError
  | NameValidationError
  | DatabaseError
  | InvalidOperationError (operation : string)
  | BlobError
  | RangeError
  | ConstraintError
  | Diverged.

Inductive Result (A : Type) : Type :=
  | Ok (a : A)
  | Err (e : Error).
Arguments Ok {A} a.
Arguments Err {A} e.

(** ** String primitives of the host language *)

Module JsString.

(** [WhiteSpace] and [LineTerminator] code units below 256: what [trim]
    removes and what the class [\s] matches. *)
Definition isWhiteSpace (c : ascii) : bool :=
  match c with
  | "009" | "010" | "011" | "012" | "013" | " " | "160" => true
  | _ => false
  end%char.

Fixpoint trimStart (s : string) : string :=
  match s with
  | "" => ""
  | String c s' => if isWhiteSpace c then trimStart s' else s
  end.

Fixpoint trimEnd (s : string) : string :=
  match s with
  | "" => ""
  | String c s' =>
      match trimEnd s' with
      | "" => if isWhiteSpace c then "" else String c ""
      | t => String c t
      end
  end.

Definition trim (s : string) : string := trimEnd (trimStart s).

(** [s.replace(/\s+/g, " ")]: every maximal run of white space becomes
    one space. [inRun] tells that the previous unit was white space. *)
Fixpoint collapseRuns (inRun : bool) (s : string) : string :=
  match s with
  | "" => ""
  | String c s' =>
      if isWhiteSpace c
      then (if inRun then collapseRuns true s'
            else String " " (collapseRuns true s'))
      else String c (collapseRuns false s')
  end.

(** [s.lastIndexOf(c)], with [None] for -1. *)
Fixpoint lastIndexOf (c : ascii) (s : string) : option nat :=
  match s with
  | "" => None
  | String a s' =>
      match lastIndexOf c s' with
      | Some i => Some (S i)
      | None => if decide (a = c) then Some 0 else None
      end
  end.

(** [s.substring(0, n)] and [s.substring(n)]. *)
Fixpoint take (n : nat) (s : string) : string :=
  match n, s with
  | S n', String c s' => String c (take n' s')
  | _, _ => ""
  end.

Fixpoint drop (n : nat) (s : string) : string :=
  match n, s with
  | S n', String c s' => drop n' s'
  | _, _ => s
  end.

Fixpoint existsb (p : ascii → bool) (s : string) : bool :=
  match s with
  | "" => false
  | String c s' => p c || existsb p s'
  end.

Fixpoint map (f : ascii → ascii) (s : string) : string :=
  match s with
  | "" => ""
  | String c s' => String (f c) (map f s')
  end.

(** [toUpperCase] on the letters a-z. The other units are left as they
    are: none of them upper-cases to a unit that occurs in a reserved
    device name, so membership in that list is decided as in the source. *)
Definition upperChar (c : ascii) : ascii :=
  let n := nat_of_ascii c in
  if (97 <=? n) && (n <=? 122) then ascii_of_nat (n - 32) else c.

Definition toUpperCase (s : string) : string := map upperChar s.

(** [c.repeat(n)]. *)
Fixpoint repeat (c : ascii) (n : nat) : string :=
  match n with
  | 0 => ""
  | S n' => String c (repeat c n')
  end.

End JsString.

(** ** Names (core/utils/names.ts) *)

Inductive EntityKind : Type := KFile | KFolder.

Global Instance EntityKind_eq_dec : EqDecision EntityKind.
Proof. solve_decision. Defined.

Definition splitName (name : string) : string * string :=
  match JsString.lastIndexOf "." name with
  | None | Some 0 => (name, "")
  | Some lastDotIndex =>
      (JsString.take lastDotIndex name, JsString.drop lastDotIndex name)
  end.

(** The template literal [`${base} (${counter})${ext}`]. *)
Definition candidateName (base ext : string) (counter : nat) : string :=
  base +:+ " (" +:+ pretty counter +:+ ")" +:+ ext.

(** The [while] loop of [generateUniqueName]; [fuel] bounds the number of
    candidates tried, [None] stands for a loop that is still running. *)
Fixpoint uniqueNameLoop (fuel : nat) (base ext : string)
    (existingNames : gset string) (counter : nat) : option string :=
  match fuel with
  | 0 => None
  | S fuel' =>
      let candidate := candidateName base ext counter in
      if decide (candidate ∈ existingNames)
      then uniqueNameLoop fuel' base ext existingNames (S counter)
      else Some candidate
  end.

(** The loop is run for one more round than the set has elements, which
    [generateUniqueName_total] shows to be enough. *)
Definition generateUniqueName (baseName : string)
    (existingNames : gset string) : option string :=
  if decide (baseName ∈ existingNames)
  then
    let '(base, ext) := splitName baseName in
    uniqueNameLoop (S (size existingNames)) base ext existingNames 1
  else Some baseName.

(** The character class of the regular expression [invalidChars]:
    less-than, greater-than, colon, double quote, slash, backslash, bar,
    question mark, star. *)
Definition isInvalidChar (c : ascii) : bool :=
  match c with
  | "<" | ">" | ":" | "034" | "/" | "\" | "|" | "?" | "*" => true
  | _ => false
  end%char.

Definition reservedNames : list string :=
  [ "CON"; "PRN"; "AUX"; "NUL";
    "COM1"; "COM2"; "COM3"; "COM4"; "COM5"; "COM6"; "COM7"; "COM8"; "COM9";
    "LPT1"; "LPT2"; "LPT3"; "LPT4"; "LPT5"; "LPT6"; "LPT7"; "LPT8"; "LPT9" ].

Definition validateName (name : string) (type : EntityKind) : Result unit :=
  if decide (name = "") then Err NameValidationError else
  let trimmed := JsString.trim name in
  if decide (String.length trimmed = 0) then Err NameValidationError else
  if decide (255 < String.length trimmed) then Err NameValidationError else
  if JsString.existsb isInvalidChar trimmed then Err NameValidationError else
  let nameToCheck :=
    match type with KFile => (splitName trimmed).1 | KFolder => trimmed end in
  if decide (JsString.toUpperCase nameToCheck ∈ reservedNames)
  then Err NameValidationError else
  match type with
  | KFile =>
      let '(base, ext) := splitName trimmed in
      if decide (String.length base = 0) then Err NameValidationError else
      if decide (ext ≠ "" ∧ ext ≠ ".pdf") then Err NameValidationError
      else Ok tt
  | KFolder => Ok tt
  end.

Definition normalizeName (name : string) : string :=
  JsString.collapseRuns false (JsString.trim name).

(** ** Records (core/types.ts) *)

Abbreviation ID := string (only parsing).

Record Dataroom : Type := mkDataroom {
  room_id : ID;
  room_name : string;
  room_createdAt : Z;
  room_updatedAt : Z }.

Record Folder : Type := mkFolder {
  folder_id : ID;
  folder_dataroomId : ID;
  folder_parentId : option ID;
  folder_name : string;
  folder_createdAt : Z;
  folder_updatedAt : Z }.

Record FileObject : Type := mkFileObject {
  file_id : ID;
  file_dataroomId : ID;
  file_parentId : option ID;
  file_name : string;
  file_mimeType : string;
  file_size : N;
  file_blobKey : ID;
  file_createdAt : Z;
  file_updatedAt : Z }.

(** The browser's [File]: a [Blob] with a name. Its [size] is the number of
    bytes it holds. *)
Record JsFile : Type := mkJsFile {
  jsfile_name : string;
  jsfile_type : string;
  jsfile_bytes : list Byte.byte }.

Definition jsfile_size (f : JsFile) : N := N.of_nat (length (jsfile_bytes f)).

Inductive NameCollisionAction : Type := Replace | KeepBoth | Cancel.

Global Instance Dataroom_eq_dec : EqDecision Dataroom.
Proof. solve_decision. Defined.
Global Instance Folder_eq_dec : EqDecision Folder.
Proof. solve_decision. Defined.
Global Instance FileObject_eq_dec : EqDecision FileObject.
Proof. solve_decision. Defined.

(** A value that an [if (x)] of the source takes for true. *)
Definition truthy (s : ID) : bool := bool_decide (s ≠ "").
Definition truthyOpt (o : option ID) : bool :=
  match o with Some s => truthy s | None => false end.

(** ** The world: tables, oracle positions, access log (core/repos/db.ts) *)

Record DBBlob : Type := mkDBBlob {
  blob_key : ID;
  blob_data : JsFile }.

Record Store : Type := mkStore {
  datarooms : gmap string Dataroom;
  folders : gmap string Folder;
  files : gmap string FileObject;
  blobs : gmap string DBBlob }.

Inductive Table : Type := TDatarooms | TFolders | TFiles | TBlobs.
Inductive Access : Type := Read (t : Table) | Write (t : Table).

Record World : Type := mkWorld {
  store : Store;
  idsUsed : nat;
  instantsUsed : nat;
  accessLog : list Access }.

Definition emptyStore : Store := mkStore ∅ ∅ ∅ ∅.
Definition emptyWorld : World := mkWorld emptyStore 0 0 [].

(** ** The monad of asynchronous, throwing computations *)

Definition M (A : Type) : Type := World → Result A * World.

Definition ret {A} (a : A) : M A := λ w, (Ok a, w).
Definition throw {A} (e : Error) : M A := λ w, (Err e, w).
Definition bind {A B} (m : M A) (k : A → M B) : M B :=
  λ w, match m w with
       | (Ok a, w') => k a w'
       | (Err e, w') => (Err e, w')
       end.

Notation "'let!' x ':=' m 'in' k" := (bind m (λ x, k))
  (at level 10, x pattern, m at level 100, k at level 200,
   format "'[v' 'let!'  x  ':='  m  'in' '/' k ']'").
Notation "m ';;' k" := (bind m (λ _, k))
  (at level 100, k at level 200, right associativity).

(** [try { m } catch (e) { handler(e) }]. *)
Definition tryCatch {A} (m : M A) (handler : Error → M A) : M A :=
  λ w, match m w with
       | (Ok a, w') => (Ok a, w')
       | (Err e, w') => handler e w'
       end.

(** [for (const x of xs) { acc = await body(acc, x) }]. *)
Fixpoint foldM {A B} (body : B → A → M B) (acc : B) (xs : list A) : M B :=
  match xs with
  | [] => ret acc
  | x :: xs' => let! acc' := body acc x in foldM body acc' xs'
  end.

Definition getStore : M Store := λ w, (Ok (store w), w).
Definition access (a : Access) : M unit :=
  λ w, (Ok tt, mkWorld (store w) (idsUsed w) (instantsUsed w)
                       (a :: accessLog w)).
Definition putStore (s : Store) : M unit :=
  λ w, (Ok tt, mkWorld s (idsUsed w) (instantsUsed w) (accessLog w)).

Definition set_datarooms (t : gmap string Dataroom) (s : Store) : Store :=
  mkStore t (folders s) (files s) (blobs s).
Definition set_folders (t : gmap string Folder) (s : Store) : Store :=
  mkStore (datarooms s) t (files s) (blobs s).
Definition set_files (t : gmap string FileObject) (s : Store) : Store :=
  mkStore (datarooms s) (folders s) t (blobs s).
Definition set_blobs (t : gmap string DBBlob) (s : Store) : Store :=
  mkStore (datarooms s) (folders s) (files s) t.

(** The records of a table, in the order of the map. *)
Definition records {A} (t : gmap string A) : list A := (map_to_list t).*2.

(** A Dexie table of the database: its name, and how it sits in the store.
    The primary key of every table is a field of the record. *)
Record TableOf (A : Type) : Type := mkTableOf {
  tb_name : Table;
  tb_get : Store → gmap string A;
  tb_set : gmap string A → Store → Store;
  tb_key : A → ID }.
Arguments tb_name {A} _.
Arguments tb_get {A} _ _.
Arguments tb_set {A} _ _ _.
Arguments tb_key {A} _ _.

Definition db_datarooms : TableOf Dataroom :=
  mkTableOf _ TDatarooms datarooms set_datarooms room_id.
Definition db_folders : TableOf Folder :=
  mkTableOf _ TFolders folders set_folders folder_id.
Definition db_files : TableOf FileObject :=
  mkTableOf _ TFiles files set_files file_id.

Definition db_blobs : TableOf DBBlob :=
  mkTableOf _ TBlobs blobs set_blobs blob_key.

Definition liftResult {A} (r : Result A) : M A := λ w, (r, w).

(** ** Name collisions (core/utils/nameCollision.ts) *)

Inductive EntityType : Type := ForKind (k : EntityKind) | ForDataroom.

(** [entityType] as the source prints it, and with its first letter in
    upper case. *)
Definition entityWord (t : EntityType) : string :=
  match t with
  | ForKind KFile => "file"
  | ForKind KFolder => "folder"
  | ForDataroom => "dataroom"
  end.
Definition entityLabel (t : EntityType) : string :=
  match t with
  | ForKind KFile => "File"
  | ForKind KFolder => "Folder"
  | ForDataroom => "Dataroom"
  end.
Definition actionWord (a : NameCollisionAction) : string :=
  match a with Replace => "replace" | KeepBoth => "keep-both" | Cancel => "cancel" end.

Record NameCollisionResult (T : Type) : Type := mkNameCollisionResult {
  finalName : string;
  shouldReplace : bool;
  existingItem : option T }.
Arguments mkNameCollisionResult {T} _ _ _.
Arguments finalName {T} _.
Arguments shouldReplace {T} _.
Arguments existingItem {T} _.

Section NameCollision.
Context {T : Type} (item_id : T → ID) (item_name : T → string).

(** [item.name === name && item.id !== excludeId]; an [excludeId] that is
    left out is [None] and differs from every id. *)
Definition sameNameOther (name : string) (excludeId : option ID)
    (item : T) : bool :=
  bool_decide (item_name item = name)
  && bool_decide (Some (item_id item) ≠ excludeId).

Definition resolveNameCollision (entityType : EntityType) (name : string)
    (action : NameCollisionAction) (existingSiblings : list T)
    (excludeId : option ID) (supportsReplace : bool)
    : Result (NameCollisionResult T) :=
  match (match entityType with
         | ForKind k => validateName name k
         | ForDataroom => Ok tt
         end) with
  | Err e => Err e
  | Ok _ =>
      let normalizedName := normalizeName name in
      match List.find (sameNameOther normalizedName excludeId)
              existingSiblings with
      | None => Ok (mkNameCollisionResult normalizedName false None)
      | Some existing =>
          match action with
          | Cancel =>
              Err (AlreadyExistsError (entityLabel entityType)
                     normalizedName)
          | Replace =>
              if supportsReplace
              then Ok (mkNameCollisionResult normalizedName true
                         (Some existing))
              else Err (InvalidOperationError
                          (actionWord action +:+ " "
                           +:+ entityWord entityType))
          | KeepBoth =>
              let existingNames : gset string :=
                list_to_set
                  (item_name <$>
                     List.filter
                       (λ item, bool_decide (Some (item_id item) ≠ excludeId))
                       existingSiblings) in
              match generateUniqueName normalizedName existingNames with
              | Some uniqueName =>
                  Ok (mkNameCollisionResult uniqueName false None)
              | None => Err Diverged
              end
          end
      end
  end.

Definition isNameAvailable (name : string) (existingSiblings : list T)
    (excludeId : option ID) : bool :=
  negb (List.existsb (sameNameOther (normalizeName name) excludeId)
          existingSiblings).
End NameCollision.

Definition resolveDataroomNameCollision (name : string)
    (action : NameCollisionAction) (existingDatarooms : list Dataroom)
    (excludeId : option ID) : Result (NameCollisionResult Dataroom) :=
  resolveNameCollision room_id room_name ForDataroom name action
    existingDatarooms excludeId false.

Definition resolveFolderNameCollision (name : string)
    (action : NameCollisionAction) (existingFolders : list Folder)
    (excludeId : option ID) : Result (NameCollisionResult Folder) :=
  resolveNameCollision folder_id folder_name (ForKind KFolder) name action
    existingFolders excludeId false.

Definition resolveFileNameCollision (name : string)
    (action : NameCollisionAction) (existingFiles : list FileObject)
    (excludeId : option ID) : Result (NameCollisionResult FileObject) :=
  resolveNameCollision file_id file_name (ForKind KFile) name action
    existingFiles excludeId true.

(** ** Tree navigation (core/utils/tree.ts) *)

Definition isChildFolderOf (folderId : ID) (f : Folder) : bool :=
  bool_decide (folder_parentId f = Some folderId).
Definition isChildFileOf (folderId : ID) (f : FileObject) : bool :=
  bool_decide (file_parentId f = Some folderId).

(** The recursion of the source is not bounded. [depth] is the number of
    nested calls of this function that the call stack still takes; [None]
    is a [RangeError] of the engine: the overflow of the stack, which is
    what the recursion ends in on a cyclic list, or a spread call
    [descendants.push(...ids)] with more arguments than a call takes.
    [spread d] is the number of arguments that a call takes when [d]
    frames are left. *)
Fixpoint getDescendantFolderIds (spread : nat → nat) (depth : nat)
    (folderId : ID) (folders : list Folder) : option (list ID) :=
  match depth with
  | 0 => None
  | S depth' =>
      let childFolders := List.filter (isChildFolderOf folderId) folders in
      foldr (λ childFolder rest,
               match getDescendantFolderIds spread depth'
                       (folder_id childFolder) folders, rest with
               | Some below, Some descendants =>
                   if length below <=? spread depth'
                   then Some (folder_id childFolder :: below ++ descendants)
                   else None
               | _, _ => None
               end)
            (Some []) childFolders
  end.

(** [depth] is the number of nested calls of this function that the call
    stack still takes: its frames are not those of
    [getDescendantFolderIds], and the two budgets are independent. *)
Fixpoint countDescendants (depth : nat) (folderId : ID)
    (folders : list Folder) (files : list FileObject) : option (nat * nat) :=
  match depth with
  | 0 => None
  | S depth' =>
      let childFolders := List.filter (isChildFolderOf folderId) folders in
      let folderCount := length childFolders in
      let fileCount := length (List.filter (isChildFileOf folderId) files) in
      foldl (λ counts childFolder,
               match counts, countDescendants depth' (folder_id childFolder)
                               folders files with
               | Some (fo, fi), Some (cfo, cfi) => Some (fo + cfo, fi + cfi)
               | _, _ => None
               end)
            (Some (folderCount, fileCount)) childFolders
  end.

(** The oracle: the ids that [nanoid] hands out, the instants that
    [Date.now] reads, the order in which Dexie enumerates the records of a
    query, the order that a sort leaves them in, how many nested calls of
    [getDescendantFolderIds] and of [countDescendants] the call stack
    takes where the services call them, how many arguments a spread call
    takes with so many frames left, and the URL that the browser mints for
    a blob. *)
Record Oracle : Type := mkOracle {
  genId : nat → ID;
  nowAt : nat → Z;
  indexOrder : ∀ A : Type, list A → list A;
  sortOrder : ∀ A : Type, list A → list A;
  stackDepth : nat;
  countDepth : nat;
  spreadLimit : nat → nat;
  createObjectURL : JsFile → string }.

Section Engine.

Variable O : Oracle.
Local Abbreviation genId := (genId O).
Local Abbreviation nowAt := (nowAt O).
Local Abbreviation indexOrder := (indexOrder O).
Local Abbreviation sortOrder := (sortOrder O).
Local Abbreviation stackDepth := (stackDepth O).
Local Abbreviation countDepth := (countDepth O).
Local Abbreviation spreadLimit := (spreadLimit O).
Local Abbreviation createObjectURL := (createObjectURL O).

Definition generateId : M ID :=
  λ w, (Ok (genId (idsUsed w)),
        mkWorld (store w) (S (idsUsed w)) (instantsUsed w) (accessLog w)).

Definition Date_now : M Z :=
  λ w, (Ok (nowAt (instantsUsed w)),
        mkWorld (store w) (idsUsed w) (S (instantsUsed w)) (accessLog w)).

(** *** Dexie's table operations *)

Definition table_get {A} (T : TableOf A) (key : ID) : M (option A) :=
  access (Read (tb_name T));;
  let! s := getStore in
  ret (tb_get T s !! key).

(** [add] refuses a key that is taken. *)
Definition table_add {A} (T : TableOf A) (x : A) : M unit :=
  access (Write (tb_name T));;
  let! s := getStore in
  match tb_get T s !! tb_key T x with
  | Some _ => throw ConstraintError
  | None => putStore (tb_set T (<[tb_key T x := x]> (tb_get T s)) s)
  end.

(** [update] answers 1 when the record is there and the changes make a
    difference, 0 otherwise. *)
Definition table_update {A} `{EqDecision A} (T : TableOf A) (key : ID)
    (changes : A → A) : M nat :=
  access (Write (tb_name T));;
  let! s := getStore in
  match tb_get T s !! key with
  | Some x =>
      if decide (changes x = x) then ret 0
      else putStore (tb_set T (<[key := changes x]> (tb_get T s)) s);;
           ret 1
  | None => ret 0
  end.

Definition table_delete {A} (T : TableOf A) (key : ID) : M unit :=
  access (Write (tb_name T));;
  let! s := getStore in
  putStore (tb_set T (delete key (tb_get T s)) s).

(** [put] overwrites. *)
Definition table_put {A} (T : TableOf A) (x : A) : M unit :=
  access (Write (tb_name T));;
  let! s := getStore in
  putStore (tb_set T (<[tb_key T x := x]> (tb_get T s)) s).

(** [where(...).toArray()], also with [.filter(...)] or [.and(...)]. *)
Definition table_where {A} (T : TableOf A) (p : A → bool) : M (list A) :=
  access (Read (tb_name T));;
  let! s := getStore in
  ret (indexOrder A (List.filter p (records (tb_get T s)))).

(** [where(...).delete()]: answers the number of records deleted. *)
Definition table_where_delete {A} (T : TableOf A) (p : A → bool) : M nat :=
  access (Write (tb_name T));;
  let! s := getStore in
  putStore (tb_set T (filter (λ kv, ¬ p kv.2) (tb_get T s)) s);;
  ret (length (List.filter p (records (tb_get T s)))).

(** *** Repositories (core/repos) *)

Definition wrapDatabaseError {A} (m : M A) : M A :=
  tryCatch m (λ _, throw DatabaseError).
Definition wrapBlobError {A} (m : M A) : M A :=
  tryCatch m (λ _, throw BlobError).

Definition BlobRepo_put (key : ID) (data : JsFile) : M ID :=
  wrapBlobError (table_put db_blobs (mkDBBlob key data);; ret key).

Definition BlobRepo_get (key : ID) : M (option JsFile) :=
  wrapBlobError (let! record := table_get db_blobs key in
                 ret (blob_data <$> record)).

Definition BlobRepo_exists (key : ID) : M bool :=
  wrapBlobError (let! record := table_get db_blobs key in
                 ret (bool_decide (record ≠ None))).

Definition BlobRepo_delete (key : ID) : M unit :=
  wrapBlobError (table_delete db_blobs key).

Definition BlobRepo_deleteMany (keys : list ID) : M nat :=
  wrapBlobError
    (foldM (λ deletedCount key,
              let! existed := BlobRepo_exists key in
              if existed
              then table_delete db_blobs key;; ret (S deletedCount)
              else ret deletedCount)
           0 keys).

Definition BlobRepo_createBlobUrl (key : ID) : M (option string) :=
  wrapBlobError (let! blob := BlobRepo_get key in
                 ret (createObjectURL <$> blob)).

Definition DataroomRepo_insert (dataroom : Dataroom) : M ID :=
  wrapDatabaseError (table_add db_datarooms dataroom;;
                     ret (room_id dataroom)).

Definition DataroomRepo_get (id : ID) : M (option Dataroom) :=
  wrapDatabaseError (table_get db_datarooms id).

Definition DataroomRepo_getRequired (id : ID) : M Dataroom :=
  let! dataroom := DataroomRepo_get id in
  match dataroom with
  | None => throw (NotFoundError "Dataroom" id)
  | Some d => ret d
  end.

Definition DataroomRepo_list : M (list Dataroom) :=
  wrapDatabaseError (let! rooms := table_where db_datarooms (λ _, true) in
                     ret (sortOrder _ rooms)).

Definition DataroomRepo_updateName (id : ID) (name : string) : M nat :=
  wrapDatabaseError
    (let! now := Date_now in
     table_update db_datarooms id
       (λ d, mkDataroom (room_id d) name (room_createdAt d) now)).

Definition DataroomRepo_touch (id : ID) : M nat :=
  wrapDatabaseError
    (let! now := Date_now in
     table_update db_datarooms id
       (λ d, mkDataroom (room_id d) (room_name d) (room_createdAt d) now)).

Definition DataroomRepo_delete (id : ID) : M unit :=
  wrapDatabaseError (table_delete db_datarooms id).

Definition FolderRepo_insert (folder : Folder) : M ID :=
  wrapDatabaseError (table_add db_folders folder;; ret (folder_id folder)).

Definition FolderRepo_get (id : ID) : M (option Folder) :=
  wrapDatabaseError (table_get db_folders id).

Definition FolderRepo_getRequired (id : ID) : M Folder :=
  let! folder := FolderRepo_get id in
  match folder with
  | None => throw (NotFoundError "Folder" id)
  | Some f => ret f
  end.

Definition FolderRepo_listByParent (parentId : option ID) (dataroomId : ID)
    : M (list Folder) :=
  wrapDatabaseError
    (let! folders :=
       match parentId with
       | None =>
           table_where db_folders
             (λ folder, bool_decide (folder_dataroomId folder = dataroomId)
                        && bool_decide (folder_parentId folder = None))
       | Some p =>
           table_where db_folders
             (λ folder, bool_decide (folder_dataroomId folder = dataroomId)
                        && bool_decide (folder_parentId folder = Some p))
       end in
     ret (sortOrder _ folders)).

Definition FolderRepo_listByDataroom (dataroomId : ID) : M (list Folder) :=
  wrapDatabaseError
    (table_where db_folders
       (λ folder, bool_decide (folder_dataroomId folder = dataroomId))).

Definition FolderRepo_updateName (id : ID) (name : string) : M nat :=
  wrapDatabaseError
    (let! now := Date_now in
     table_update db_folders id
       (λ f, mkFolder (folder_id f) (folder_dataroomId f)
               (folder_parentId f) name (folder_createdAt f) now)).

Definition FolderRepo_delete (id : ID) : M unit :=
  wrapDatabaseError (table_delete db_folders id).

(** [excludeId] is [None] when the caller leaves it out. *)
Definition FolderRepo_nameExistsInParent (name : string)
    (parentId : option ID) (dataroomId : ID) (excludeId : option ID)
    : M bool :=
  wrapDatabaseError
    (let! siblings := FolderRepo_listByParent parentId dataroomId in
     ret (List.existsb
            (λ folder, bool_decide (folder_name folder = name)
                       && bool_decide (Some (folder_id folder) ≠ excludeId))
            siblings)).

Definition FolderRepo_deleteByDataroom (dataroomId : ID) : M nat :=
  wrapDatabaseError
    (table_where_delete db_folders
       (λ folder, bool_decide (folder_dataroomId folder = dataroomId))).

Definition FileRepo_insert (file : FileObject) : M ID :=
  wrapDatabaseError (table_add db_files file;; ret (file_id file)).

Definition FileRepo_get (id : ID) : M (option FileObject) :=
  wrapDatabaseError (table_get db_files id).

Definition FileRepo_getRequired (id : ID) : M FileObject :=
  let! file := FileRepo_get id in
  match file with
  | None => throw (NotFoundError "File" id)
  | Some f => ret f
  end.

Definition FileRepo_listByParent (parentId : option ID) (dataroomId : ID)
    : M (list FileObject) :=
  wrapDatabaseError
    (let! files :=
       if truthy dataroomId
       then
         match parentId with
         | Some p =>
             table_where db_files
               (λ file, bool_decide (file_dataroomId file = dataroomId)
                        && bool_decide (file_parentId file = Some p))
         | None =>
             table_where db_files
               (λ file, bool_decide (file_dataroomId file = dataroomId)
                        && bool_decide (file_parentId file = None))
         end
       else
         match parentId with
         | Some p =>
             table_where db_files
               (λ file, bool_decide (file_parentId file = Some p))
         | None =>
             table_where db_files
               (λ file, bool_decide (file_parentId file = None))
         end in
     ret (sortOrder _ files)).

Definition FileRepo_listByDataroom (dataroomId : ID) : M (list FileObject) :=
  wrapDatabaseError
    (table_where db_files
       (λ file, bool_decide (file_dataroomId file = dataroomId))).

Definition FileRepo_updateName (id : ID) (name : string) : M nat :=
  wrapDatabaseError
    (let! now := Date_now in
     table_update db_files id
       (λ f, mkFileObject (file_id f) (file_dataroomId f) (file_parentId f)
               name (file_mimeType f) (file_size f) (file_blobKey f)
               (file_createdAt f) now)).

Definition FileRepo_delete (id : ID) : M unit :=
  wrapDatabaseError (table_delete db_files id).

Definition FileRepo_nameExistsInParent (name : string)
    (parentId : option ID) (dataroomId : ID) (excludeId : option ID)
    : M bool :=
  wrapDatabaseError
    (let! siblings := FileRepo_listByParent parentId dataroomId in
     ret (List.existsb
            (λ file, bool_decide (file_name file = name)
                     && bool_decide (Some (file_id file) ≠ excludeId))
            siblings)).

Definition FileRepo_deleteByDataroom (dataroomId : ID) : M nat :=
  wrapDatabaseError
    (table_where_delete db_files
       (λ file, bool_decide (file_dataroomId file = dataroomId))).

(** *** FileService (core/services/FileService.ts) *)

Record Download : Type := mkDownload {
  download_blob : JsFile;
  download_filename : string }.

(** [if (parentId) { await FolderRepo.getRequired(parentId) }]. *)
Definition requireParentFolder (parentId : option ID) : M unit :=
  match parentId with
  | Some p => if truthy p then FolderRepo_getRequired p;; ret tt else ret tt
  | None => ret tt
  end.

Definition maxSizeBytes : N := 50 * 1024 * 1024.

Definition FileService_get (id : ID) : M FileObject :=
  FileRepo_getRequired id.

Definition FileService_delete (id : ID) : M unit :=
  let! file := FileRepo_getRequired id in
  BlobRepo_delete (file_blobKey file);;
  FileRepo_delete id;;
  DataroomRepo_touch (file_dataroomId file);;
  ret tt.

Definition FileService_upload (file : JsFile) (dataroomId : ID)
    (parentId : option ID) (onNameCollision : NameCollisionAction)
    : M FileObject :=
  if bool_decide (jsfile_type file ≠ "application/pdf")
  then throw FileValidationError
  else if bool_decide (maxSizeBytes < jsfile_size file)%N
  then throw FileValidationError
  else
    let normalizedName := normalizeName (jsfile_name file) in
    liftResult (validateName normalizedName KFile);;
    DataroomRepo_getRequired dataroomId;;
    requireParentFolder parentId;;
    let! nameExists :=
      FileRepo_nameExistsInParent normalizedName parentId dataroomId None in
    let! finalName :=
      if nameExists
      then
        match onNameCollision with
        | Cancel => throw (AlreadyExistsError "File" normalizedName)
        | Replace =>
            let! existingFiles :=
              FileRepo_listByParent parentId dataroomId in
            match List.find
                    (λ f, bool_decide (file_name f = normalizedName))
                    existingFiles with
            | Some existingFile =>
                FileService_delete (file_id existingFile);;
                ret normalizedName
            | None => ret normalizedName
            end
        | KeepBoth =>
            let! siblings := FileRepo_listByParent parentId dataroomId in
            let existingNames : gset string :=
              list_to_set (file_name <$> siblings) in
            match generateUniqueName normalizedName existingNames with
            | Some uniqueName => ret uniqueName
            | None => throw Diverged
            end
        end
      else ret normalizedName in
    let! blobKey := generateId in
    BlobRepo_put blobKey file;;
    let! now := Date_now in
    let! id := generateId in
    let fileObject :=
      mkFileObject id dataroomId parentId finalName (jsfile_type file)
        (jsfile_size file) blobKey now now in
    FileRepo_insert fileObject;;
    DataroomRepo_touch dataroomId;;
    ret fileObject.

Definition FileService_rename (id : ID) (name : string)
    (onNameCollision : NameCollisionAction) : M FileObject :=
  let normalizedName := normalizeName name in
  liftResult (validateName normalizedName KFile);;
  let! file := FileRepo_getRequired id in
  let! nameExists :=
    FileRepo_nameExistsInParent normalizedName (file_parentId file)
      (file_dataroomId file) (Some id) in
  let! finalName :=
    if nameExists
    then
      match onNameCollision with
      | Cancel => throw (AlreadyExistsError "File" normalizedName)
      | Replace =>
          let! existingFiles :=
            FileRepo_listByParent (file_parentId file)
              (file_dataroomId file) in
          match List.find
                  (λ f, bool_decide (file_name f = normalizedName)
                        && bool_decide (file_id f ≠ id))
                  existingFiles with
          | Some existingFile =>
              FileService_delete (file_id existingFile);;
              ret normalizedName
          | None => ret normalizedName
          end
      | KeepBoth =>
          let! siblings :=
            FileRepo_listByParent (file_parentId file)
              (file_dataroomId file) in
          let existingNames : gset string :=
            list_to_set
              (file_name <$>
                 List.filter (λ f, bool_decide (file_id f ≠ id)) siblings) in
          match generateUniqueName normalizedName existingNames with
          | Some uniqueName => ret uniqueName
          | None => throw Diverged
          end
      end
    else ret normalizedName in
  FileRepo_updateName id finalName;;
  DataroomRepo_touch (file_dataroomId file);;
  FileService_get id.

Definition FileService_getBlobUrl (id : ID) : M (option string) :=
  let! file := FileRepo_get id in
  match file with
  | None => ret None
  | Some f => BlobRepo_createBlobUrl (file_blobKey f)
  end.

Definition FileService_downloadBlob (id : ID) : M (option Download) :=
  let! file := FileRepo_get id in
  match file with
  | None => ret None
  | Some f =>
      let! blob := BlobRepo_get (file_blobKey f) in
      match blob with
      | None => ret None
      | Some b => ret (Some (mkDownload b (file_name f)))
      end
  end.

Definition FileService_move (id : ID) (newParentId : ID) : M FileObject :=
  let! file := FileRepo_getRequired id in
  FolderRepo_getRequired newParentId;;
  let! nameExists :=
    FileRepo_nameExistsInParent (file_name file) (Some newParentId)
      (file_dataroomId file) (Some id) in
  if nameExists
  then throw (AlreadyExistsError "File" (file_name file))
  else
    FileRepo_updateName id (file_name file);;
    DataroomRepo_touch (file_dataroomId file);;
    FileService_get id.

Definition FileService_isNameAvailable (name : string)
    (parentId : option ID) (dataroomId : ID) (excludeId : option ID)
    : M bool :=
  tryCatch
    (let normalizedName := normalizeName name in
     liftResult (validateName normalizedName KFile);;
     let! taken :=
       FileRepo_nameExistsInParent normalizedName parentId dataroomId
         excludeId in
     ret (negb taken))
    (λ _, ret false).

(** *** FolderService (core/services/FolderService.ts) *)

Record FolderDeletion : Type := mkFolderDeletion {
  deleted_folders : nat;
  deleted_files : nat }.

(** A traversal of the tree that overflows the stack throws. *)
Definition orStackOverflow {A} (r : option A) : M A :=
  match r with
  | Some a => ret a
  | None => throw RangeError
  end.

Definition FolderService_get (id : ID) : M Folder :=
  FolderRepo_getRequired id.

Definition FolderService_create (name : string) (dataroomId : ID)
    (parentId : option ID) (onNameCollision : NameCollisionAction)
    : M Folder :=
  let normalizedName := normalizeName name in
  liftResult (validateName normalizedName KFolder);;
  DataroomRepo_getRequired dataroomId;;
  requireParentFolder parentId;;
  let! nameExists :=
    FolderRepo_nameExistsInParent normalizedName parentId dataroomId None in
  let! finalName :=
    if nameExists
    then
      match onNameCollision with
      | Cancel => throw (AlreadyExistsError "Folder" normalizedName)
      | Replace => throw (InvalidOperationError "create folder")
      | KeepBoth =>
          let! siblings := FolderRepo_listByParent parentId dataroomId in
          let existingNames : gset string :=
            list_to_set (folder_name <$> siblings) in
          match generateUniqueName normalizedName existingNames with
          | Some uniqueName => ret uniqueName
          | None => throw Diverged
          end
      end
    else ret normalizedName in
  let! now := Date_now in
  let! id := generateId in
  let folder := mkFolder id dataroomId parentId finalName now now in
  FolderRepo_insert folder;;
  DataroomRepo_touch dataroomId;;
  ret folder.

Definition FolderService_rename (id : ID) (name : string)
    (onNameCollision : NameCollisionAction) : M Folder :=
  let normalizedName := normalizeName name in
  liftResult (validateName normalizedName KFolder);;
  let! folder := FolderRepo_getRequired id in
  let! nameExists :=
    FolderRepo_nameExistsInParent normalizedName (folder_parentId folder)
      (folder_dataroomId folder) (Some id) in
  let! finalName :=
    if nameExists
    then
      match onNameCollision with
      | Cancel => throw (AlreadyExistsError "Folder" normalizedName)
      | Replace => throw (InvalidOperationError "rename folder")
      | KeepBoth =>
          let! siblings :=
            FolderRepo_listByParent (folder_parentId folder)
              (folder_dataroomId folder) in
          let existingNames : gset string :=
            list_to_set
              (folder_name <$>
                 List.filter (λ f, bool_decide (folder_id f ≠ id))
                   siblings) in
          match generateUniqueName normalizedName existingNames with
          | Some uniqueName => ret uniqueName
          | None => throw Diverged
          end
      end
    else ret normalizedName in
  FolderRepo_updateName id finalName;;
  DataroomRepo_touch (folder_dataroomId folder);;
  FolderService_get id.

(** The inner loop of [delete]: the files of one affected folder. *)
Definition deleteFilesIn (allFiles : list FileObject) (deletedFiles : nat)
    (folderId : ID) : M nat :=
  let folderFiles := List.filter (isChildFileOf folderId) allFiles in
  foldM (λ deleted file, FileService_delete (file_id file);;
                         ret (S deleted))
        deletedFiles folderFiles.

Definition FolderService_delete (id : ID) : M FolderDeletion :=
  let! folder := FolderRepo_getRequired id in
  let! allFolders := FolderRepo_listByDataroom (folder_dataroomId folder) in
  let! allFiles := FileRepo_listByDataroom (folder_dataroomId folder) in
  let! descendantFolderIds :=
    orStackOverflow
      (getDescendantFolderIds spreadLimit stackDepth id allFolders) in
  let allAffectedFolderIds := id :: descendantFolderIds in
  let! deletedFiles :=
    foldM (deleteFilesIn allFiles) 0 allAffectedFolderIds in
  let sortedFolderIds := rev descendantFolderIds in
  let! deletedFolders :=
    foldM (λ deleted folderId, FolderRepo_delete folderId;;
                               ret (S deleted))
          0 sortedFolderIds in
  FolderRepo_delete id;;
  let deletedFolders := S deletedFolders in
  DataroomRepo_touch (folder_dataroomId folder);;
  ret (mkFolderDeletion deletedFolders deletedFiles).

Definition FolderService_getDeletionImpact (id : ID) : M FolderDeletion :=
  let! folder := FolderRepo_getRequired id in
  let! allFolders := FolderRepo_listByDataroom (folder_dataroomId folder) in
  let! allFiles := FileRepo_listByDataroom (folder_dataroomId folder) in
  let! counts :=
    orStackOverflow (countDescendants countDepth id allFolders allFiles) in
  ret (mkFolderDeletion (counts.1 + 1) counts.2).

Definition FolderService_move (id : ID) (newParentId : option ID)
    : M Folder :=
  let! folder := FolderRepo_getRequired id in
  (match newParentId with
   | Some p =>
       if truthy p
       then
         FolderRepo_getRequired p;;
         let! allFolders :=
           FolderRepo_listByDataroom (folder_dataroomId folder) in
         let! descendantIds :=
           orStackOverflow
      (getDescendantFolderIds spreadLimit stackDepth id allFolders) in
         if bool_decide (p ∈ descendantIds)
         then throw (InvalidOperationError "move folder")
         else ret tt
       else ret tt
   | None => ret tt
   end);;
  let! nameExists :=
    FolderRepo_nameExistsInParent (folder_name folder) newParentId
      (folder_dataroomId folder) (Some id) in
  if nameExists
  then throw (AlreadyExistsError "Folder" (folder_name folder))
  else
    FolderRepo_updateName id (folder_name folder);;
    DataroomRepo_touch (folder_dataroomId folder);;
    FolderService_get id.

Definition FolderService_isNameAvailable (name : string)
    (parentId : option ID) (dataroomId : ID) (excludeId : option ID)
    : M bool :=
  tryCatch
    (let normalizedName := normalizeName name in
     liftResult (validateName normalizedName KFolder);;
     let! taken :=
       FolderRepo_nameExistsInParent normalizedName parentId dataroomId
         excludeId in
     ret (negb taken))
    (λ _, ret false).

(** *** DataroomService (core/services/DataroomService.ts) *)

Record RoomDeletion : Type := mkRoomDeletion {
  room_deleted_folders : nat;
  room_deleted_files : nat;
  room_deleted_blobs : nat }.

Definition DataroomService_get (id : ID) : M Dataroom :=
  DataroomRepo_getRequired id.

Definition DataroomService_create (name : string) : M Dataroom :=
  liftResult (validateName name KFolder);;
  let! existingDatarooms := DataroomRepo_list in
  let! resolved :=
    liftResult (resolveDataroomNameCollision name Cancel existingDatarooms
                  None) in
  let! now := Date_now in
  let! id := generateId in
  let dataroom := mkDataroom id (finalName resolved) now now in
  DataroomRepo_insert dataroom;;
  ret dataroom.

Definition DataroomService_rename (id : ID) (name : string) : M Dataroom :=
  liftResult (validateName name KFolder);;
  let! existingDatarooms := DataroomRepo_list in
  let! resolved :=
    liftResult (resolveDataroomNameCollision name Cancel existingDatarooms
                  (Some id)) in
  DataroomRepo_updateName id (finalName resolved);;
  DataroomService_get id.

(** The two bulk deletions run under [Promise.all]; they work on
    different tables and are taken one after the other. *)
Definition DataroomService_delete (id : ID) : M RoomDeletion :=
  let! files := FileRepo_listByDataroom id in
  let! deletedBlobs :=
    match files with
    | [] => ret 0
    | _ => BlobRepo_deleteMany (file_blobKey <$> files)
    end in
  let! deletedFiles := FileRepo_deleteByDataroom id in
  let! deletedFolders := FolderRepo_deleteByDataroom id in
  DataroomRepo_delete id;;
  ret (mkRoomDeletion deletedFolders deletedFiles deletedBlobs).

End Engine.

(** * Callers, well-formed stores and oracles *)

(** The mutating operations that the three services offer to a caller. *)
Inductive Operation : Type :=
  | RoomCreate (name : string)
  | RoomRename (id : ID) (name : string)
  | RoomDelete (id : ID)
  | FolderCreate (name : string) (dataroomId : ID) (parentId : option ID)
      (onNameCollision : NameCollisionAction)
  | FolderRename (id : ID) (name : string)
      (onNameCollision : NameCollisionAction)
  | FolderMove (id : ID) (newParentId : option ID)
  | FolderDelete (id : ID)
  | FileUpload (file : JsFile) (dataroomId : ID) (parentId : option ID)
      (onNameCollision : NameCollisionAction)
  | FileRename (id : ID) (name : string)
      (onNameCollision : NameCollisionAction)
  | FileMove (id : ID) (newParentId : ID)
  | FileDelete (id : ID).

Definition discard {A} (m : M A) : M unit := let! _ := m in ret tt.

Definition perform (O : Oracle) (op : Operation) : M unit :=
  match op with
  | RoomCreate name => discard (DataroomService_create O name)
  | RoomRename id name => discard (DataroomService_rename O id name)
  | RoomDelete id => discard (DataroomService_delete O id)
  | FolderCreate name room parent action =>
      discard (FolderService_create O name room parent action)
  | FolderRename id name action =>
      discard (FolderService_rename O id name action)
  | FolderMove id parent => discard (FolderService_move O id parent)
  | FolderDelete id => discard (FolderService_delete O id)
  | FileUpload file room parent action =>
      discard (FileService_upload O file room parent action)
  | FileRename id name action => discard (FileService_rename O id name action)
  | FileMove id parent => discard (FileService_move O id parent)
  | FileDelete id => discard (FileService_delete O id)
  end.

(** The worlds that a caller can bring about: the empty one, and the one
    that an operation leaves, whether it returned or threw. *)
Inductive reachable (O : Oracle) : World → Prop :=
  | reachable_empty : reachable O emptyWorld
  | reachable_step w op :
      reachable O w → reachable O (perform O op w).2.

(** Queries and sorts rearrange, they neither drop nor repeat a record. *)
Definition lawfulOrders (O : Oracle) : Prop :=
  (∀ A (l : list A), indexOrder O A l ≡ₚ l)
  ∧ (∀ A (l : list A), sortOrder O A l ≡ₚ l).

(** What [nanoid] promises: an id is never empty and never handed out
    twice. *)
Definition freshIds (O : Oracle) : Prop :=
  (∀ i j, genId O i = genId O j → i = j) ∧ (∀ i, genId O i ≠ "").

(** Every record sits under its own primary key. *)
Definition keysOk (s : Store) : Prop :=
  (∀ k f, folders s !! k = Some f → folder_id f = k)
  ∧ (∀ k f, files s !! k = Some f → file_id f = k).


(** The [n]-th folder met when following [parentId] upwards from [k]. *)
Fixpoint nthAncestor (s : Store) (n : nat) (k : ID) : option ID :=
  match n with
  | 0 => Some k
  | S n' =>
      match folders s !! k with
      | Some f =>
          match folder_parentId f with
          | Some p => nthAncestor s n' p
          | None => None
          end
      | None => None
      end
  end.

(** [descends fs y x]: in the list [fs], the folder [y] lies below the
    folder [x], one or more [parentId] links away. *)
Inductive descends (fs : list Folder) : ID → ID → Prop :=
  | descends_child f x :
      f ∈ fs → folder_parentId f = Some x → descends fs (folder_id f) x
  | descends_below f y x :
      f ∈ fs → folder_parentId f = Some y → descends fs y x →
      descends fs (folder_id f) x.

(** What [listByDataroom] answers. *)
Definition foldersOfRoom (O : Oracle) (s : Store) (room : ID) : list Folder :=
  indexOrder O _
    (List.filter (λ f, bool_decide (folder_dataroomId f = room))
       (records (folders s))).
Definition filesOfRoom (O : Oracle) (s : Store) (room : ID)
    : list FileObject :=
  indexOrder O _
    (List.filter (λ f, bool_decide (file_dataroomId f = room))
       (records (files s))).


(** ** Worlds after an access *)

Definition logged (a : Access) (w : World) : World :=
  mkWorld (store w) (idsUsed w) (instantsUsed w) (a :: accessLog w).

Definition withStore (s : Store) (w : World) : World :=
  mkWorld s (idsUsed w) (instantsUsed w) (accessLog w).

(** ** Reasoning about computations *)

(** [m] relates the world it starts in to the world it leaves, whether it
    returns or throws. *)
Definition preserves {A} (R : World → World → Prop) (m : M A) : Prop :=
  ∀ w r w', m w = (r, w') → R w w'.

(** Between two worlds: no id was given back to the generator, and every
    folder of the second is a folder of the first, with the id and the
    parent it had. *)
Definition evolves (w w' : World) : Prop :=
  idsUsed w ≤ idsUsed w'
  ∧ ∀ k f', folders (store w') !! k = Some f' →
      ∃ f, folders (store w) !! k = Some f
           ∧ folder_id f' = folder_id f
           ∧ folder_parentId f' = folder_parentId f.

(** [k] is one of the first [n] ids of the generator. *)
Definition generated (O : Oracle) (n : nat) (k : ID) : Prop :=
  ∃ i, i < n ∧ genId O i = k.

(** The invariant behind acyclicity: folders sit under generated ids, a
    parent is a generated id or the empty string, and some rank, which
    stays below the number of ids handed out, grows from a folder to the
    folders under it. *)
Definition acyclicInv (O : Oracle) (w : World) : Prop :=
  (∀ k f, folders (store w) !! k = Some f →
     folder_id f = k ∧ generated O (idsUsed w) k)
  ∧ (∀ k f p, folders (store w) !! k = Some f →
       folder_parentId f = Some p →
       p = "" ∨ generated O (idsUsed w) p)
  ∧ (∃ rank : ID → nat,
       (∀ k, rank k ≤ idsUsed w)
       ∧ ∀ k f p, folders (store w) !! k = Some f →
           folder_parentId f = Some p →
           is_Some (folders (store w) !! p) → rank p < rank k).

(** ** A concrete oracle and concrete worlds *)

(** Ids ["id0"], ["id1"], ...; the instants 0, 1, ...; records in the
    order of the table; a stack that takes 64 nested calls of the
    traversal and 48 of the count, and calls of up to 1000 arguments. *)
Definition demoOracle : Oracle :=
  mkOracle (λ n, "id" +:+ pretty n) Z.of_nat (λ _ l, l) (λ _ l, l) 64 48
    (λ _, 1000)
    (λ f, "blob:" +:+ jsfile_name f).

Definition runAll (O : Oracle) (ops : list Operation) (w : World) : World :=
  foldl (λ w op, (perform O op w).2) w ops.

Definition pdfFile (name : string) : JsFile :=
  mkJsFile name "application/pdf" [Byte.x25; Byte.x50; Byte.x44; Byte.x46].

(** A room, the folders A and B side by side at its root, and a file at
    its root: the room is ["id0"], A is ["id1"], B is ["id2"], the file is
    ["id4"] and its blob ["id3"]. *)
Definition worldSideBySide : World :=
  runAll demoOracle
    [ RoomCreate "Acme";
      FolderCreate "A" "id0" None KeepBoth;
      FolderCreate "B" "id0" None KeepBoth;
      FileUpload (pdfFile "q1.pdf") "id0" None KeepBoth ]
    emptyWorld.

(** A room, the folder A at its root, the folder B in A, and a file L in
    B: the room is ["id0"], A is ["id1"], B is ["id2"], the file is
    ["id4"] and its blob ["id3"]. *)
Definition worldNested : World :=
  runAll demoOracle
    [ RoomCreate "Acme";
      FolderCreate "A" "id0" None KeepBoth;
      FolderCreate "B" "id0" (Some "id1") KeepBoth;
      FileUpload (pdfFile "L.pdf") "id0" (Some "id2") KeepBoth ]
    emptyWorld.


(** * The rules as the specification words them *)

(** ** Name validation *)

Definition whitespaceOnly (s : string) : Prop :=
  JsString.existsb (λ c, negb (JsString.isWhiteSpace c)) s = false.

Definition containsInvalidChar (s : string) : Prop :=
  JsString.existsb isInvalidChar s = true.

(** What is compared with the reserved device names: the whole trimmed
    name of a folder, the base before the final dot of a file. *)
Definition reservedCheckTarget (name : string) (kind : EntityKind) : string :=
  match kind with
  | KFolder => JsString.trim name
  | KFile => (splitName (JsString.trim name)).1
  end.

Definition isReservedName (s : string) : Prop :=
  JsString.toUpperCase s ∈ reservedNames.

(** For files: an empty base before the final dot, or an extension that is
    there and is not [.pdf]. *)
Definition fileRuleBroken (name : string) : Prop :=
  (splitName (JsString.trim name)).1 = ""
  ∨ ((splitName (JsString.trim name)).2 ≠ ""
     ∧ (splitName (JsString.trim name)).2 ≠ ".pdf").

(** The five reasons for which a name is rejected, with [measured] units
    counted against the limit of 255. *)
Definition rejectedWith (measured : nat) (name : string) (kind : EntityKind)
    : Prop :=
  (name = "" ∨ whitespaceOnly name)
  ∨ 255 < measured
  ∨ containsInvalidChar name
  ∨ isReservedName (reservedCheckTarget name kind)
  ∨ (kind = KFile ∧ fileRuleBroken name).

(** The rule with the length of the name as it is given ... *)
Definition rejectedAsSpecified (name : string) (kind : EntityKind) : Prop :=
  rejectedWith (String.length name) name kind.

(** ... and with the length of the name after trimming. *)
Definition rejectedAfterTrim (name : string) (kind : EntityKind) : Prop :=
  rejectedWith (String.length (JsString.trim name)) name kind.

(** 255 letters and a trailing space. *)
Definition paddedName : string := JsString.repeat "a" 255 +:+ " ".

(** * Auxiliary notions of the proofs *)

(** The set of names that the keep-both branch of [resolveNameCollision]
    hands to [generateUniqueName]. *)
Definition siblingNames {T} (item_id : T → ID) (item_name : T → string)
    (existingSiblings : list T) (excludeId : option ID) : gset string :=
  list_to_set
    (item_name <$>
       List.filter (λ item, bool_decide (Some (item_id item) ≠ excludeId))
         existingSiblings).

(** A table other than the table of folders. *)
Definition offFolders {A} (T : TableOf A) : Prop :=
  ∀ t s, folders (tb_set T t s) = folders s.

(** The loop of [getDescendantFolderIds] over the children. *)
Definition collect (spread : nat → nat) (fs : list Folder) (depth : nat)
    (cs : list Folder) : option (list ID) :=
  foldr (λ childFolder rest,
           match getDescendantFolderIds spread depth (folder_id childFolder)
                   fs, rest with
           | Some below, Some descendants =>
               if length below <=? spread depth
               then Some (folder_id childFolder :: below ++ descendants)
               else None
           | _, _ => None
           end)
        (Some []) cs.

(** The body of the inner loop of [delete]. *)
Definition deleteOneFile (O : Oracle) (deleted : nat) (file : FileObject)
    : M nat :=
  FileService_delete O (file_id file);; ret (S deleted).

(** The files that the two nested loops of [delete] go through. *)
Definition filesIn (allFiles : list FileObject) (affected : list ID)
    : list FileObject :=
  flat_map (λ folderId, List.filter (isChildFileOf folderId) allFiles)
    affected.

(** The body of the loop over the descendant folders. *)
Definition deleteOneFolder (deleted : nat) (folderId : ID) : M nat :=
  FolderRepo_delete folderId;; ret (S deleted).

(** ** The folder tree and the breadcrumbs (core/utils/tree.ts) *)

(** A [TreeNode]. Its field [type] is the constant ["folder"]. Its field
    [parent] refers to the node one level up; that node is kept here by
    its id. *)
#[warnings="-register-all"] Inductive TreeNode : Type := mkTreeNode {
  node_id : ID;
  node_name : string;
  node_children : list TreeNode;
  node_parent : option ID;
  node_depth : nat;
  node_fileCount : nat;
  node_folderCount : nat }.

(** The closure [buildNode] of [buildFolderTree]. It recurses without a
    bound: [stack] is the number of nested calls that the call stack still
    takes, and [None] is its overflow. *)
Fixpoint buildNode (stack : nat) (folders : list Folder) (folder : Folder)
    (parent : option ID) (depth : nat) : option TreeNode :=
  match stack with
  | 0 => None
  | S stack' =>
      let children :=
        List.filter (isChildFolderOf (folder_id folder)) folders in
      match mapM (λ child, buildNode stack' folders child
                             (Some (folder_id folder)) (S depth))
              children with
      | Some nodes =>
          Some (mkTreeNode (folder_id folder) (folder_name folder) nodes
                  parent depth 0 (length children))
      | None => None
      end
  end.

(** The map [folderMap] that the source fills first is not read again. *)
Definition buildFolderTree (stack : nat) (folders : list Folder)
    (parentId : option ID) : option (list TreeNode) :=
  let rootFolders :=
    List.filter (λ folder, bool_decide (folder_parentId folder = parentId))
      folders in
  mapM (λ folder, buildNode stack folders folder None 0) rootFolders.

(** The ids of a tree, a node before its children, and the nodes of a
    tree. *)
Fixpoint nodeIds (node : TreeNode) : list ID :=
  match node with
  | mkTreeNode id _ children _ _ _ _ => id :: flat_map nodeIds children
  end.

Fixpoint subnodes (node : TreeNode) : list TreeNode :=
  match node with
  | mkTreeNode _ _ children _ _ _ _ => node :: flat_map subnodes children
  end.

Inductive CrumbType : Type := CrumbDataroom | CrumbFolder.

Record BreadcrumbItem : Type := mkBreadcrumbItem {
  crumb_id : ID;
  crumb_name : string;
  crumb_type : CrumbType }.

(** [folders.forEach((folder) => folderMap.set(folder.id, folder))]. *)
Definition folderMapOf (folders : list Folder) : gmap string Folder :=
  foldl (λ folderMap folder, <[folder_id folder := folder]> folderMap)
    ∅ folders.

(** The [while] loop of [buildBreadcrumbs]: [path.unshift] puts the
    current folder in front, and the loop goes on with the parent while
    there is one. [fuel] bounds the number of rounds; [None] stands for a
    loop that is still running. *)
Fixpoint tracePath (fuel : nat) (folderMap : gmap string Folder)
    (currentFolder : option Folder) (path : list Folder)
    : option (list Folder) :=
  match currentFolder with
  | None => Some path
  | Some current =>
      match fuel with
      | 0 => None
      | S fuel' =>
          let path' := current :: path in
          if truthyOpt (folder_parentId current)
          then tracePath fuel' folderMap
                 (folder_parentId current ≫= (folderMap !!.)) path'
          else Some path'
      end
  end.

Definition folderCrumb (folder : Folder) : BreadcrumbItem :=
  mkBreadcrumbItem (folder_id folder) (folder_name folder) CrumbFolder.

Definition buildBreadcrumbs (fuel : nat) (folderId : option ID)
    (folders : list Folder) (dataroomName : string) (dataroomId : ID)
    : option (list BreadcrumbItem) :=
  let breadcrumbs := [mkBreadcrumbItem dataroomId dataroomName CrumbDataroom] in
  if negb (truthyOpt folderId) then Some breadcrumbs
  else
    let folderMap := folderMapOf folders in
    match tracePath fuel folderMap (folderId ≫= (folderMap !!.)) [] with
    | Some path => Some (breadcrumbs ++ (folderCrumb <$> path))
    | None => None
    end.

(** What [buildNode] writes into a node and into the nodes below it. *)
Definition nodeOf (folder : Folder) (parent : option ID) (depth : nat)
    (node : TreeNode) : Prop :=
  node_id node = folder_id folder
  ∧ node_name node = folder_name folder
  ∧ node_parent node = parent
  ∧ node_depth node = depth.

Definition nodeFilled (fs : list Folder) (node : TreeNode) : Prop :=
  node_fileCount node = 0
  ∧ node_folderCount node = length (node_children node)
  ∧ Forall2 (λ folder child,
               nodeOf folder (Some (node_id node)) (S (node_depth node)) child)
      (List.filter (isChildFolderOf (node_id node)) fs)
      (node_children node).

(** [upChain folderMap l]: in [l] every folder is followed by its parent,
    looked up in [folderMap], and the last folder of [l] has no parent
    there: its [parentId] is null or empty, or is not a key of the map. *)
Fixpoint upChain (folderMap : gmap string Folder) (l : list Folder) : Prop :=
  match l with
  | [] => True
  | folder :: above =>
      match above with
      | [] =>
          truthyOpt (folder_parentId folder) = false
          ∨ folder_parentId folder ≫= (folderMap !!.) = None
      | parent :: _ =>
          truthyOpt (folder_parentId folder) = true
          ∧ folder_parentId folder ≫= (folderMap !!.) = Some parent
          ∧ upChain folderMap above
      end
  end.

(** The step of the loop of [countDescendants] over the children. *)
Definition countStep (fs : list Folder) (files : list FileObject)
    (depth : nat) (counts : option (nat * nat)) (childFolder : Folder)
    : option (nat * nat) :=
  match counts, countDescendants depth (folder_id childFolder) fs files with
  | Some (fo, fi), Some (cfo, cfi) => Some (fo + cfo, fi + cfi)
  | _, _ => None
  end.

(** The body of the loop of [BlobRepo.deleteMany]. *)
Definition deleteOneBlob (deletedCount : nat) (key : ID) : M nat :=
  let! existed := BlobRepo_exists key in
  if existed
  then table_delete db_blobs key;; ret (S deletedCount)
  else ret deletedCount.

(** ** More of the repositories and of the services *)

Section Queries.

Variable O : Oracle.

(** *** More of Dexie's table operations *)

(** [count()] on a query. *)
Definition table_where_count {A} (T : TableOf A) (p : A → bool) : M nat :=
  access (Read (tb_name T));;
  let! s := getStore in
  ret (length (List.filter p (records (tb_get T s)))).

Definition table_bulkDelete {A} (T : TableOf A) (keys : list ID) : M unit :=
  access (Write (tb_name T));;
  let! s := getStore in
  putStore (tb_set T (foldr delete (tb_get T s) keys) s).

(** *** BlobRepo *)

Definition BlobRepo_getRequired (key : ID) : M JsFile :=
  let! blob := BlobRepo_get key in
  match blob with
  | None => throw (NotFoundError "Blob" key)
  | Some b => ret b
  end.

(** *** FileRepo *)

Definition FileRepo_countInFolder (parentId : option ID) (dataroomId : ID)
    : M nat :=
  wrapDatabaseError
    (match parentId with
     | Some p =>
         table_where_count db_files
           (λ file, bool_decide (file_dataroomId file = dataroomId)
                    && bool_decide (file_parentId file = Some p))
     | None =>
         table_where_count db_files
           (λ file, bool_decide (file_dataroomId file = dataroomId)
                    && bool_decide (file_parentId file = None))
     end).

Definition FileRepo_deleteByFolder (parentId : option ID) (dataroomId : ID)
    : M nat :=
  wrapDatabaseError
    (match parentId with
     | Some p =>
         table_where_delete db_files
           (λ file, bool_decide (file_dataroomId file = dataroomId)
                    && bool_decide (file_parentId file = Some p))
     | None =>
         let! filesToDelete :=
           table_where O db_files
             (λ file, bool_decide (file_dataroomId file = dataroomId)
                      && bool_decide (file_parentId file = None)) in
         let fileIds := file_id <$> filesToDelete in
         table_bulkDelete db_files fileIds;;
         ret (length filesToDelete)
     end).

(** *** FolderRepo *)

Definition FolderRepo_countChildren (parentId : ID) (dataroomId : ID)
    : M nat :=
  wrapDatabaseError
    (table_where_count db_folders
       (λ folder, bool_decide (folder_dataroomId folder = dataroomId)
                  && bool_decide (folder_parentId folder = Some parentId))).

(** *** DataroomService *)

(** The two listings run under [Promise.all]; both only read. *)
Definition DataroomService_getDeletionImpact (id : ID) : M FolderDeletion :=
  let! folders := FolderRepo_listByDataroom O id in
  let! files := FileRepo_listByDataroom O id in
  ret (mkFolderDeletion (length folders) (length files)).

End Queries.

(** ** What the listings answer *)

Definition roomsListed (O : Oracle) (s : Store) : list Dataroom :=
  sortOrder O _
    (indexOrder O _ (List.filter (λ _, true) (records (datarooms s)))).

Definition siblingFolders (O : Oracle) (s : Store) (parentId : option ID)
    (dataroomId : ID) : list Folder :=
  sortOrder O _
    match parentId with
    | None =>
        indexOrder O _
          (List.filter
             (λ folder, bool_decide (folder_dataroomId folder = dataroomId)
                        && bool_decide (folder_parentId folder = None))
             (records (folders s)))
    | Some p =>
        indexOrder O _
          (List.filter
             (λ folder, bool_decide (folder_dataroomId folder = dataroomId)
                        && bool_decide (folder_parentId folder = Some p))
             (records (folders s)))
    end.

(** For a room id that is not empty. *)
Definition siblingFiles (O : Oracle) (s : Store) (parentId : option ID)
    (dataroomId : ID) : list FileObject :=
  sortOrder O _
    match parentId with
    | Some p =>
        indexOrder O _
          (List.filter
             (λ file, bool_decide (file_dataroomId file = dataroomId)
                      && bool_decide (file_parentId file = Some p))
             (records (files s)))
    | None =>
        indexOrder O _
          (List.filter
             (λ file, bool_decide (file_dataroomId file = dataroomId)
                      && bool_decide (file_parentId file = None))
             (records (files s)))
    end.

(** [siblings.some((x) => x.name === name && x.id !== excludeId)]. *)
Definition folderNameTaken (name : string) (excludeId : option ID)
    (siblings : list Folder) : bool :=
  List.existsb
    (λ folder, bool_decide (folder_name folder = name)
               && bool_decide (Some (folder_id folder) ≠ excludeId))
    siblings.

Definition fileNameTaken (name : string) (excludeId : option ID)
    (siblings : list FileObject) : bool :=
  List.existsb
    (λ file, bool_decide (file_name file = name)
             && bool_decide (Some (file_id file) ≠ excludeId))
    siblings.

(** The world after a reading of the clock and after the handing out of
    an id. *)
Definition ticked (w : World) : World :=
  mkWorld (store w) (idsUsed w) (S (instantsUsed w)) (accessLog w).

Definition minted (w : World) : World :=
  mkWorld (store w) (S (idsUsed w)) (instantsUsed w) (accessLog w).

(** ** What an operation leaves of the store *)

(** The records that [updateName] writes. *)
Definition renamedRoom (d : Dataroom) (name : string) (now : Z) : Dataroom :=
  mkDataroom (room_id d) name (room_createdAt d) now.

Definition renamedFolder (f : Folder) (name : string) (now : Z) : Folder :=
  mkFolder (folder_id f) (folder_dataroomId f) (folder_parentId f) name
    (folder_createdAt f) now.

Definition renamedFile (f : FileObject) (name : string) (now : Z)
    : FileObject :=
  mkFileObject (file_id f) (file_dataroomId f) (file_parentId f) name
    (file_mimeType f) (file_size f) (file_blobKey f) (file_createdAt f) now.


(** Between two worlds: the same tables and as many ids handed out. This
    is what a computation that only reads leaves. *)
Definition quiet (w w' : World) : Prop :=
  store w' = store w ∧ idsUsed w' = idsUsed w.

(** Between two tables of rooms: the same keys, and under each key a room
    with the id and the name it had. This is all that [touch] changes. *)
Definition roomsTouched (before after : gmap string Dataroom) : Prop :=
  ∀ k,
    match before !! k, after !! k with
    | Some d, Some d' => room_id d' = room_id d ∧ room_name d' = room_name d
    | None, None => True
    | _, _ => False
    end.

(** The tables of files and of blobs once a file was replaced. *)
Definition filesWithout (replaced : option FileObject)
    (t : gmap string FileObject) : gmap string FileObject :=
  match replaced with
  | Some old => delete (file_id old) t
  | None => t
  end.

Definition blobsWithout (replaced : option FileObject)
    (t : gmap string DBBlob) : gmap string DBBlob :=
  match replaced with
  | Some old => delete (file_blobKey old) t
  | None => t
  end.

(** ** Well-formed stores *)

(** No two rooms carry the same name; no two folders, and no two files,
    of the same room and with the same parent carry the same name. *)
Definition uniqueRoomNames (rooms : gmap string Dataroom) : Prop :=
  ∀ k1 d1 k2 d2,
    rooms !! k1 = Some d1 → rooms !! k2 = Some d2 →
    room_name d1 = room_name d2 → k1 = k2.

Definition uniqueFolderNames (fs : gmap string Folder) : Prop :=
  ∀ k1 f1 k2 f2,
    fs !! k1 = Some f1 → fs !! k2 = Some f2 →
    folder_dataroomId f1 = folder_dataroomId f2 →
    folder_parentId f1 = folder_parentId f2 →
    folder_name f1 = folder_name f2 → k1 = k2.

Definition uniqueFileNames (fs : gmap string FileObject) : Prop :=
  ∀ k1 f1 k2 f2,
    fs !! k1 = Some f1 → fs !! k2 = Some f2 →
    file_dataroomId f1 = file_dataroomId f2 →
    file_parentId f1 = file_parentId f2 →
    file_name f1 = file_name f2 → k1 = k2.

(** The content of a file is stored under the blob key of the file, and is
    of the type and of the size that the record of the file gives. *)
Definition blobOf (bs : gmap string DBBlob) (f : FileObject) : Prop :=
  ∃ data,
    bs !! file_blobKey f = Some (mkDBBlob (file_blobKey f) data)
    ∧ jsfile_type data = file_mimeType f
    ∧ jsfile_size data = file_size f.

(** No two files share a blob, and every blob is the content of a file. *)
Definition blobsOwned (fs : gmap string FileObject)
    (bs : gmap string DBBlob) : Prop :=
  (∀ k1 f1 k2 f2,
     fs !! k1 = Some f1 → fs !! k2 = Some f2 →
     file_blobKey f1 = file_blobKey f2 → k1 = k2)
  ∧ (∀ k b, bs !! k = Some b →
            ∃ k' f, fs !! k' = Some f ∧ file_blobKey f = k).

(** The four tables, after [n] ids were handed out, as the services keep
    them. *)
Record wellFormed (O : Oracle) (rooms : gmap string Dataroom)
    (fos : gmap string Folder) (fis : gmap string FileObject)
    (bs : gmap string DBBlob) (n : nat) : Prop := mkWellFormed {
  wf_rooms :
    ∀ k d, rooms !! k = Some d → room_id d = k ∧ generated O n k;
  wf_folders :
    ∀ k f, fos !! k = Some f →
           folder_id f = k ∧ is_Some (rooms !! folder_dataroomId f);
  wf_files :
    ∀ k f, fis !! k = Some f →
           file_id f = k
           ∧ generated O n k
           ∧ generated O n (file_blobKey f)
           ∧ is_Some (rooms !! file_dataroomId f)
           ∧ file_mimeType f = "application/pdf"
           ∧ (file_size f ≤ maxSizeBytes)%N
           ∧ blobOf bs f;
  wf_room_names : uniqueRoomNames rooms;
  wf_folder_names : uniqueFolderNames fos;
  wf_file_names : uniqueFileNames fis;
  wf_blobs : blobsOwned fis bs }.

Definition wellFormedWorld (O : Oracle) (w : World) : Prop :=
  wellFormed O (datarooms (store w)) (folders (store w)) (files (store w))
    (blobs (store w)) (idsUsed w).

(** Between two worlds: the second is well formed if the first is. *)
Definition keeps (O : Oracle) (w w' : World) : Prop :=
  wellFormedWorld O w → wellFormedWorld O w'.

(** * Properties of the names *)

Section StringFacts.

Lemma string_app_cons c s1 s2 : String c s1 +:+ s2 = String c (s1 +:+ s2).
Proof. reflexivity. Qed.

Lemma string_app_length s1 s2 :
  String.length (s1 +:+ s2) = String.length s1 + String.length s2.
Proof.
  induction s1 as [|c s1 IH]; [done|].
  rewrite string_app_cons. simpl. by rewrite IH.
Qed.

Lemma string_app_inj_r s1 s2 t : s1 +:+ t = s2 +:+ t → s1 = s2.
Proof.
  revert s2. induction s1 as [|c s1 IH]; intros [|d s2] Heq.
  - done.
  - apply (f_equal String.length) in Heq.
    rewrite !string_app_length in Heq. simpl in Heq. lia.
  - apply (f_equal String.length) in Heq.
    rewrite !string_app_length in Heq. simpl in Heq. lia.
  - rewrite !string_app_cons in Heq. injection Heq as -> Heq.
    f_equal. by apply IH.
Qed.

End StringFacts.

Global Instance candidateName_inj base ext :
  Inj (=) (=) (candidateName base ext).
Proof.
  intros i j Heq. unfold candidateName in Heq.
  apply (inj (String.app base)) in Heq.
  apply (inj (String.app " (")) in Heq.
  apply string_app_inj_r in Heq.
  by apply (inj pretty) in Heq.
Qed.

(** A run of candidates that are all taken is no longer than the set. *)
Lemma taken_candidates_bounded base ext (S : gset string) c n :
  (∀ j, c ≤ j < c + n → candidateName base ext j ∈ S) → n ≤ size S.
Proof.
  intros Hin.
  set (l := candidateName base ext <$> seq c n).
  assert (NoDup l) as Hnd.
  { apply (NoDup_fmap_2 _). apply NoDup_seq. }
  assert (list_to_set l ⊆ S) as Hsub.
  { intros x Hx. apply elem_of_list_to_set in Hx.
    apply list_elem_of_fmap in Hx as (j & -> & Hj).
    apply elem_of_seq in Hj. apply Hin. lia. }
  apply subseteq_size in Hsub.
  rewrite size_list_to_set in Hsub by done.
  unfold l in Hsub. by rewrite length_fmap, length_seq in Hsub.
Qed.

(** The loop stops at the least counter whose candidate is free; the fuel
    it is given in [generateUniqueName] is never used up. *)
Lemma uniqueNameLoop_least base ext (S : gset string) fuel c0 c :
  c0 ≤ c →
  (∀ j, c0 ≤ j < c → candidateName base ext j ∈ S) →
  size S < fuel + (c - c0) →
  ∃ k, uniqueNameLoop fuel base ext S c = Some (candidateName base ext k)
       ∧ c ≤ k
       ∧ (candidateName base ext k ∉ S)
       ∧ (∀ j, c0 ≤ j < k → candidateName base ext j ∈ S).
Proof.
  revert c. induction fuel as [|fuel IH]; intros c Hle Hseen Hfuel.
  - exfalso.
    assert (c - c0 ≤ size S); [|lia].
    apply (taken_candidates_bounded base ext S c0). intros j Hj.
    apply Hseen. lia.
  - simpl. case_decide as Hc.
    + destruct (IH (Datatypes.S c)) as (k & Hk & Hck & Hfree & Hbelow).
      * lia.
      * intros j Hj. destruct (decide (j = c)) as [->|]; [done|].
        apply Hseen. lia.
      * lia.
      * exists k. repeat split; auto. lia.
    + exists c. repeat split; auto.
Qed.

Lemma generateUniqueName_total (n : string) (S : gset string) :
  ∃ r, generateUniqueName n S = Some r ∧ r ∉ S.
Proof.
  unfold generateUniqueName. case_decide as Hn; [|by exists n].
  destruct (splitName n) as [base ext].
  destruct (uniqueNameLoop_least base ext S (Datatypes.S (size S)) 1 1)
    as (k & Hk & _ & Hfree & _); [lia| intros; lia | lia |].
  by exists (candidateName base ext k).
Qed.

Lemma find_sameNameOther_Some {T} (item_id : T → ID) (item_name : T → string)
    n excludeId (l : list T) :
  n ∈ siblingNames item_id item_name l excludeId →
  ∃ x, List.find (sameNameOther item_id item_name n excludeId) l = Some x.
Proof.
  unfold siblingNames. rewrite elem_of_list_to_set, list_elem_of_fmap.
  intros (x & -> & Hx). apply list_elem_of_In, filter_In in Hx as [Hx Hid].
  destruct (List.find _ l) as [y|] eqn:Hfind; [by exists y|].
  exfalso. eapply find_none in Hfind; [|exact Hx].
  unfold sameNameOther in Hfind. rewrite Hid in Hfind.
  by rewrite bool_decide_eq_true_2 in Hfind.
Qed.

(** C4. Minimal suffix: when the desired name [n] is taken and, with
    [(base, ext) = splitName n], the names "base (1)ext" to "base (k-1)ext"
    are all taken while "base (k)ext" is free, [generateUniqueName n S] is
    exactly "base (k)ext"; whatever it returns is not in [S]; and the
    keep-both branch of the collision resolution, run on siblings whose
    names (the excluded one apart) make up [S], has that same final name. *)
Theorem generateUniqueName_minimal_suffix
    (n : string) (S : gset string) (base ext : string) (k : nat) :
  n ∈ S →
  splitName n = (base, ext) →
  1 ≤ k →
  (∀ j, 1 ≤ j < k → candidateName base ext j ∈ S) →
  candidateName base ext k ∉ S →
  generateUniqueName n S = Some (candidateName base ext k)
  ∧ (∀ r, generateUniqueName n S = Some r → r ∉ S)
  ∧ (∀ T (item_id : T → ID) (item_name : T → string) entityType name
       siblings excludeId supportsReplace,
       (match entityType with
        | ForKind kind => validateName name kind
        | ForDataroom => Ok tt
        end) = Ok tt →
       normalizeName name = n →
       siblingNames item_id item_name siblings excludeId = S →
       resolveNameCollision item_id item_name entityType name KeepBoth
         siblings excludeId supportsReplace
       = Ok (mkNameCollisionResult (candidateName base ext k) false None)).
Proof.
  intros Hn Hsplit Hk Hbelow Hfree.
  assert (generateUniqueName n S = Some (candidateName base ext k)) as Hgen.
  { unfold generateUniqueName. rewrite decide_True by done. rewrite Hsplit.
    destruct (uniqueNameLoop_least base ext S (Datatypes.S (size S)) 1 1)
      as (k' & Hk' & Hle & Hfree' & Hbelow'); [lia| intros; lia | lia |].
    rewrite Hk'. do 2 f_equal.
    destruct (Nat.lt_trichotomy k k') as [Hlt | [-> | Hlt]]; [|done|].
    - exfalso. apply Hfree, Hbelow'. lia.
    - exfalso. apply Hfree', Hbelow. lia. }
  split; [done|]. split.
  - intros r Hr. rewrite Hgen in Hr. by injection Hr as <-.
  - intros T item_id item_name entityType name siblings excludeId
      supportsReplace Hvalid Hnorm HS.
    unfold resolveNameCollision. rewrite Hvalid, Hnorm.
    destruct (find_sameNameOther_Some item_id item_name n excludeId siblings)
      as [x ->]; [by rewrite HS|].
    fold (siblingNames item_id item_name siblings excludeId).
    by rewrite HS, Hgen.
Qed.

Section ValidateName.
Import JsString.

Lemma whitespaceOnly_cons c s :
  whitespaceOnly (String c s) ↔ isWhiteSpace c = true ∧ whitespaceOnly s.
Proof.
  unfold whitespaceOnly. simpl.
  destruct (isWhiteSpace c); simpl; intuition congruence.
Qed.

Lemma trimStart_nil s : trimStart s = "" ↔ whitespaceOnly s.
Proof.
  induction s as [|c s IH]; [done|].
  rewrite whitespaceOnly_cons. simpl.
  destruct (isWhiteSpace c); intuition congruence.
Qed.

Lemma trimEnd_nil s : trimEnd s = "" ↔ whitespaceOnly s.
Proof.
  induction s as [|c s IH]; [done|].
  rewrite whitespaceOnly_cons. simpl.
  destruct (trimEnd s) eqn:Hs, (isWhiteSpace c); intuition congruence.
Qed.

Lemma whitespaceOnly_trimStart s :
  whitespaceOnly (trimStart s) ↔ whitespaceOnly s.
Proof.
  induction s as [|c s IH]; [done|].
  simpl. destruct (isWhiteSpace c) eqn:Hc; [|done].
  rewrite whitespaceOnly_cons. intuition congruence.
Qed.

Lemma trim_nil s : trim s = "" ↔ whitespaceOnly s.
Proof.
  unfold trim. by rewrite trimEnd_nil, whitespaceOnly_trimStart.
Qed.

Section Existsb.
Variable p : ascii → bool.
Hypothesis p_not_space : ∀ c, p c = true → isWhiteSpace c = false.

Lemma p_space c : isWhiteSpace c = true → p c = false.
Proof.
  intros Hc. destruct (p c) eqn:Hp; [|done].
  apply p_not_space in Hp. congruence.
Qed.

Lemma existsb_trimStart s : existsb p (trimStart s) = existsb p s.
Proof.
  induction s as [|c s IH]; [done|].
  simpl. destruct (isWhiteSpace c) eqn:Hc; [|done].
  by rewrite IH, (p_space c Hc).
Qed.

Lemma existsb_trimEnd s : existsb p (trimEnd s) = existsb p s.
Proof.
  induction s as [|c s IH]; [done|].
  simpl. destruct (trimEnd s) as [|d t] eqn:Hs.
  - rewrite <- IH. simpl.
    destruct (isWhiteSpace c) eqn:Hc; [|done].
    by rewrite (p_space c Hc).
  - by rewrite <- IH.
Qed.

Lemma existsb_trim s : existsb p (trim s) = existsb p s.
Proof. unfold trim. by rewrite existsb_trimEnd, existsb_trimStart. Qed.
End Existsb.

Lemma isInvalidChar_not_space c :
  isInvalidChar c = true → isWhiteSpace c = false.
Proof. by destruct c as [[] [] [] [] [] [] [] []]. Qed.

Lemma string_length_0 s : String.length s = 0 ↔ s = "".
Proof. by destruct s. Qed.

Lemma validateName_outcomes name kind :
  validateName name kind = Ok tt
  ∨ validateName name kind = Err NameValidationError.
Proof.
  unfold validateName.
  repeat first [case_decide | case_match]; auto.
Qed.

Lemma validateName_rejects name kind :
  validateName name kind = Err NameValidationError
  ↔ rejectedAfterTrim name kind.
Proof.
  unfold validateName, rejectedAfterTrim, rejectedWith.
  case_decide as Hempty; [tauto|].
  case_decide as Hws.
  { apply string_length_0, trim_nil in Hws. tauto. }
  assert (¬ whitespaceOnly name) as Hws'.
  { by rewrite <- trim_nil, <- string_length_0. }
  case_decide as Hlen; [tauto|].
  unfold containsInvalidChar.
  rewrite (existsb_trim _ isInvalidChar_not_space).
  destruct (existsb isInvalidChar name) eqn:Hchars; [tauto|].
  unfold isReservedName, reservedCheckTarget, fileRuleBroken.
  destruct kind.
  - case_decide as Hres; [tauto|].
    destruct (splitName (trim name)) as [base ext] eqn:Hsplit.
    cbn [fst snd] in *.
    case_decide as Hbase.
    { apply string_length_0 in Hbase. tauto. }
    rewrite string_length_0 in Hbase.
    case_decide as Hext; [tauto|].
    split; [done|].
    intros [[H|H]|[H|[H|[H|[_ [H|H]]]]]]; done.
  - case_decide as Hres; [tauto|].
    split; [done|].
    intros [[H|H]|[H|[H|[H|[H _]]]]]; done.
Qed.

End ValidateName.

(** C7, as amended. [validateName] throws [NameValidationError] exactly when
    the name is empty or only white space, or is longer than 255 units
    after trimming, or holds one of the nine forbidden characters, or its
    check target is a reserved device name whatever the case of its
    letters, or, for a file, the base before the final dot is empty or an
    extension is there and is not [.pdf]; it returns normally otherwise. *)
Theorem validateName_throws_exactly (name : string) (kind : EntityKind) :
  (validateName name kind = Err NameValidationError
   ↔ rejectedAfterTrim name kind)
  ∧ (¬ rejectedAfterTrim name kind → validateName name kind = Ok tt).
Proof.
  split; [apply validateName_rejects|].
  intros Hnot. destruct (validateName_outcomes name kind) as [H|H]; [done|].
  by apply validateName_rejects in H.
Qed.

(** * Properties of the engine *)

Section MonadFacts.

Lemma bind_inv {A B} (m : M A) (k : A → M B) w r w' :
  bind m k w = (r, w') →
  (∃ a w1, m w = (Ok a, w1) ∧ k a w1 = (r, w'))
  ∨ (∃ e, m w = (Err e, w') ∧ r = Err e).
Proof.
  unfold bind. destruct (m w) as [[a|e] w1]; intros H.
  - left. eauto.
  - right. exists e. by injection H as <- <-.
Qed.

Lemma bind_Ok_inv {A B} (m : M A) (k : A → M B) w b w' :
  bind m k w = (Ok b, w') →
  ∃ a w1, m w = (Ok a, w1) ∧ k a w1 = (Ok b, w').
Proof.
  intros [H|(e & _ & H)]%bind_inv; [done|discriminate].
Qed.

Lemma bind_run {A B} (m : M A) (k : A → M B) w a w1 :
  m w = (Ok a, w1) → bind m k w = k a w1.
Proof. unfold bind. by intros ->. Qed.

Lemma bind_ret_l {A B} (a : A) (k : A → M B) w : bind (ret a) k w = k a w.
Proof. reflexivity. Qed.

Lemma bind_run_err {A B} (m : M A) (k : A → M B) w e w1 :
  m w = (Err e, w1) → bind m k w = (Err e, w1).
Proof. unfold bind. by intros ->. Qed.

Lemma foldM_app {A B} (body : B → A → M B) acc xs ys w :
  foldM body acc (xs ++ ys) w
  = bind (foldM body acc xs) (λ acc', foldM body acc' ys) w.
Proof.
  revert acc w. induction xs as [|x xs IH]; intros acc w; [done|].
  simpl. unfold bind. destruct (body acc x w) as [[acc'|e] w1]; [|done].
  rewrite IH. reflexivity.
Qed.

Context (R : World → World → Prop) `{!PreOrder R}.

Lemma preserves_ret {A} (a : A) : preserves R (ret a).
Proof. intros w r w' [= <- <-]. reflexivity. Qed.

Lemma preserves_throw {A} e : preserves R (@throw A e).
Proof. intros w r w' [= <- <-]. reflexivity. Qed.

Lemma preserves_liftResult {A} (x : Result A) : preserves R (liftResult x).
Proof. intros w r w' [= <- <-]. reflexivity. Qed.

Lemma preserves_bind {A B} (m : M A) (k : A → M B) :
  preserves R m → (∀ a, preserves R (k a)) → preserves R (bind m k).
Proof.
  intros Hm Hk w r w' [(a & w1 & H1 & H2)|(e & H1 & _)]%bind_inv.
  - transitivity w1; [by eapply Hm | by eapply Hk].
  - by eapply Hm.
Qed.

Lemma preserves_tryCatch {A} (m : M A) (h : Error → M A) :
  preserves R m → (∀ e, preserves R (h e)) → preserves R (tryCatch m h).
Proof.
  intros Hm Hh w r w'. unfold tryCatch.
  destruct (m w) as [[a|e] w1] eqn:Hmw.
  - intros [= <- <-]. by eapply Hm.
  - intros H. transitivity w1; [by eapply Hm | by eapply Hh].
Qed.

Lemma preserves_foldM {A B} (body : B → A → M B) acc xs :
  (∀ acc x, preserves R (body acc x)) → preserves R (foldM body acc xs).
Proof.
  intros Hbody. revert acc. induction xs as [|x xs IH]; intros acc.
  - apply preserves_ret.
  - simpl. apply preserves_bind; [apply Hbody | intros; apply IH].
Qed.

Lemma preserves_discard {A} (m : M A) :
  preserves R m → preserves R (discard m).
Proof.
  intros Hm. apply preserves_bind; [done|]. intros. apply preserves_ret.
Qed.

End MonadFacts.

Section Evolution.

Variable O : Oracle.

Global Instance evolves_preorder : PreOrder evolves.
Proof.
  split.
  - intros w. split; [done|]. intros k f Hf. by exists f.
  - intros w1 w2 w3 [Hn1 H1] [Hn2 H2]. split; [lia|].
    intros k f3 Hf3.
    destruct (H2 k f3 Hf3) as (f2 & Hf2 & Hid2 & Hp2).
    destruct (H1 k f2 Hf2) as (f1 & Hf1 & Hid1 & Hp1).
    exists f1. split; [done|]. split; congruence.
Qed.

Lemma evolves_same_folders w w' :
  idsUsed w ≤ idsUsed w' →
  folders (store w') = folders (store w) → evolves w w'.
Proof.
  intros Hn Hf. split; [done|]. intros k f. rewrite Hf. by exists f.
Qed.

Lemma access_evolves a : preserves evolves (access a).
Proof. intros w r w' [= _ <-]. by apply evolves_same_folders. Qed.

Lemma getStore_evolves : preserves evolves getStore.
Proof. intros w r w' [= _ <-]. reflexivity. Qed.

Lemma generateId_evolves : preserves evolves (generateId O).
Proof.
  intros w r w' [= _ <-]. apply evolves_same_folders; simpl; [lia|done].
Qed.

Lemma Date_now_evolves : preserves evolves (Date_now O).
Proof. intros w r w' [= _ <-]. by apply evolves_same_folders. Qed.

Lemma putStore_off_evolves {A} (T : TableOf A) t s :
  offFolders T →
  ∀ w r w', store w = s → putStore (tb_set T t s) w = (r, w') → evolves w w'.
Proof.
  intros HT w r w' Hs [= _ <-]. apply evolves_same_folders; [done|].
  simpl. by rewrite HT, Hs.
Qed.

Lemma db_datarooms_off : offFolders db_datarooms.
Proof. by intros t []. Qed.
Lemma db_files_off : offFolders db_files.
Proof. by intros t []. Qed.
Lemma db_blobs_off : offFolders db_blobs.
Proof. by intros t []. Qed.

Lemma table_get_evolves {A} (T : TableOf A) key :
  preserves evolves (table_get T key).
Proof. intros w r w' [= _ <-]. by apply evolves_same_folders. Qed.

Lemma table_where_evolves {A} (T : TableOf A) p :
  preserves evolves (table_where O T p).
Proof. intros w r w' [= _ <-]. by apply evolves_same_folders. Qed.

Lemma table_add_off_evolves {A} (T : TableOf A) x :
  offFolders T → preserves evolves (table_add T x).
Proof.
  intros HT w r w'. unfold table_add, bind. simpl.
  destruct (tb_get T (store w) !! tb_key T x); intros [= _ <-];
    apply evolves_same_folders; simpl; auto.
Qed.

Lemma table_put_off_evolves {A} (T : TableOf A) x :
  offFolders T → preserves evolves (table_put T x).
Proof.
  intros HT w r w' [= _ <-]. apply evolves_same_folders; simpl; auto.
Qed.

Lemma table_delete_off_evolves {A} (T : TableOf A) key :
  offFolders T → preserves evolves (table_delete T key).
Proof.
  intros HT w r w' [= _ <-]. apply evolves_same_folders; simpl; auto.
Qed.

Lemma table_update_off_evolves {A} `{EqDecision A} (T : TableOf A) key f :
  offFolders T → preserves evolves (table_update T key f).
Proof.
  intros HT w r w'. unfold table_update, bind. simpl.
  destruct (tb_get T (store w) !! key) as [x|]; [case_decide|];
    intros [= _ <-]; apply evolves_same_folders; simpl; auto.
Qed.

Lemma table_where_delete_off_evolves {A} (T : TableOf A) p :
  offFolders T → preserves evolves (table_where_delete T p).
Proof.
  intros HT w r w' [= _ <-]. apply evolves_same_folders; simpl; auto.
Qed.

Lemma folders_delete_evolves key :
  preserves evolves (table_delete db_folders key).
Proof.
  intros w r w' [= _ <-]. split; [done|]. simpl. intros k f Hf.
  apply lookup_delete_Some in Hf as [_ Hf]. by exists f.
Qed.

Lemma folders_where_delete_evolves p :
  preserves evolves (table_where_delete db_folders p).
Proof.
  intros w r w' [= _ <-]. split; [done|]. simpl. intros k f Hf.
  apply map_lookup_filter_Some in Hf as [Hf _]. by exists f.
Qed.

Lemma folders_update_evolves key (change : Folder → Folder) :
  (∀ f, folder_id (change f) = folder_id f
        ∧ folder_parentId (change f) = folder_parentId f) →
  preserves evolves (table_update db_folders key change).
Proof.
  intros Hch w r w'. unfold table_update, bind. simpl.
  destruct (folders (store w) !! key) as [x|] eqn:Hx; [case_decide|];
    intros [= _ <-]; try by apply evolves_same_folders.
  split; [done|]. simpl. intros k f Hf.
  destruct (decide (key = k)) as [->|Hne].
  - rewrite lookup_insert_eq in Hf. injection Hf as <-.
    exists x. split; [done|]. apply Hch.
  - rewrite lookup_insert_ne in Hf by done. by exists f.
Qed.

End Evolution.

Create HintDb preserves discriminated.

#[global] Hint Resolve access_evolves getStore_evolves generateId_evolves
  Date_now_evolves table_get_evolves table_where_evolves
  folders_delete_evolves folders_where_delete_evolves
  db_datarooms_off db_files_off db_blobs_off : preserves.
#[global] Hint Resolve table_add_off_evolves table_put_off_evolves
  table_delete_off_evolves table_update_off_evolves
  table_where_delete_off_evolves : preserves.

(** Splits a computation along its binds, handlers, loops and branches and
    closes the leaves with the facts of the hint database. *)
Ltac preserves_tac :=
  repeat match goal with
    | |- ∀ _, _ => intros
    | |- PreOrder _ => apply _
    | |- preserves _ _ => solve [eauto with preserves]
    | |- preserves ?R (ret _) => apply (preserves_ret R)
    | |- preserves ?R (throw _) => apply (preserves_throw R)
    | |- preserves ?R (liftResult _) => apply (preserves_liftResult R)
    | |- preserves ?R (discard _) => apply (preserves_discard R)
    | |- preserves ?R (bind _ _) => apply (preserves_bind R)
    | |- preserves ?R (tryCatch _ _) => apply (preserves_tryCatch R)
    | |- preserves ?R (foldM _ _ _) => apply (preserves_foldM R)
    | |- preserves _ (match ?x with _ => _ end) => destruct x
    end.

Section RepoEvolution.

Variable O : Oracle.

Lemma BlobRepo_put_evolves key data :
  preserves evolves (BlobRepo_put key data).
Proof. unfold BlobRepo_put, wrapBlobError. preserves_tac. Qed.

Lemma BlobRepo_get_evolves key : preserves evolves (BlobRepo_get key).
Proof. unfold BlobRepo_get, wrapBlobError. preserves_tac. Qed.

Lemma BlobRepo_exists_evolves key : preserves evolves (BlobRepo_exists key).
Proof. unfold BlobRepo_exists, wrapBlobError. preserves_tac. Qed.

Lemma BlobRepo_delete_evolves key : preserves evolves (BlobRepo_delete key).
Proof. unfold BlobRepo_delete, wrapBlobError. preserves_tac. Qed.

Hint Resolve BlobRepo_put_evolves BlobRepo_get_evolves
  BlobRepo_exists_evolves BlobRepo_delete_evolves : preserves.

Lemma BlobRepo_deleteMany_evolves keys :
  preserves evolves (BlobRepo_deleteMany keys).
Proof. unfold BlobRepo_deleteMany, wrapBlobError. preserves_tac. Qed.

Lemma BlobRepo_createBlobUrl_evolves key :
  preserves evolves (BlobRepo_createBlobUrl O key).
Proof. unfold BlobRepo_createBlobUrl, wrapBlobError. preserves_tac. Qed.

Lemma DataroomRepo_insert_evolves d :
  preserves evolves (DataroomRepo_insert d).
Proof. unfold DataroomRepo_insert, wrapDatabaseError. preserves_tac. Qed.

Lemma DataroomRepo_get_evolves id : preserves evolves (DataroomRepo_get id).
Proof. unfold DataroomRepo_get, wrapDatabaseError. preserves_tac. Qed.

Hint Resolve DataroomRepo_get_evolves : preserves.

Lemma DataroomRepo_getRequired_evolves id :
  preserves evolves (DataroomRepo_getRequired id).
Proof. unfold DataroomRepo_getRequired. preserves_tac. Qed.

Lemma DataroomRepo_list_evolves : preserves evolves (DataroomRepo_list O).
Proof. unfold DataroomRepo_list, wrapDatabaseError. preserves_tac. Qed.

Lemma DataroomRepo_updateName_evolves id name :
  preserves evolves (DataroomRepo_updateName O id name).
Proof. unfold DataroomRepo_updateName, wrapDatabaseError. preserves_tac. Qed.

Lemma DataroomRepo_touch_evolves id :
  preserves evolves (DataroomRepo_touch O id).
Proof. unfold DataroomRepo_touch, wrapDatabaseError. preserves_tac. Qed.

Lemma DataroomRepo_delete_evolves id :
  preserves evolves (DataroomRepo_delete id).
Proof. unfold DataroomRepo_delete, wrapDatabaseError. preserves_tac. Qed.

Lemma FolderRepo_get_evolves id : preserves evolves (FolderRepo_get id).
Proof. unfold FolderRepo_get, wrapDatabaseError. preserves_tac. Qed.

Hint Resolve FolderRepo_get_evolves : preserves.

Lemma FolderRepo_getRequired_evolves id :
  preserves evolves (FolderRepo_getRequired id).
Proof. unfold FolderRepo_getRequired. preserves_tac. Qed.

Lemma FolderRepo_listByParent_evolves parentId dataroomId :
  preserves evolves (FolderRepo_listByParent O parentId dataroomId).
Proof. unfold FolderRepo_listByParent, wrapDatabaseError. preserves_tac. Qed.

Hint Resolve FolderRepo_listByParent_evolves : preserves.

Lemma FolderRepo_listByDataroom_evolves dataroomId :
  preserves evolves (FolderRepo_listByDataroom O dataroomId).
Proof. unfold FolderRepo_listByDataroom, wrapDatabaseError. preserves_tac. Qed.

Lemma FolderRepo_updateName_evolves id name :
  preserves evolves (FolderRepo_updateName O id name).
Proof.
  unfold FolderRepo_updateName, wrapDatabaseError.
  apply (preserves_tryCatch evolves); [|preserves_tac].
  apply (preserves_bind evolves); [preserves_tac|].
  intros now. by apply folders_update_evolves.
Qed.

Lemma FolderRepo_delete_evolves id : preserves evolves (FolderRepo_delete id).
Proof. unfold FolderRepo_delete, wrapDatabaseError. preserves_tac. Qed.

Lemma FolderRepo_nameExistsInParent_evolves name parentId dataroomId ex :
  preserves evolves
    (FolderRepo_nameExistsInParent O name parentId dataroomId ex).
Proof.
  unfold FolderRepo_nameExistsInParent, wrapDatabaseError. preserves_tac.
Qed.

Lemma FolderRepo_deleteByDataroom_evolves dataroomId :
  preserves evolves (FolderRepo_deleteByDataroom dataroomId).
Proof.
  unfold FolderRepo_deleteByDataroom, wrapDatabaseError. preserves_tac.
Qed.

Lemma FileRepo_insert_evolves f : preserves evolves (FileRepo_insert f).
Proof. unfold FileRepo_insert, wrapDatabaseError. preserves_tac. Qed.

Lemma FileRepo_get_evolves id : preserves evolves (FileRepo_get id).
Proof. unfold FileRepo_get, wrapDatabaseError. preserves_tac. Qed.

Hint Resolve FileRepo_get_evolves : preserves.

Lemma FileRepo_getRequired_evolves id :
  preserves evolves (FileRepo_getRequired id).
Proof. unfold FileRepo_getRequired. preserves_tac. Qed.

Lemma FileRepo_listByParent_evolves parentId dataroomId :
  preserves evolves (FileRepo_listByParent O parentId dataroomId).
Proof. unfold FileRepo_listByParent, wrapDatabaseError. preserves_tac. Qed.

Hint Resolve FileRepo_listByParent_evolves : preserves.

Lemma FileRepo_listByDataroom_evolves dataroomId :
  preserves evolves (FileRepo_listByDataroom O dataroomId).
Proof. unfold FileRepo_listByDataroom, wrapDatabaseError. preserves_tac. Qed.

Lemma FileRepo_updateName_evolves id name :
  preserves evolves (FileRepo_updateName O id name).
Proof. unfold FileRepo_updateName, wrapDatabaseError. preserves_tac. Qed.

Lemma FileRepo_delete_evolves id : preserves evolves (FileRepo_delete id).
Proof. unfold FileRepo_delete, wrapDatabaseError. preserves_tac. Qed.

Lemma FileRepo_nameExistsInParent_evolves name parentId dataroomId ex :
  preserves evolves
    (FileRepo_nameExistsInParent O name parentId dataroomId ex).
Proof.
  unfold FileRepo_nameExistsInParent, wrapDatabaseError. preserves_tac.
Qed.

Lemma FileRepo_deleteByDataroom_evolves dataroomId :
  preserves evolves (FileRepo_deleteByDataroom dataroomId).
Proof.
  unfold FileRepo_deleteByDataroom, wrapDatabaseError. preserves_tac.
Qed.

End RepoEvolution.

#[global] Hint Resolve BlobRepo_put_evolves BlobRepo_get_evolves
  BlobRepo_exists_evolves BlobRepo_delete_evolves BlobRepo_deleteMany_evolves
  BlobRepo_createBlobUrl_evolves DataroomRepo_insert_evolves
  DataroomRepo_get_evolves DataroomRepo_getRequired_evolves
  DataroomRepo_list_evolves DataroomRepo_updateName_evolves
  DataroomRepo_touch_evolves DataroomRepo_delete_evolves
  FolderRepo_get_evolves FolderRepo_getRequired_evolves
  FolderRepo_listByParent_evolves FolderRepo_listByDataroom_evolves
  FolderRepo_updateName_evolves FolderRepo_delete_evolves
  FolderRepo_nameExistsInParent_evolves FolderRepo_deleteByDataroom_evolves
  FileRepo_insert_evolves FileRepo_get_evolves FileRepo_getRequired_evolves
  FileRepo_listByParent_evolves FileRepo_listByDataroom_evolves
  FileRepo_updateName_evolves FileRepo_delete_evolves
  FileRepo_nameExistsInParent_evolves FileRepo_deleteByDataroom_evolves
  : preserves.

Section ServiceEvolution.

Variable O : Oracle.

Lemma requireParentFolder_evolves parentId :
  preserves evolves (requireParentFolder parentId).
Proof. unfold requireParentFolder. preserves_tac. Qed.

Lemma orStackOverflow_evolves {A} (r : option A) :
  preserves evolves (orStackOverflow r).
Proof. unfold orStackOverflow. preserves_tac. Qed.

Hint Resolve requireParentFolder_evolves orStackOverflow_evolves : preserves.

Lemma FileService_get_evolves id : preserves evolves (FileService_get id).
Proof. unfold FileService_get. preserves_tac. Qed.

Lemma FileService_delete_evolves id :
  preserves evolves (FileService_delete O id).
Proof. unfold FileService_delete. preserves_tac. Qed.

Hint Resolve FileService_get_evolves FileService_delete_evolves : preserves.

Lemma FileService_upload_evolves file dataroomId parentId action :
  preserves evolves (FileService_upload O file dataroomId parentId action).
Proof. unfold FileService_upload. preserves_tac. Qed.

Lemma FileService_rename_evolves id name action :
  preserves evolves (FileService_rename O id name action).
Proof. unfold FileService_rename. preserves_tac. Qed.

Lemma FileService_move_evolves id newParentId :
  preserves evolves (FileService_move O id newParentId).
Proof. unfold FileService_move. preserves_tac. Qed.

Lemma FolderService_get_evolves id : preserves evolves (FolderService_get id).
Proof. unfold FolderService_get. preserves_tac. Qed.

Hint Resolve FolderService_get_evolves : preserves.

Lemma FolderService_rename_evolves id name action :
  preserves evolves (FolderService_rename O id name action).
Proof. unfold FolderService_rename. preserves_tac. Qed.

Lemma deleteFilesIn_evolves allFiles deleted folderId :
  preserves evolves (deleteFilesIn O allFiles deleted folderId).
Proof. unfold deleteFilesIn. preserves_tac. Qed.

Hint Resolve deleteFilesIn_evolves : preserves.

Lemma FolderService_delete_evolves id :
  preserves evolves (FolderService_delete O id).
Proof. unfold FolderService_delete. preserves_tac. Qed.

Lemma FolderService_move_evolves id newParentId :
  preserves evolves (FolderService_move O id newParentId).
Proof. unfold FolderService_move. preserves_tac. Qed.

Lemma DataroomService_get_evolves id :
  preserves evolves (DataroomService_get id).
Proof. unfold DataroomService_get. preserves_tac. Qed.

Hint Resolve DataroomService_get_evolves : preserves.

Lemma DataroomService_create_evolves name :
  preserves evolves (DataroomService_create O name).
Proof. unfold DataroomService_create. preserves_tac. Qed.

Lemma DataroomService_rename_evolves id name :
  preserves evolves (DataroomService_rename O id name).
Proof. unfold DataroomService_rename. preserves_tac. Qed.

Lemma DataroomService_delete_evolves id :
  preserves evolves (DataroomService_delete O id).
Proof. unfold DataroomService_delete. preserves_tac. Qed.

End ServiceEvolution.

#[global] Hint Resolve requireParentFolder_evolves orStackOverflow_evolves
  FileService_get_evolves FileService_delete_evolves
  FileService_upload_evolves FileService_rename_evolves
  FileService_move_evolves FolderService_get_evolves
  FolderService_rename_evolves FolderService_delete_evolves
  FolderService_move_evolves DataroomService_create_evolves
  DataroomService_rename_evolves DataroomService_delete_evolves
  : preserves.

Section Acyclicity.

Variable O : Oracle.
Hypothesis Hfresh : freshIds O.

Lemma generated_mono n n' k :
  n ≤ n' → generated O n k → generated O n' k.
Proof. intros Hle (i & Hi & Hk). exists i. split; [lia|done]. Qed.

Lemma generated_not_next n : ¬ generated O n (genId O n).
Proof.
  intros (i & Hi & Heq). apply Hfresh in Heq. lia.
Qed.

Lemma acyclicInv_empty : acyclicInv O emptyWorld.
Proof.
  split; [|split].
  - intros k f Hf. simpl in Hf. by rewrite lookup_empty in Hf.
  - intros k f p Hf. simpl in Hf. by rewrite lookup_empty in Hf.
  - exists (λ _, 0). split; [intros; simpl; lia|].
    intros k f p Hf. simpl in Hf. by rewrite lookup_empty in Hf.
Qed.

Lemma acyclicInv_evolves w w' :
  acyclicInv O w → evolves w w' → acyclicInv O w'.
Proof.
  intros (Hkeys & Hparents & rank & Hbound & Hrank) [Hn Hev].
  split; [|split].
  - intros k f' Hf'. destruct (Hev k f' Hf') as (f & Hf & Hid & _).
    destruct (Hkeys k f Hf) as [Hk Hgen]. split; [congruence|].
    by eapply generated_mono.
  - intros k f' p Hf' Hp. destruct (Hev k f' Hf') as (f & Hf & _ & Hpar).
    rewrite Hpar in Hp. destruct (Hparents k f p Hf Hp) as [->|Hgen].
    + by left.
    + right. by eapply generated_mono.
  - exists rank. split; [intros k; specialize (Hbound k); lia|].
    intros k f' p Hf' Hp [g' Hg'].
    destruct (Hev k f' Hf') as (f & Hf & _ & Hpar).
    destruct (Hev p g' Hg') as (g & Hg & _).
    rewrite Hpar in Hp. by eapply Hrank.
Qed.

(** A new folder under a fresh id, below nothing or below a folder that
    was there before, keeps the invariant. *)
Lemma acyclicInv_insert w w' f :
  acyclicInv O w →
  folder_id f = genId O (idsUsed w) →
  (∀ p, folder_parentId f = Some p →
        p = "" ∨ generated O (idsUsed w) p) →
  folders (store w') = <[folder_id f := f]> (folders (store w)) →
  idsUsed w < idsUsed w' →
  acyclicInv O w'.
Proof.
  intros (Hkeys & Hparents & rank & Hbound & Hrank) Hid Hpar Hins Hn.
  assert (∀ p, p = "" ∨ generated O (idsUsed w) p → p ≠ folder_id f)
    as Hnew.
  { intros p [->|Hgen] Heq.
    - rewrite Hid in Heq. symmetry in Heq. by apply Hfresh in Heq.
    - rewrite Heq, Hid in Hgen. by apply generated_not_next in Hgen. }
  split; [|split].
  - intros k g Hg. rewrite Hins in Hg.
    destruct (decide (folder_id f = k)) as [<-|Hne].
    + rewrite lookup_insert_eq in Hg. injection Hg as <-. split; [done|].
      exists (idsUsed w). split; [lia|done].
    + rewrite lookup_insert_ne in Hg by done.
      destruct (Hkeys k g Hg) as [Hk Hgen]. split; [done|].
      eapply generated_mono; [|done]. lia.
  - intros k g p Hg Hp. rewrite Hins in Hg.
    assert (p = "" ∨ generated O (idsUsed w) p) as [->|Hgen].
    { destruct (decide (folder_id f = k)) as [<-|Hne].
      - rewrite lookup_insert_eq in Hg. injection Hg as <-. by apply Hpar.
      - rewrite lookup_insert_ne in Hg by done. by eapply Hparents. }
    + by left.
    + right. eapply generated_mono; [|done]. lia.
  - set (above := match folder_parentId f with
                  | Some p => S (rank p)
                  | None => 0
                  end).
    exists (λ k, if decide (k = folder_id f) then above else rank k).
    split.
    { intros k. case_decide; [|specialize (Hbound k); lia].
      unfold above. destruct (folder_parentId f) as [p|]; [|lia].
      specialize (Hbound p). lia. }
    intros k g p Hg Hp Hex. rewrite Hins in Hg, Hex.
    destruct (decide (folder_id f = k)) as [<-|Hne].
    + rewrite lookup_insert_eq in Hg. injection Hg as <-.
      rewrite (decide_True (P := folder_id f = folder_id f)) by done.
      rewrite decide_False by (apply Hnew; by apply Hpar).
      unfold above. rewrite Hp. lia.
    + rewrite lookup_insert_ne in Hg by done.
      assert (p ≠ folder_id f) as Hp' by (apply Hnew; by eapply Hparents).
      rewrite lookup_insert_ne in Hex by done.
      rewrite !decide_False by done. by eapply Hrank.
Qed.

Lemma requireParentFolder_Ok parentId w w1 :
  requireParentFolder parentId w = (Ok tt, w1) →
  ∀ p, parentId = Some p → p = "" ∨ is_Some (folders (store w) !! p).
Proof.
  intros Hrun p ->. unfold requireParentFolder, truthy in Hrun.
  case_bool_decide as Hp; [|left; by destruct (decide (p = ""))].
  right. revert Hrun.
  unfold FolderRepo_getRequired, FolderRepo_get, wrapDatabaseError,
    tryCatch, bind. simpl.
  by destruct (folders (store w) !! p).
Qed.

Lemma FolderRepo_insert_inv f w r w' :
  FolderRepo_insert f w = (r, w') →
  idsUsed w' = idsUsed w
  ∧ (folders (store w') = folders (store w)
     ∨ folders (store w') = <[folder_id f := f]> (folders (store w))).
Proof.
  unfold FolderRepo_insert, wrapDatabaseError, tryCatch, table_add, bind.
  simpl. destruct (folders (store w) !! folder_id f);
    intros [= _ <-]; simpl; auto.
Qed.

End Acyclicity.

(** From a run [H : m w = (r, w')] of a computation that only evolves the
    world, [evolves w w']. *)
Ltac by_evolution H :=
  match type of H with
  | ?m ?w = (?r, ?w') =>
      let Hp := fresh "Hp" in
      assert (preserves evolves m) as Hp by preserves_tac;
      exact (Hp _ _ _ H)
  end.

Section Reachability.

Variable O : Oracle.
Hypothesis Hfresh : freshIds O.

Lemma acyclicInv_run {A} (m : M A) w r w' :
  preserves evolves m → acyclicInv O w → m w = (r, w') → acyclicInv O w'.
Proof.
  intros Hm Hinv Hrun. eapply acyclicInv_evolves; [done|]. by eapply Hm.
Qed.

Lemma FolderService_create_inv name room parent action w r w' :
  acyclicInv O w →
  FolderService_create O name room parent action w = (r, w') →
  acyclicInv O w'.
Proof.
  intros Hinv Hrun. unfold FolderService_create in Hrun.
  apply bind_inv in Hrun as [(? & w1 & H1 & Hrun)|(? & H1 & _)];
    [|eapply acyclicInv_evolves; [done|by_evolution H1]].
  assert (evolves w w1) as E1 by by_evolution H1.
  apply bind_inv in Hrun as [(? & w2 & H2 & Hrun)|(? & H2 & _)];
    [|eapply acyclicInv_evolves; [done|etrans; [done|by_evolution H2]]].
  assert (evolves w w2) as E2 by (etrans; [done|by_evolution H2]).
  apply bind_inv in Hrun as [([] & w3 & H3 & Hrun)|(? & H3 & _)];
    [|eapply acyclicInv_evolves; [done|etrans; [done|by_evolution H3]]].
  assert (evolves w2 w3) as E3 by by_evolution H3.
  apply bind_inv in Hrun as [(? & w4 & H4 & Hrun)|(? & H4 & _)];
    [|eapply acyclicInv_evolves;
      [done|etrans; [done|etrans; [done|by_evolution H4]]]].
  assert (evolves w3 w4) as E4 by by_evolution H4.
  apply bind_inv in Hrun as [(finalName & w5 & H5 & Hrun)|(? & H5 & _)];
    [|eapply acyclicInv_evolves;
      [done|etrans; [done|etrans; [done|etrans; [done|by_evolution H5]]]]].
  assert (evolves w4 w5) as E5 by by_evolution H5.
  apply bind_inv in Hrun as [(now & w6 & H6 & Hrun)|(? & H6 & _)];
    [|discriminate H6].
  assert (evolves w5 w6) as E6 by by_evolution H6.
  apply bind_inv in Hrun as [(id & w7 & H7 & Hrun)|(? & H7 & _)];
    [|discriminate H7].
  assert (evolves w2 w6) as E26 by (do 3 (etrans; [done|]); done).
  assert (acyclicInv O w2) as Hinv2 by by eapply acyclicInv_evolves.
  assert (acyclicInv O w6) as Hinv6 by by eapply acyclicInv_evolves.
  injection H7 as <- <-.
  set (folder := mkFolder (genId O (idsUsed w6)) room parent finalName
                   now now) in *.
  set (w7 := mkWorld (store w6) (S (idsUsed w6)) (instantsUsed w6)
               (accessLog w6)) in *.
  assert (∃ r8 w8, FolderRepo_insert folder w7 = (r8, w8) ∧ evolves w8 w')
    as (r8 & w8 & H8 & E8).
  { apply bind_inv in Hrun as [(? & w8 & H8 & Hrun)|(? & H8 & _)].
    - eexists _, w8. split; [done|]. by_evolution Hrun.
    - eexists _, w'. split; [done|]. reflexivity. }
  eapply acyclicInv_evolves; [|exact E8].
  apply FolderRepo_insert_inv in H8 as [Hids [Hsame|Hins]].
  - eapply acyclicInv_evolves; [exact Hinv6|].
    apply evolves_same_folders; [rewrite Hids; simpl; lia|by rewrite Hsame].
  - eapply (acyclicInv_insert O Hfresh w6 w8 folder); try done.
    + intros p Hp. simpl in Hp.
      destruct (requireParentFolder_Ok _ _ _ H3 p Hp) as [->|[g Hg]];
        [by left|right].
      destruct Hinv2 as (Hkeys & _). destruct (Hkeys p g Hg) as [_ Hgen].
      eapply generated_mono; [|done]. apply E26.
    + rewrite Hids. simpl. lia.
Qed.

Lemma perform_inv op w :
  acyclicInv O w → acyclicInv O (perform O op w).2.
Proof.
  intros Hinv. destruct (perform O op w) as [r w'] eqn:Hrun. simpl.
  destruct op; simpl in Hrun;
    try (eapply acyclicInv_evolves; [done|by_evolution Hrun]).
  apply bind_inv in Hrun as [(? & w1 & H1 & [= _ <-])|(? & H1 & _)];
    by eapply FolderService_create_inv.
Qed.

Lemma reachable_inv w : reachable O w → acyclicInv O w.
Proof.
  induction 1 as [|w op _ IH]; [apply acyclicInv_empty|by apply perform_inv].
Qed.

(** Along the links of existing folders the rank goes down. *)
Lemma nthAncestor_rank (rank : ID → nat) s :
  (∀ k f p, folders s !! k = Some f → folder_parentId f = Some p →
            is_Some (folders s !! p) → rank p < rank k) →
  ∀ n k a, nthAncestor s (S n) k = Some a →
           is_Some (folders s !! a) → rank a < rank k.
Proof.
  intros Hrank. induction n as [|n IH]; intros k a Hanc Ha.
  - simpl in Hanc.
    destruct (folders s !! k) as [f|] eqn:Hf; [|done].
    destruct (folder_parentId f) as [p|] eqn:Hp; [|done].
    injection Hanc as ->. by eapply Hrank.
  - change (nthAncestor s (S (S n)) k) with
      (match folders s !! k with
       | Some f => match folder_parentId f with
                   | Some p => nthAncestor s (S n) p
                   | None => None
                   end
       | None => None
       end) in Hanc.
    destruct (folders s !! k) as [f|] eqn:Hf; [|done].
    destruct (folder_parentId f) as [p|] eqn:Hp; [|done].
    assert (is_Some (folders s !! p)) as Hpex.
    { simpl in Hanc. by destruct (folders s !! p). }
    specialize (IH p a Hanc Ha).
    specialize (Hrank k f p Hf Hp Hpex). lia.
Qed.

End Reachability.

(** C8. In every world that a caller can reach from the empty store with
    the operations of the three services, given that the id generator keeps
    its promise (no empty id, no id twice), no folder is its own ancestor:
    following [parentId] upwards from a folder, for any positive number of
    links, does not come back to that folder. *)
Theorem reachable_folders_acyclic (O : Oracle) (w : World) :
  freshIds O →
  reachable O w →
  ∀ k n, is_Some (folders (store w) !! k) →
         nthAncestor (store w) (S n) k ≠ Some k.
Proof.
  intros Hfresh Hreach k n Hk Hanc.
  destruct (reachable_inv O Hfresh w Hreach) as (_ & _ & rank & _ & Hrank).
  pose proof (nthAncestor_rank rank (store w) Hrank n k k Hanc Hk). lia.
Qed.

Section StoreFacts.

Lemma elem_of_records {A} (t : gmap string A) x :
  x ∈ records t ↔ ∃ k, t !! k = Some x.
Proof.
  unfold records. rewrite list_elem_of_fmap. split.
  - intros ([k y] & -> & Hin). exists k. by apply elem_of_map_to_list.
  - intros [k Hk]. exists (k, x). split; [done|].
    by apply elem_of_map_to_list.
Qed.

Lemma length_records {A} (t : gmap string A) : length (records t) = size t.
Proof. unfold records. by rewrite length_fmap, length_map_to_list. Qed.

Lemma filter_none {A} (p : A → bool) l :
  (∀ x, x ∈ l → p x = false) → List.filter p l = [].
Proof.
  induction l as [|x l IH]; intros Hl; [done|].
  simpl. rewrite (Hl x) by left. apply IH. intros y Hy. apply Hl. by right.
Qed.

Lemma lawful_nil O A : lawfulOrders O → indexOrder O A [] = [].
Proof. intros [Hidx _]. apply Permutation_nil_r. by rewrite Hidx. Qed.

Lemma elem_of_rev {A} (l : list A) x : x ∈ rev l ↔ x ∈ l.
Proof. by rewrite !list_elem_of_In, <- in_rev. Qed.


Lemma store_eta s :
  mkStore (datarooms s) (folders s) (files s) (blobs s) = s.
Proof. by destruct s. Qed.

End StoreFacts.

Section Runs.

Variable O : Oracle.

Lemma FolderRepo_getRequired_run id w f :
  folders (store w) !! id = Some f →
  FolderRepo_getRequired id w = (Ok f, logged (Read TFolders) w).
Proof.
  intros Hf. unfold FolderRepo_getRequired, FolderRepo_get,
    wrapDatabaseError, tryCatch, bind. simpl. by rewrite Hf.
Qed.

Lemma FileRepo_getRequired_run id w f :
  files (store w) !! id = Some f →
  FileRepo_getRequired id w = (Ok f, logged (Read TFiles) w).
Proof.
  intros Hf. unfold FileRepo_getRequired, FileRepo_get,
    wrapDatabaseError, tryCatch, bind. simpl. by rewrite Hf.
Qed.

Lemma FolderRepo_listByDataroom_run room w :
  FolderRepo_listByDataroom O room w
  = (Ok (foldersOfRoom O (store w) room), logged (Read TFolders) w).
Proof. reflexivity. Qed.

Lemma FileRepo_listByDataroom_run room w :
  FileRepo_listByDataroom O room w
  = (Ok (filesOfRoom O (store w) room), logged (Read TFiles) w).
Proof. reflexivity. Qed.

Lemma BlobRepo_delete_run key w :
  BlobRepo_delete key w
  = (Ok tt, withStore (set_blobs (delete key (blobs (store w))) (store w))
              (logged (Write TBlobs) w)).
Proof. reflexivity. Qed.

Lemma FileRepo_delete_run id w :
  FileRepo_delete id w
  = (Ok tt, withStore (set_files (delete id (files (store w))) (store w))
              (logged (Write TFiles) w)).
Proof. reflexivity. Qed.

Lemma FolderRepo_delete_run id w :
  FolderRepo_delete id w
  = (Ok tt, withStore (set_folders (delete id (folders (store w)))
                         (store w))
              (logged (Write TFolders) w)).
Proof. reflexivity. Qed.

(** [touch] returns, and changes at most the table of rooms. *)
Lemma DataroomRepo_touch_run id w :
  ∃ n w', DataroomRepo_touch O id w = (Ok n, w')
          ∧ folders (store w') = folders (store w)
          ∧ files (store w') = files (store w)
          ∧ blobs (store w') = blobs (store w).
Proof.
  unfold DataroomRepo_touch, wrapDatabaseError, tryCatch, table_update,
    bind. simpl.
  destruct (datarooms (store w) !! id) as [d|]; [case_decide|];
    by eexists _, _.
Qed.

Lemma BlobRepo_exists_run key w :
  BlobRepo_exists key w
  = (Ok (bool_decide (blobs (store w) !! key ≠ None)),
     logged (Read TBlobs) w).
Proof. reflexivity. Qed.

Lemma foldM_returns {A B} (body : B → A → M B) xs :
  (∀ acc x w, ∃ acc' w', body acc x w = (Ok acc', w')) →
  ∀ acc w, ∃ acc' w', foldM body acc xs w = (Ok acc', w').
Proof.
  intros Hbody. induction xs as [|x xs IH]; intros acc w.
  - by eexists _, _.
  - simpl. destruct (Hbody acc x w) as (acc1 & w1 & H1).
    rewrite (bind_run _ _ _ _ _ H1). apply IH.
Qed.

Lemma BlobRepo_deleteMany_returns keys w :
  ∃ n w', BlobRepo_deleteMany keys w = (Ok n, w').
Proof.
  unfold BlobRepo_deleteMany, wrapBlobError, tryCatch.
  match goal with |- context [foldM ?body 0 keys w] =>
    destruct (foldM_returns body keys) with (acc := 0) (w := w)
      as (n & w' & ->) end.
  - intros acc key w0.
    rewrite (bind_run _ _ _ _ _ (BlobRepo_exists_run key w0)).
    case_bool_decide; by eexists _, _.
  - by eexists _, _.
Qed.

Lemma DataroomService_delete_returns id w :
  ∃ counts w', DataroomService_delete O id w = (Ok counts, w').
Proof.
  unfold DataroomService_delete.
  rewrite (bind_run _ _ _ _ _ (FileRepo_listByDataroom_run id w)).
  destruct (filesOfRoom O (store w) id) as [|f fs].
  - by eexists _, _.
  - unfold bind at 1.
    destruct (BlobRepo_deleteMany_returns (file_blobKey <$> f :: fs)
                (logged (Read TFiles) w)) as (n & w1 & ->).
    by eexists _, _.
Qed.

End Runs.

(** C5. [upload] throws [FileValidationError] whenever the type of the file
    is not [application/pdf] or its size is above 50 * 1024 * 1024 bytes,
    and it does so in the world it was called in: no table was read or
    written (the access log is as it was), no id or instant was taken, no
    record was created, deleted or changed. *)
Theorem FileService_upload_validates_first
    (O : Oracle) (file : JsFile) (dataroomId : ID) (parentId : option ID)
    (action : NameCollisionAction) (w : World) :
  jsfile_type file ≠ "application/pdf"
  ∨ (50 * 1024 * 1024 < jsfile_size file)%N →
  FileService_upload O file dataroomId parentId action w
  = (Err FileValidationError, w).
Proof.
  intros [Htype|Hsize]; unfold FileService_upload.
  - by rewrite bool_decide_eq_true_2.
  - case_bool_decide; [done|]. by rewrite bool_decide_eq_true_2.
Qed.

(** C9. [DataroomService.delete] never throws: for every id it returns the
    three counts. Called with an id under which there is no room and to
    which no folder and no file belongs, it returns 0 folders, 0 files and
    0 blobs and leaves the four tables as they were. *)
Theorem DataroomService_delete_missing_room
    (O : Oracle) (id : ID) (w : World) :
  lawfulOrders O →
  (∃ counts w', DataroomService_delete O id w = (Ok counts, w'))
  ∧ (datarooms (store w) !! id = None →
     (∀ k f, folders (store w) !! k = Some f → folder_dataroomId f ≠ id) →
     (∀ k f, files (store w) !! k = Some f → file_dataroomId f ≠ id) →
     ∃ w', DataroomService_delete O id w = (Ok (mkRoomDeletion 0 0 0), w')
           ∧ store w' = store w).
Proof.
  intros Hlaw. split; [apply DataroomService_delete_returns|].
  intros Hroom Hfolders Hfiles.
  assert (List.filter (λ f, bool_decide (file_dataroomId f = id))
            (records (files (store w))) = []) as Hnofiles.
  { apply filter_none. intros f [k Hk]%elem_of_records.
    apply bool_decide_eq_false_2. by eapply Hfiles. }
  assert (List.filter (λ f, bool_decide (folder_dataroomId f = id))
            (records (folders (store w))) = []) as Hnofolders.
  { apply filter_none. intros f [k Hk]%elem_of_records.
    apply bool_decide_eq_false_2. by eapply Hfolders. }
  unfold DataroomService_delete.
  rewrite (bind_run _ _ _ _ _ (FileRepo_listByDataroom_run O id w)).
  unfold filesOfRoom. rewrite Hnofiles, (lawful_nil O _ Hlaw).
  unfold bind. simpl. rewrite Hnofiles, Hnofolders. simpl.
  eexists. split; [reflexivity|]. simpl.
  rewrite (delete_id _ _ Hroom).
  rewrite !map_filter_id.
  - by destruct (store w).
  - intros k f Hf Hb. apply bool_decide_unpack in Hb. by eapply Hfiles.
  - intros k f Hf Hb. apply bool_decide_unpack in Hb. by eapply Hfolders.
Qed.

(** C10. [downloadBlob] and [getBlobUrl] return null, and do not throw,
    when there is no file record under the id; [downloadBlob] also returns
    null when the record is there and no blob is stored under its
    [blobKey]. *)
Theorem FileService_blob_lookups_return_null (O : Oracle) (id : ID) (w : World) :
  (files (store w) !! id = None →
   (FileService_downloadBlob id w).1 = Ok None
   ∧ (FileService_getBlobUrl O id w).1 = Ok None)
  ∧ (∀ f, files (store w) !! id = Some f →
          blobs (store w) !! file_blobKey f = None →
          (FileService_downloadBlob id w).1 = Ok None).
Proof.
  split.
  - intros Hnone. unfold FileService_downloadBlob, FileService_getBlobUrl.
    unfold bind. simpl. by rewrite Hnone.
  - intros f Hf Hblob. unfold FileService_downloadBlob.
    unfold bind. simpl. rewrite Hf. simpl. by rewrite Hblob.
Qed.

Section RoundTrip.

Variable O : Oracle.

Lemma FileRepo_insert_Ok f w x w1 :
  FileRepo_insert f w = (Ok x, w1) →
  files (store w1) = <[file_id f := f]> (files (store w))
  ∧ blobs (store w1) = blobs (store w).
Proof.
  unfold FileRepo_insert, wrapDatabaseError, tryCatch, table_add, bind.
  simpl. destruct (files (store w) !! file_id f); [done|].
  by intros [= _ <-].
Qed.

Lemma FileService_downloadBlob_run id w f b :
  files (store w) !! id = Some f →
  blobs (store w) !! file_blobKey f = Some b →
  FileService_downloadBlob id w
  = (Ok (Some (mkDownload (blob_data b) (file_name f))),
     logged (Read TBlobs) (logged (Read TFiles) w)).
Proof.
  intros Hf Hb. unfold FileService_downloadBlob, bind. simpl.
  rewrite Hf. simpl. by rewrite Hb.
Qed.

End RoundTrip.

(** C6. Round trip: when [upload] returns a file record, [downloadBlob] on
    the id of that record, run in the world that the upload left, returns
    the uploaded file, bytes included, and as filename the name of the
    record, which is the name after the collision was resolved; the record
    is the one stored under that id. *)
Theorem FileService_upload_download_roundtrip
    (O : Oracle) (file : JsFile) (dataroomId : ID) (parentId : option ID)
    (action : NameCollisionAction) (w w' : World) (created : FileObject) :
  FileService_upload O file dataroomId parentId action w = (Ok created, w') →
  files (store w') !! file_id created = Some created
  ∧ ∃ w'', FileService_downloadBlob (file_id created) w'
           = (Ok (Some (mkDownload file (file_name created))), w'').
Proof.
  unfold FileService_upload.
  case_bool_decide as Htype; [done|]. case_bool_decide as Hsize; [done|].
  intros Hup.
  apply bind_Ok_inv in Hup as (? & w1 & _ & Hup).
  apply bind_Ok_inv in Hup as (? & w2 & _ & Hup).
  apply bind_Ok_inv in Hup as (? & w3 & _ & Hup).
  apply bind_Ok_inv in Hup as (nameExists & w4 & _ & Hup).
  apply bind_Ok_inv in Hup as (finalName & w5 & _ & Hup).
  clear w w1 w2 w3 w4. cbn in Hup.
  apply bind_Ok_inv in Hup as (? & w6 & Hins & Hup).
  apply FileRepo_insert_Ok in Hins as [Hfiles Hblobs]. simpl in Hfiles, Hblobs.
  apply bind_Ok_inv in Hup as (? & w7 & Htouch & Hup).
  injection Hup as <- <-.
  destruct (DataroomRepo_touch_run O dataroomId w6)
    as (n & w7' & Htouch' & _ & Hfiles7 & Hblobs7).
  rewrite Htouch in Htouch'. injection Htouch' as _ <-.
  assert (files (store w7) !! genId O (S (idsUsed w5)) = Some
            (mkFileObject (genId O (S (idsUsed w5))) dataroomId parentId
               finalName (jsfile_type file) (jsfile_size file)
               (genId O (idsUsed w5)) (nowAt O (instantsUsed w5))
               (nowAt O (instantsUsed w5)))) as Hstored.
  { rewrite Hfiles7, Hfiles. apply lookup_insert_eq. }
  split; [done|]. eexists.
  apply (FileService_downloadBlob_run _ _ _
           (mkDBBlob (genId O (idsUsed w5)) file) Hstored).
  rewrite Hblobs7, Hblobs. simpl. apply lookup_insert_eq.
Qed.

(** * The tree of folders *)

Section Tree.

Variable fs : list Folder.
Hypothesis Hnodup : NoDup (folder_id <$> fs).
Variable spread : nat → nat.
Local Abbreviation getDescendantFolderIds := (getDescendantFolderIds spread).
Local Abbreviation collect := (collect spread).

Lemma folder_unique f g :
  f ∈ fs → g ∈ fs → folder_id f = folder_id g → f = g.
Proof.
  clear -Hnodup. induction fs as [|h l IH]; intros Hf Hg Heq.
  - by apply elem_of_nil in Hf.
  - rewrite fmap_cons in Hnodup. apply NoDup_cons in Hnodup as [Hh Hl].
    apply elem_of_cons in Hf as [->|Hf], Hg as [->|Hg]; [done| | |by apply IH].
    + exfalso. apply Hh. rewrite Heq. by apply list_elem_of_fmap_2.
    + exfalso. apply Hh. rewrite <- Heq. by apply list_elem_of_fmap_2.
Qed.

Lemma descends_trans z y x :
  descends fs z y → descends fs y x → descends fs z x.
Proof.
  intros Hzy Hyx. induction Hzy as [f y Hf Hp|f y' y Hf Hp _ IH].
  - by eapply descends_below.
  - eapply descends_below; [done..|]. by apply IH.
Qed.

(** A path from [y] up to [x] ends in a child of [x]. *)
Lemma descends_top y x :
  descends fs y x →
  ∃ c, c ∈ fs ∧ folder_parentId c = Some x
       ∧ (folder_id c = y ∨ descends fs y (folder_id c)).
Proof.
  induction 1 as [f x Hf Hp|f y' x Hf Hp _ (c & Hc & Hcp & Hcy)].
  - exists f. auto.
  - exists c. split; [done|]. split; [done|]. right.
    destruct Hcy as [->|Hcy].
    + by apply descends_child.
    + by eapply descends_below.
Qed.

(** A path from [y] up to [x] starts with the parent link of [y]. *)
Lemma descends_bottom f x :
  f ∈ fs → descends fs (folder_id f) x →
  ∃ p, folder_parentId f = Some p ∧ (p = x ∨ descends fs p x).
Proof.
  intros Hf Hd. inversion Hd as [g x' Hg Hp Hid|g y x' Hg Hp Hyx Hid];
    subst; apply (folder_unique g f Hg Hf) in Hid as ->; eauto.
Qed.

(** The folders above a folder form a chain. *)
Lemma descends_linear y a b :
  descends fs y a → descends fs y b →
  a = b ∨ descends fs a b ∨ descends fs b a.
Proof.
  intros Ha. revert b.
  induction Ha as [f a Hf Hp|f y' a Hf Hp Hya IH]; intros b Hb.
  - destruct (descends_bottom f b Hf Hb) as (p & Hp' & Hpb).
    rewrite Hp in Hp'. injection Hp' as <-. tauto.
  - destruct (descends_bottom f b Hf Hb) as (p & Hp' & Hpb).
    rewrite Hp in Hp'. injection Hp' as <-.
    destruct Hpb as [->|Hpb]; [tauto|]. by apply IH.
Qed.

(** Two children of [x] of which one lies below the other close a cycle
    through [x]. *)
Lemma siblings_cycle c c' x :
  c ∈ fs → c' ∈ fs →
  folder_parentId c = Some x → folder_parentId c' = Some x →
  descends fs (folder_id c) (folder_id c') → descends fs x x.
Proof.
  intros Hc Hc' Hp Hp' Hd.
  destruct (descends_bottom c _ Hc Hd) as (p & Hp2 & Hpx).
  rewrite Hp in Hp2. injection Hp2 as <-.
  assert (descends fs (folder_id c') x) as Hc'x by by apply descends_child.
  destruct Hpx as [->|Hpx]; [done|]. by eapply descends_trans.
Qed.

Lemma getDescendantFolderIds_S depth x :
  getDescendantFolderIds (S depth) x fs
  = collect fs depth (List.filter (isChildFolderOf x) fs).
Proof. reflexivity. Qed.

Lemma collect_cons depth c cs D :
  collect fs depth (c :: cs) = Some D →
  ∃ Dc Drest, getDescendantFolderIds depth (folder_id c) fs = Some Dc
              ∧ collect fs depth cs = Some Drest
              ∧ D = folder_id c :: Dc ++ Drest.
Proof.
  unfold collect. simpl.
  destruct (getDescendantFolderIds depth (folder_id c) fs) as [Dc|];
    [|done].
  destruct (foldr _ _ cs) as [Drest|]; [|done].
  destruct (length Dc <=? spread depth); [|done].
  intros [= <-]. by exists Dc, Drest.
Qed.

Lemma collect_None depth c cs :
  c ∈ cs → getDescendantFolderIds depth (folder_id c) fs = None →
  collect fs depth cs = None.
Proof.
  intros Hc Hnone. induction cs as [|c' cs IH].
  - by apply elem_of_nil in Hc.
  - unfold collect. simpl. apply elem_of_cons in Hc as [<-|Hc].
    + by rewrite Hnone.
    + fold (collect fs depth cs). rewrite (IH Hc).
      by destruct (getDescendantFolderIds depth (folder_id c') fs).
Qed.

Lemma collect_members depth cs D y :
  collect fs depth cs = Some D →
  y ∈ D ↔ ∃ c Dc, c ∈ cs
                  ∧ getDescendantFolderIds depth (folder_id c) fs = Some Dc
                  ∧ (y = folder_id c ∨ y ∈ Dc).
Proof.
  revert D. induction cs as [|c cs IH]; intros D HD.
  - injection HD as <-. split.
    + by intros ?%elem_of_nil.
    + by intros (c & _ & ?%elem_of_nil & _).
  - apply collect_cons in HD as (Dc & Drest & HDc & HDrest & ->).
    rewrite elem_of_cons, elem_of_app, (IH Drest HDrest). split.
    + intros [->|[Hy|(c' & Dc' & Hc' & HDc' & Hy)]].
      * exists c, Dc. split; [left|]. auto.
      * exists c, Dc. split; [left|]. auto.
      * exists c', Dc'. split; [by right|]. auto.
    + intros (c' & Dc' & Hc' & HDc' & Hy).
      apply elem_of_cons in Hc' as [->|Hc'].
      * rewrite HDc in HDc'. injection HDc' as <-. tauto.
      * right. right. by exists c', Dc'.
Qed.

Lemma elem_of_children x c :
  c ∈ List.filter (isChildFolderOf x) fs
  ↔ c ∈ fs ∧ folder_parentId c = Some x.
Proof.
  rewrite list_elem_of_In, filter_In, <- list_elem_of_In.
  unfold isChildFolderOf. by rewrite bool_decide_eq_true.
Qed.

(** Everything that the traversal lists lies below its start ... *)
Lemma getDescendantFolderIds_sound depth x D y :
  getDescendantFolderIds depth x fs = Some D → y ∈ D → descends fs y x.
Proof.
  revert x D y. induction depth as [|depth IH]; intros x D y HD Hy; [done|].
  rewrite getDescendantFolderIds_S in HD.
  apply (collect_members _ _ _ y HD) in Hy
    as (c & Dc & [Hc Hp]%elem_of_children & HDc & Hy).
  destruct Hy as [->|Hy].
  - by apply descends_child.
  - eapply descends_trans; [by eapply IH|]. by apply descends_child.
Qed.


(** On a cycle the traversal overflows the stack, however deep it is. *)
Lemma getDescendantFolderIds_cycle depth x y :
  y = x ∨ descends fs y x → descends fs y y →
  getDescendantFolderIds depth x fs = None.
Proof.
  revert x y. induction depth as [|depth IH]; intros x y Hyx Hyy; [done|].
  rewrite getDescendantFolderIds_S.
  assert (descends fs y x) as Hd by (destruct Hyx as [->|]; done).
  destruct (descends_top y x Hd) as (c & Hc & Hp & Hcy).
  apply (collect_None _ c); [by apply elem_of_children|].
  apply (IH _ y); [|done]. destruct Hcy; auto.
Qed.

Lemma getDescendantFolderIds_acyclic depth x D :
  getDescendantFolderIds depth x fs = Some D → ¬ descends fs x x.
Proof.
  intros HD Hcyc.
  by rewrite (getDescendantFolderIds_cycle depth x x) in HD by auto.
Qed.

Lemma getDescendantFolderIds_not_self depth x D :
  getDescendantFolderIds depth x fs = Some D → x ∉ D.
Proof.
  intros HD Hx. eapply getDescendantFolderIds_acyclic; [done|].
  by eapply getDescendantFolderIds_sound.
Qed.

End Tree.

Section TreeNoDup.

Variable fs : list Folder.
Hypothesis Hnodup : NoDup (folder_id <$> fs).
Variable spread : nat → nat.
Local Abbreviation getDescendantFolderIds := (getDescendantFolderIds spread).
Local Abbreviation collect := (collect spread).

Lemma NoDup_fmap_filter {A B} (g : A → B) (p : A → bool) (l : list A) :
  NoDup (g <$> l) → NoDup (g <$> List.filter p l).
Proof.
  induction l as [|a l IH]; [done|].
  rewrite fmap_cons, NoDup_cons. intros [Ha Hl]. simpl.
  destruct (p a); [|by apply IH].
  rewrite fmap_cons, NoDup_cons. split; [|by apply IH].
  intros (b & Hb & Hin)%list_elem_of_fmap. apply Ha.
  apply list_elem_of_In, filter_In in Hin as [Hin _].
  rewrite Hb. apply list_elem_of_fmap_2. by apply list_elem_of_In.
Qed.

Lemma collect_NoDup depth x cs D :
  (∀ y Dy, getDescendantFolderIds depth y fs = Some Dy → NoDup Dy) →
  ¬ descends fs x x →
  NoDup (folder_id <$> cs) →
  (∀ c, c ∈ cs → c ∈ fs ∧ folder_parentId c = Some x) →
  collect fs depth cs = Some D → NoDup D.
Proof.
  intros IHdepth Hacyc. revert D.
  induction cs as [|c cs IH]; intros D Hids Hcs HD.
  - injection HD as <-. constructor.
  - apply collect_cons in HD as (Dc & Drest & HDc & HDrest & ->).
    rewrite fmap_cons in Hids. apply NoDup_cons in Hids as [Hc Hids].
    destruct (Hcs c) as [Hcfs Hcp]; [by left|].
    assert (∀ c', c' ∈ cs → c' ∈ fs ∧ folder_parentId c' = Some x) as Hcs'.
    { intros c' Hc'. apply Hcs. by right. }
    assert (∀ y, y ∈ Drest →
              ∃ c', c' ∈ cs ∧ (y = folder_id c'
                               ∨ descends fs y (folder_id c'))) as Hrest.
    { intros y Hy.
      apply (collect_members fs spread _ _ _ y HDrest) in Hy
        as (c' & Dc' & Hc' & HDc' & Hy).
      exists c'. split; [done|]. destruct Hy as [->|Hy]; [by left|].
      right. by eapply getDescendantFolderIds_sound. }
    assert (∀ c', c' ∈ cs → folder_id c ≠ folder_id c') as Hne.
    { intros c' Hc' Heq. apply Hc. rewrite Heq.
      by apply list_elem_of_fmap_2. }
    assert (∀ c', c' ∈ cs →
              ¬ descends fs (folder_id c) (folder_id c')
              ∧ ¬ descends fs (folder_id c') (folder_id c)) as Hsib.
    { intros c' Hc'. destruct (Hcs' c' Hc') as [Hc'fs Hc'p].
      split; intros Hd; apply Hacyc.
      - by eapply (siblings_cycle fs Hnodup c c').
      - by eapply (siblings_cycle fs Hnodup c' c). }
    apply NoDup_cons. split; [|apply NoDup_app; split; [|split]].
    + rewrite elem_of_app. intros [Hin|Hin].
      * by eapply getDescendantFolderIds_not_self.
      * destruct (Hrest _ Hin) as (c' & Hc' & [Heq|Hd]).
        -- by eapply Hne.
        -- destruct (Hsib c' Hc'); contradiction.
    + by eapply IHdepth.
    + intros y Hy Hin.
      assert (descends fs y (folder_id c)) as Hyc
        by by eapply getDescendantFolderIds_sound.
      destruct (Hrest _ Hin) as (c' & Hc' & [->|Hd]).
      * destruct (Hsib c' Hc'); contradiction.
      * destruct (descends_linear fs Hnodup y _ _ Hyc Hd)
          as [Heq|[Hd'|Hd']].
        -- by eapply Hne.
        -- destruct (Hsib c' Hc'); contradiction.
        -- destruct (Hsib c' Hc'); contradiction.
    + by apply IH.
Qed.

(** The traversal lists no folder twice. *)
Lemma getDescendantFolderIds_NoDup depth x D :
  getDescendantFolderIds depth x fs = Some D → NoDup D.
Proof.
  revert x D. induction depth as [|depth IH]; intros x D HD; [done|].
  pose proof (getDescendantFolderIds_acyclic fs spread _ _ _ HD) as Hacyc.
  rewrite getDescendantFolderIds_S in HD.
  apply (collect_NoDup depth x (List.filter (isChildFolderOf x) fs));
    [exact IH | exact Hacyc | by apply NoDup_fmap_filter | | exact HD].
  intros c Hc. by apply elem_of_children.
Qed.

End TreeNoDup.

Section TreeTotal.

Variable fs : list Folder.
Variable rank : ID → nat.
Variable spread : nat → nat.
Local Abbreviation getDescendantFolderIds := (getDescendantFolderIds spread).
Local Abbreviation collect := (collect spread).
Hypothesis Hnodup : NoDup (folder_id <$> fs).
Hypothesis Hrank :
  ∀ f g, f ∈ fs → g ∈ fs → folder_parentId f = Some (folder_id g) →
         rank (folder_id g) < rank (folder_id f).
Hypothesis Hspread : ∀ d, length fs ≤ spread d.

(** The traversal lists at most as many ids as there are folders. *)
Lemma getDescendantFolderIds_length depth x D :
  getDescendantFolderIds depth x fs = Some D → length D ≤ length fs.
Proof.
  intros HD. rewrite <- (length_fmap folder_id fs).
  apply submseteq_length, NoDup_submseteq.
  - by eapply getDescendantFolderIds_NoDup.
  - intros y Hy. apply (getDescendantFolderIds_sound _ _ _ _ _ _ HD) in Hy.
    inversion Hy; by apply list_elem_of_fmap_2.
Qed.

Lemma collect_Some depth cs :
  (∀ c, c ∈ cs → is_Some (getDescendantFolderIds depth (folder_id c) fs)) →
  is_Some (collect fs depth cs).
Proof.
  induction cs as [|c cs IH]; intros Hall; [by eexists|].
  destruct (Hall c) as [Dc HDc]; [by left|].
  destruct IH as [Drest HDrest]; [intros c' Hc'; apply Hall; by right|].
  pose proof (getDescendantFolderIds_length _ _ _ HDc) as Hlen.
  unfold collect in *. simpl. rewrite HDc, HDrest.
  rewrite (proj2 (Nat.leb_le _ _)); [by eexists|].
  specialize (Hspread depth). lia.
Qed.

Lemma getDescendantFolderIds_returns depth x :
  x ∈ fs →
  (∀ f, f ∈ fs → rank (folder_id f) < rank (folder_id x) + depth) →
  is_Some (getDescendantFolderIds depth (folder_id x) fs).
Proof.
  revert x. induction depth as [|depth IH]; intros x Hx Hbound.
  - specialize (Hbound x Hx). lia.
  - rewrite getDescendantFolderIds_S. apply collect_Some.
    intros c [Hc Hp]%elem_of_children. apply IH; [done|].
    intros f Hf. specialize (Hbound f Hf).
    specialize (Hrank c x Hc Hx Hp). lia.
Qed.

(** Enough stack gives the result: on a list of folders without a cycle,
    a stack deeper than every rank takes the whole traversal. *)
Lemma getDescendantFolderIds_enough_stack depth x :
  x ∈ fs →
  (∀ f, f ∈ fs → rank (folder_id f) < depth) →
  is_Some (getDescendantFolderIds depth (folder_id x) fs).
Proof.
  intros Hx Hbound. apply getDescendantFolderIds_returns; [done|].
  intros f Hf. specialize (Hbound f Hf). lia.
Qed.

End TreeTotal.

(** * The cascade of [FolderService.delete] *)

Section Cascade.

Variable O : Oracle.

Lemma FileService_delete_run id w f :
  files (store w) !! id = Some f →
  ∃ w', FileService_delete O id w = (Ok tt, w')
        ∧ folders (store w') = folders (store w)
        ∧ files (store w') = delete id (files (store w))
        ∧ blobs (store w') = delete (file_blobKey f) (blobs (store w)).
Proof.
  intros Hf. unfold FileService_delete.
  rewrite (bind_run _ _ _ _ _ (FileRepo_getRequired_run id w f Hf)).
  rewrite (bind_run _ _ _ _ _ (BlobRepo_delete_run _ _)).
  rewrite (bind_run _ _ _ _ _ (FileRepo_delete_run _ _)).
  match goal with |- context [bind (DataroomRepo_touch O ?r) _ ?w0] =>
    destruct (DataroomRepo_touch_run O r w0)
      as (n & w' & Ht & Hfo & Hfi & Hbl) end.
  rewrite (bind_run _ _ _ _ _ Ht). exists w'. split; [done|].
  rewrite Hfo, Hfi, Hbl. simpl. by destruct (store w).
Qed.

Lemma deleteFiles_loop L :
  NoDup (file_id <$> L) →
  ∀ w n,
    (∀ f, f ∈ L → files (store w) !! file_id f = Some f) →
    ∃ w', foldM (deleteOneFile O) n L w = (Ok (n + length L), w')
          ∧ folders (store w') = folders (store w)
          ∧ (∀ k, files (store w') !! k
                  = if bool_decide (k ∈ file_id <$> L) then None
                    else files (store w) !! k)
          ∧ size (files (store w')) + length L = size (files (store w))
          ∧ (∀ k, k ∈ file_blobKey <$> L ∨ blobs (store w) !! k = None →
                  blobs (store w') !! k = None).
Proof.
  induction L as [|f L IH]; intros Hnd w n Hall.
  - exists w. simpl. rewrite !Nat.add_0_r. repeat split; try done.
    intros k [Hk|Hk]; [|done]. by apply elem_of_nil in Hk.
  - rewrite fmap_cons in Hnd. apply NoDup_cons in Hnd as [Hf Hnd].
    destruct (FileService_delete_run (file_id f) w f)
      as (w1 & Hrun & Hfo1 & Hfi1 & Hbl1); [apply Hall; by left|].
    destruct (IH Hnd w1 (S n)) as (w' & Hloop & Hfo & Hfi & Hsz & Hbl).
    { intros g Hg. rewrite Hfi1, lookup_delete_ne; [apply Hall; by right|].
      intros Heq. apply Hf. rewrite Heq. by apply list_elem_of_fmap_2. }
    exists w'. split; [|split; [|split; [|split]]].
    + assert (deleteOneFile O n f w = (Ok (S n), w1)) as Hone.
      { unfold deleteOneFile. by rewrite (bind_run _ _ _ _ _ Hrun). }
      change (foldM (deleteOneFile O) n (f :: L) w)
        with (bind (deleteOneFile O n f)
                (λ acc', foldM (deleteOneFile O) acc' L) w).
      rewrite (bind_run _ _ _ _ _ Hone), Hloop. simpl.
      do 2 f_equal. lia.
    + by rewrite Hfo, Hfo1.
    + intros k. rewrite Hfi, Hfi1, fmap_cons.
      destruct (decide (k = file_id f)) as [->|Hne].
      * rewrite lookup_delete_eq.
        rewrite (bool_decide_eq_true_2 (file_id f ∈ file_id f :: _))
          by left.
        by case_bool_decide.
      * rewrite lookup_delete_ne by done.
        rewrite (bool_decide_ext (k ∈ file_id f :: (file_id <$> L))
                   (k ∈ file_id <$> L)); [done|].
        rewrite elem_of_cons. tauto.
    + rewrite Hfi1 in Hsz. simpl.
      rewrite map_size_delete, (Hall f) in Hsz by left.
      assert (size (files (store w)) ≠ 0); [|lia].
      apply map_size_ne_0_lookup. exists (file_id f).
      rewrite (Hall f); [done|by left].
    + intros k Hk. apply Hbl. rewrite Hbl1.
      destruct (decide (k = file_blobKey f)) as [->|Hne].
      * right. apply lookup_delete_eq.
      * rewrite lookup_delete_ne by done.
        destruct Hk as [Hk|Hk]; [|by right]. left.
        rewrite fmap_cons in Hk. by apply elem_of_cons in Hk as [?|?].
Qed.

End Cascade.

Section RoomLists.

Variable O : Oracle.
Hypothesis Hlaw : lawfulOrders O.

Lemma elem_of_indexOrder {A} (l : list A) x : x ∈ indexOrder O A l ↔ x ∈ l.
Proof. destruct Hlaw as [Hidx _]. by rewrite (Hidx A l). Qed.

Lemma elem_of_foldersOfRoom s room f :
  f ∈ foldersOfRoom O s room
  ↔ (∃ k, folders s !! k = Some f) ∧ folder_dataroomId f = room.
Proof.
  unfold foldersOfRoom.
  rewrite elem_of_indexOrder, list_elem_of_In, filter_In, <- list_elem_of_In.
  by rewrite elem_of_records, bool_decide_eq_true.
Qed.

Lemma elem_of_filesOfRoom s room f :
  f ∈ filesOfRoom O s room
  ↔ (∃ k, files s !! k = Some f) ∧ file_dataroomId f = room.
Proof.
  unfold filesOfRoom.
  rewrite elem_of_indexOrder, list_elem_of_In, filter_In, <- list_elem_of_In.
  by rewrite elem_of_records, bool_decide_eq_true.
Qed.

Lemma NoDup_record_keys {A} (key : A → ID) (t : gmap string A) :
  (∀ k x, t !! k = Some x → key x = k) → NoDup (key <$> records t).
Proof.
  intros Hkeys. unfold records. rewrite <- list_fmap_compose.
  assert ((key ∘ snd) <$> map_to_list t = (map_to_list t).*1) as ->.
  { apply Forall_fmap_ext_1, Forall_forall. intros [k x] Hkx. simpl.
    apply Hkeys. by apply elem_of_map_to_list. }
  apply NoDup_fst_map_to_list.
Qed.

Lemma NoDup_foldersOfRoom s room :
  keysOk s → NoDup (folder_id <$> foldersOfRoom O s room).
Proof.
  intros [Hkeys _]. unfold foldersOfRoom. destruct Hlaw as [Hidx _].
  rewrite (Hidx Folder _). apply NoDup_fmap_filter.
  by apply NoDup_record_keys.
Qed.

Lemma NoDup_filesOfRoom s room :
  keysOk s → NoDup (file_id <$> filesOfRoom O s room).
Proof.
  intros [_ Hkeys]. unfold filesOfRoom. destruct Hlaw as [Hidx _].
  rewrite (Hidx FileObject _). apply NoDup_fmap_filter.
  by apply NoDup_record_keys.
Qed.




End RoomLists.

Section AffectedFiles.

Variable allFiles : list FileObject.
Hypothesis Hnodup : NoDup (file_id <$> allFiles).

Lemma elem_of_filesIn affected f :
  f ∈ filesIn allFiles affected
  ↔ f ∈ allFiles ∧ ∃ p, file_parentId f = Some p ∧ p ∈ affected.
Proof.
  unfold filesIn. rewrite list_elem_of_In, in_flat_map. split.
  - intros (p & Hp & [Hf Hc]%filter_In).
    apply bool_decide_eq_true in Hc.
    apply list_elem_of_In in Hp, Hf. eauto.
  - intros (Hf & p & Hp & Hin). exists p.
    rewrite filter_In, <- !list_elem_of_In. unfold isChildFileOf.
    by rewrite bool_decide_eq_true.
Qed.

Lemma file_unique f g :
  f ∈ allFiles → g ∈ allFiles → file_id f = file_id g → f = g.
Proof.
  clear -Hnodup. induction allFiles as [|h l IH]; intros Hf Hg Heq.
  - by apply elem_of_nil in Hf.
  - rewrite fmap_cons in Hnodup. apply NoDup_cons in Hnodup as [Hh Hl].
    apply elem_of_cons in Hf as [->|Hf], Hg as [->|Hg]; [done| | |by apply IH].
    + exfalso. apply Hh. rewrite Heq. by apply list_elem_of_fmap_2.
    + exfalso. apply Hh. rewrite <- Heq. by apply list_elem_of_fmap_2.
Qed.

Lemma NoDup_filesIn affected :
  NoDup affected → NoDup (file_id <$> filesIn allFiles affected).
Proof.
  induction affected as [|p ps IH]; intros Hnd; [constructor|].
  apply NoDup_cons in Hnd as [Hp Hps].
  change (filesIn allFiles (p :: ps))
    with (List.filter (isChildFileOf p) allFiles ++ filesIn allFiles ps).
  rewrite fmap_app. apply NoDup_app. split; [|split].
  - by apply NoDup_fmap_filter.
  - intros k (f & -> & Hf)%list_elem_of_fmap (g & Heq & Hg)%list_elem_of_fmap.
    apply list_elem_of_In, filter_In in Hf as [Hf Hc].
    apply bool_decide_eq_true in Hc.
    apply elem_of_filesIn in Hg as (Hg & q & Hq & Hin).
    apply list_elem_of_In in Hf.
    apply (file_unique f g Hf Hg) in Heq as ->.
    rewrite Hc in Hq. injection Hq as <-. done.
  - by apply IH.
Qed.

End AffectedFiles.

Section CascadeLoops.

Variable O : Oracle.

Lemma deleteFilesIn_flat allFiles affected n w :
  foldM (deleteFilesIn O allFiles) n affected w
  = foldM (deleteOneFile O) n (filesIn allFiles affected) w.
Proof.
  revert n w. induction affected as [|p ps IH]; intros n w; [done|].
  change (filesIn allFiles (p :: ps))
    with (List.filter (isChildFileOf p) allFiles ++ filesIn allFiles ps).
  rewrite foldM_app.
  change (foldM (deleteFilesIn O allFiles) n (p :: ps) w)
    with (bind (foldM (deleteOneFile O) n
                  (List.filter (isChildFileOf p) allFiles))
            (λ acc', foldM (deleteFilesIn O allFiles) acc' ps) w).
  unfold bind.
  destruct (foldM (deleteOneFile O) n _ w) as [[acc'|e] w1]; [|done].
  apply IH.
Qed.

Lemma deleteFolders_loop L :
  ∀ w n,
    ∃ w', foldM deleteOneFolder n L w = (Ok (n + length L), w')
          ∧ files (store w') = files (store w)
          ∧ blobs (store w') = blobs (store w)
          ∧ (∀ k, folders (store w') !! k
                  = if bool_decide (k ∈ L) then None
                    else folders (store w) !! k)
          ∧ (NoDup L →
             (∀ k, k ∈ L → is_Some (folders (store w) !! k)) →
             size (folders (store w')) + length L
             = size (folders (store w))).
Proof.
  induction L as [|x L IH]; intros w n.
  - exists w. simpl. rewrite !Nat.add_0_r. by repeat split.
  - pose proof (FolderRepo_delete_run x w) as Hrun.
    set (w1 := withStore _ _) in Hrun.
    destruct (IH w1 (S n)) as (w' & Hloop & Hfi & Hbl & Hfo & Hsz).
    exists w'. split; [|split; [|split; [|split]]].
    + assert (deleteOneFolder n x w = (Ok (S n), w1)) as Hone.
      { unfold deleteOneFolder. by rewrite (bind_run _ _ _ _ _ Hrun). }
      change (foldM deleteOneFolder n (x :: L) w)
        with (bind (deleteOneFolder n x)
                (λ acc', foldM deleteOneFolder acc' L) w).
      rewrite (bind_run _ _ _ _ _ Hone), Hloop. simpl.
      do 2 f_equal. lia.
    + rewrite Hfi. unfold w1. simpl. by destruct (store w).
    + rewrite Hbl. unfold w1. simpl. by destruct (store w).
    + intros k. rewrite Hfo. unfold w1. simpl.
      destruct (decide (k = x)) as [->|Hne].
      * rewrite lookup_delete_eq.
        rewrite (bool_decide_eq_true_2 (x ∈ x :: L)) by left.
        by case_bool_decide.
      * rewrite lookup_delete_ne by done.
        rewrite (bool_decide_ext (k ∈ x :: L) (k ∈ L)); [done|].
        rewrite elem_of_cons. tauto.
    + intros [Hx Hnd]%NoDup_cons Hall.
      destruct (Hall x) as [fx Hfx]; [by left|].
      assert (size (folders (store w')) + length L
              = size (folders (store w1))) as Hsz'.
      { apply (Hsz Hnd). intros k Hk. unfold w1. simpl.
        rewrite lookup_delete_ne; [apply Hall; by right|].
        by intros ->. }
      unfold w1 in Hsz'. simpl in Hsz'.
      rewrite map_size_delete, Hfx in Hsz'.
      assert (size (folders (store w)) ≠ 0); [|simpl; lia].
      apply map_size_ne_0_lookup. by exists x.
Qed.

End CascadeLoops.


(** In a world that a caller has reached, the traversal that [delete]
    and [move] start from a folder returns as soon as the stack is deeper
    than the number of ids handed out so far and a call takes as many
    arguments as there are folders: the hypothesis of the cascade on the
    traversal is met there. *)
Lemma reachable_traversal_returns (O : Oracle) (w : World) (id : ID)
    (c : Folder) :
  freshIds O → lawfulOrders O → reachable O w →
  idsUsed w < stackDepth O →
  (∀ d, size (folders (store w)) ≤ spreadLimit O d) →
  folders (store w) !! id = Some c →
  is_Some (getDescendantFolderIds (spreadLimit O) (stackDepth O) id
             (foldersOfRoom O (store w) (folder_dataroomId c))).
Proof.
  intros Hfresh Hlaw Hreach Hdeep Hwide Hc.
  destruct (reachable_inv O Hfresh w Hreach)
    as (Hkeys & _ & rank & Hbound & Hrank).
  destruct (Hkeys id c Hc) as [<- _].
  assert (∀ f, f ∈ foldersOfRoom O (store w) (folder_dataroomId c) →
               folders (store w) !! folder_id f = Some f) as Hstored.
  { intros f [[k Hk] _]%elem_of_foldersOfRoom; [|done].
    by destruct (Hkeys k f Hk) as [-> _]. }
  apply (getDescendantFolderIds_enough_stack _ rank).
  - unfold foldersOfRoom. destruct Hlaw as [Hidx _].
    rewrite (Hidx Folder _). apply NoDup_fmap_filter, NoDup_record_keys.
    intros k f Hf. by destruct (Hkeys k f Hf).
  - intros f g Hf Hg Hp. eapply Hrank; [by apply Hstored|done|].
    rewrite (Hstored g Hg). by eexists.
  - intros d. etrans; [|apply Hwide]. unfold foldersOfRoom.
    destruct Hlaw as [Hidx _]. rewrite (Hidx Folder _).
    rewrite <- length_records. apply List.filter_length_le.
  - apply elem_of_foldersOfRoom; eauto.
  - intros f Hf. specialize (Hbound (folder_id f)). lia.
Qed.

(** * Moves *)

Section Moves.

Variable O : Oracle.

Lemma FolderRepo_getRequired_Ok id w f w1 :
  FolderRepo_getRequired id w = (Ok f, w1) →
  folders (store w) !! id = Some f ∧ store w1 = store w.
Proof.
  unfold FolderRepo_getRequired, FolderRepo_get, wrapDatabaseError,
    tryCatch, bind. simpl.
  destruct (folders (store w) !! id); [|done]. by intros [= <- <-].
Qed.

(** A move that returns hands back the record stored under the id, and
    that record has the parent that the folder had before the move. *)
Lemma FolderService_move_keeps_parent id newParentId w moved w' :
  FolderService_move O id newParentId w = (Ok moved, w') →
  folders (store w') !! id = Some moved
  ∧ ∃ c, folders (store w) !! id = Some c
         ∧ folder_parentId moved = folder_parentId c.
Proof.
  intros Hrun.
  assert (evolves w w') as [_ Hev] by by_evolution Hrun.
  assert (folders (store w') !! id = Some moved) as Hstored.
  { unfold FolderService_move in Hrun.
    apply bind_Ok_inv in Hrun as (c & w1 & _ & Hrun).
    apply bind_Ok_inv in Hrun as (? & w2 & _ & Hrun).
    apply bind_Ok_inv in Hrun as (nameExists & w3 & _ & Hrun).
    destruct nameExists; [done|].
    apply bind_Ok_inv in Hrun as (? & w4 & _ & Hrun).
    apply bind_Ok_inv in Hrun as (? & w5 & _ & Hrun).
    apply FolderRepo_getRequired_Ok in Hrun as [Hf Hs]. by rewrite Hs. }
  split; [done|]. destruct (Hev id moved Hstored) as (c & Hc & _ & Hp).
  by exists c.
Qed.

(** The half of the cycle check that the source has: a move into a
    folder that the traversal lists below the moved folder throws
    [InvalidOperationError] and writes nothing. *)
Lemma FolderService_move_into_descendant id d w c D :
  d ≠ "" →
  folders (store w) !! id = Some c →
  is_Some (folders (store w) !! d) →
  getDescendantFolderIds (spreadLimit O) (stackDepth O) id
    (foldersOfRoom O (store w) (folder_dataroomId c)) = Some D →
  d ∈ D →
  ∃ w', FolderService_move O id (Some d) w
        = (Err (InvalidOperationError "move folder"), w')
        ∧ store w' = store w.
Proof.
  intros Hne Hc [g Hg] HD Hd. unfold FolderService_move.
  rewrite (bind_run _ _ _ _ _ (FolderRepo_getRequired_run id w c Hc)).
  unfold truthy. rewrite (bool_decide_eq_true_2 _ Hne).
  eexists. split.
  - erewrite bind_run_err; [reflexivity|].
    erewrite bind_run;
      [|apply (FolderRepo_getRequired_run d _ g); exact Hg].
    rewrite (bind_run _ _ _ _ _ (FolderRepo_listByDataroom_run O _ _)).
    change (foldersOfRoom O _ (folder_dataroomId c))
      with (foldersOfRoom O (store w) (folder_dataroomId c)).
    rewrite HD.
    change (orStackOverflow (Some D)) with (@ret (list string) D).
    rewrite bind_ret_l. by rewrite bool_decide_eq_true_2.
  - done.
Qed.

End Moves.

(** * The properties on concrete worlds *)

(** Decides a closed proposition by evaluation. *)
Ltac by_decision :=
  match goal with
  | |- ?P => apply (bool_decide_unpack P); by vm_compute
  end.

Lemma demoOracle_lawful : lawfulOrders demoOracle.
Proof. split; intros A l; reflexivity. Qed.

Lemma demoOracle_fresh : freshIds demoOracle.
Proof.
  split.
  - intros i j Heq. simpl in Heq.
    apply (inj (String.app "id")) in Heq. by apply (inj pretty) in Heq.
  - intros i. simpl. by rewrite !string_app_cons.
Qed.

Lemma reachable_runAll O ops w :
  reachable O w → reachable O (runAll O ops w).
Proof.
  revert w. induction ops as [|op ops IH]; intros w Hw; [done|].
  simpl. apply IH. by constructor.
Qed.

(** C1. The code breaks the claim. With the folders A and B side by side
    at the root of a room and a file at the root, both moves pass their
    validation and return, and the record they return, which is the record
    stored afterwards, still has the old parent (the root), not B: only
    the name (unchanged) and the time stamp are written. *)
Theorem move_does_not_persist_parentId :
  (FolderService_move demoOracle "id1" (Some "id2") worldSideBySide).1
  = Ok (mkFolder "id1" "id0" None "A" 1 7)
  ∧ folder_parentId <$>
      folders (store (FolderService_move demoOracle "id1" (Some "id2")
                        worldSideBySide).2) !! "id1"
    = Some None
  ∧ (FileService_move demoOracle "id4" "id2" worldSideBySide).1
    = Ok (mkFileObject "id4" "id0" None "q1.pdf" "application/pdf" 4 "id3"
            5 7)
  ∧ file_parentId <$>
      files (store (FileService_move demoOracle "id4" "id2"
                      worldSideBySide).2) !! "id4"
    = Some None.
Proof. repeat split; by vm_compute. Qed.

(** C2. The code breaks the claim for a move of a folder into itself: the
    cycle check looks only at the descendants, so with the folder A at the
    root of a room, moving A into A returns normally instead of throwing
    [InvalidOperationError], and the record of A is written (its time
    stamp changes). *)
Theorem move_into_itself_is_accepted :
  (FolderService_move demoOracle "id1" (Some "id1") worldSideBySide).1
  = Ok (mkFolder "id1" "id0" None "A" 1 7)
  ∧ folders (store (FolderService_move demoOracle "id1" (Some "id1")
                      worldSideBySide).2) !! "id1"
    ≠ folders (store worldSideBySide) !! "id1".
Proof. split; [by vm_compute|]. vm_compute. by intros [=]. Qed.

(** C7, counterexample to the claim as stated: a name of 255 letters and a
    trailing space is longer than 255 characters, and [validateName]
    accepts it as a folder name, because it measures the trimmed name. *)
Lemma validateName_measures_trimmed_name :
  ¬ (validateName paddedName KFolder = Err NameValidationError
     ↔ rejectedAsSpecified paddedName KFolder).
Proof.
  intros [_ Hclaim].
  assert (validateName paddedName KFolder = Ok tt) as Hok by by vm_compute.
  rewrite Hok in Hclaim. discriminate Hclaim.
  right. left. apply Nat.ltb_lt. by vm_compute.
Qed.


(** Scenario A: a second folder "Reports" at the root of a room, created
    with keep-both, is named "Reports (1)". *)
Example scenario_keep_both :
  ((FolderService_create demoOracle "Reports" "id0" None KeepBoth;;
    let! second :=
      FolderService_create demoOracle "Reports" "id0" None KeepBoth in
    ret (folder_name second))
     (runAll demoOracle [RoomCreate "Acme"] emptyWorld)).1
  = Ok "Reports (1)".
Proof. by vm_compute. Qed.

(** Scenario C: deleting A in the nested world removes 2 folders and 1
    file and leaves no folder, no file and no blob. *)
Example scenario_cascade :
  (FolderService_delete demoOracle "id1" worldNested).1
  = Ok (mkFolderDeletion 2 1)
  ∧ folders (store (FolderService_delete demoOracle "id1" worldNested).2) = ∅
  ∧ files (store (FolderService_delete demoOracle "id1" worldNested).2) = ∅
  ∧ blobs (store (FolderService_delete demoOracle "id1" worldNested).2) = ∅.
Proof. repeat split; by vm_compute. Qed.

(** Scenario D: the probe answers false for a name that does not pass
    validation. *)
Example scenario_probe :
  (FolderService_isNameAvailable demoOracle "bad/name" None "id0" None
     worldNested).1
  = Ok false.
Proof. by vm_compute. Qed.

(** The minimal suffix on a set where "q1.pdf" and "q1 (1).pdf" are taken. *)
Lemma generateUniqueName_minimal_suffix_witness :
  generateUniqueName "q1.pdf" {["q1.pdf"; "q1 (1).pdf"]}
  = Some "q1 (2).pdf".
Proof.
  apply (generateUniqueName_minimal_suffix "q1.pdf"
           {["q1.pdf"; "q1 (1).pdf"]} "q1" ".pdf" 2).
  - by_decision.
  - reflexivity.
  - lia.
  - intros j Hj. replace j with 1 by lia. by_decision.
  - by_decision.
Defined.

(** A text file is refused in the world it was offered in. *)
Lemma FileService_upload_validates_first_witness :
  FileService_upload demoOracle (mkJsFile "notes.txt" "text/plain" [])
    "id0" None KeepBoth worldSideBySide
  = (Err FileValidationError, worldSideBySide).
Proof.
  apply FileService_upload_validates_first. left. simpl. discriminate.
Defined.

(** A second "q1.pdf" is stored as "q1 (1).pdf" and comes back whole. *)
Lemma FileService_upload_download_roundtrip_witness :
  ∃ w'',
    FileService_downloadBlob "id6"
      (FileService_upload demoOracle (pdfFile "q1.pdf") "id0" None KeepBoth
         worldSideBySide).2
    = (Ok (Some (mkDownload (pdfFile "q1.pdf") "q1 (1).pdf")), w'').
Proof.
  apply (FileService_upload_download_roundtrip demoOracle (pdfFile "q1.pdf")
           "id0" None KeepBoth worldSideBySide
           (FileService_upload demoOracle (pdfFile "q1.pdf") "id0" None
              KeepBoth worldSideBySide).2
           (mkFileObject "id6" "id0" None "q1 (1).pdf" "application/pdf" 4
              "id5" 7 7)).
  by vm_compute.
Defined.

(** In the nested world the parent of B is not B. *)
Lemma reachable_folders_acyclic_witness :
  nthAncestor (store worldNested) 1 "id2" ≠ Some "id2".
Proof.
  apply (reachable_folders_acyclic demoOracle worldNested).
  - exact demoOracle_fresh.
  - apply reachable_runAll, reachable_empty.
  - exists (mkFolder "id2" "id0" (Some "id1") "B" 3 3). by vm_compute.
Defined.

(** Deleting a room that was never created changes nothing. *)
Lemma DataroomService_delete_missing_room_witness :
  ∃ w', DataroomService_delete demoOracle "ghost" worldNested
        = (Ok (mkRoomDeletion 0 0 0), w')
        ∧ store w' = store worldNested.
Proof.
  apply (DataroomService_delete_missing_room demoOracle "ghost" worldNested
           demoOracle_lawful).
  - by vm_compute.
  - apply (bool_decide_unpack
             (map_Forall (λ _ f, folder_dataroomId f ≠ "ghost")
                (folders (store worldNested)))).
    by vm_compute.
  - apply (bool_decide_unpack
             (map_Forall (λ _ f, file_dataroomId f ≠ "ghost")
                (files (store worldNested)))).
    by vm_compute.
Defined.

(** An id without a file record gives null twice. *)
Lemma FileService_blob_lookups_return_null_witness :
  (FileService_downloadBlob "missing" worldNested).1 = Ok None
  ∧ (FileService_getBlobUrl demoOracle "missing" worldNested).1 = Ok None.
Proof.
  apply (FileService_blob_lookups_return_null demoOracle "missing"
           worldNested).
  by vm_compute.
Defined.


(** * More on names (core/utils/names.ts) *)

Section Trimming.

Lemma trimStart_head s :
  JsString.trimStart s = ""
  ∨ ∃ c t, JsString.trimStart s = String c t ∧ JsString.isWhiteSpace c = false.
Proof.
  induction s as [|c s IH]; [by left|].
  simpl. destruct (JsString.isWhiteSpace c) eqn:Hc; [done|].
  right. by exists c, s.
Qed.

Lemma trimEnd_idem s : JsString.trimEnd (JsString.trimEnd s) = JsString.trimEnd s.
Proof.
  induction s as [|c s IH]; [done|].
  simpl. destruct (JsString.trimEnd s) as [|d t] eqn:Hs.
  - destruct (JsString.isWhiteSpace c) eqn:Hc; [done|]. simpl. by rewrite Hc.
  - change (JsString.trimEnd (String c (String d t))) with
      (match JsString.trimEnd (String d t) with
       | "" => if JsString.isWhiteSpace c then "" else String c ""
       | u => String c u
       end).
    by rewrite IH.
Qed.

Lemma trimEnd_head c s :
  JsString.isWhiteSpace c = false →
  ∃ t, JsString.trimEnd (String c s) = String c t.
Proof.
  intros Hc. simpl. destruct (JsString.trimEnd s) as [|d t].
  - rewrite Hc. by exists "".
  - by exists (String d t).
Qed.

Lemma trimStart_trim s : JsString.trimStart (JsString.trim s) = JsString.trim s.
Proof.
  unfold JsString.trim.
  destruct (trimStart_head s) as [->|(c & t & -> & Hc)]; [done|].
  destruct (trimEnd_head c t Hc) as [u ->]. simpl. by rewrite Hc.
Qed.

Lemma trimEnd_trim s : JsString.trimEnd (JsString.trim s) = JsString.trim s.
Proof. apply trimEnd_idem. Qed.

Lemma trim_idem s : JsString.trim (JsString.trim s) = JsString.trim s.
Proof.
  unfold JsString.trim at 1. by rewrite trimStart_trim, trimEnd_trim.
Qed.

(** A string that [trimEnd] leaves alone is empty or ends in a unit that
    is not white space. *)
Lemma trimEnd_fixed_cons c s :
  JsString.trimEnd (String c s) = String c s →
  (s = "" ∧ JsString.isWhiteSpace c = false)
  ∨ (s ≠ "" ∧ JsString.trimEnd s = s).
Proof.
  simpl. destruct (JsString.trimEnd s) as [|d t] eqn:Hs.
  - destruct (JsString.isWhiteSpace c); [done|].
    intros [= <-]. by left.
  - intros [= <-]. by right.
Qed.

Lemma collapseRuns_nil b s :
  JsString.collapseRuns b s = "" → whitespaceOnly s.
Proof.
  revert b. induction s as [|c s IH]; intros b; [done|].
  rewrite whitespaceOnly_cons. simpl.
  destruct (JsString.isWhiteSpace c) eqn:Hc; [|done].
  destruct b; [|done]. intros H. split; [done|]. by eapply IH.
Qed.

Lemma fixed_not_whitespaceOnly s :
  s ≠ "" → JsString.trimEnd s = s → JsString.collapseRuns true s ≠ ""
  ∧ JsString.collapseRuns false s ≠ "".
Proof.
  intros Hne Hfix.
  split; intros H%collapseRuns_nil%trimEnd_nil; congruence.
Qed.

Lemma collapseRuns_idem b s :
  JsString.collapseRuns b (JsString.collapseRuns b s)
  = JsString.collapseRuns b s.
Proof.
  revert b. induction s as [|c s IH]; intros b; [done|].
  simpl. destruct (JsString.isWhiteSpace c) eqn:Hc.
  - destruct b; [apply IH|]. simpl. by rewrite IH.
  - simpl. rewrite Hc. by rewrite IH.
Qed.

Lemma trimEnd_collapseRuns b s :
  JsString.trimEnd s = s →
  JsString.trimEnd (JsString.collapseRuns b s) = JsString.collapseRuns b s.
Proof.
  revert b. induction s as [|c s IH]; intros b Hfix; [done|].
  apply trimEnd_fixed_cons in Hfix as [[-> Hc]|[Hne Hfix]].
  { simpl. rewrite Hc. simpl. by rewrite Hc. }
  destruct (fixed_not_whitespaceOnly s Hne Hfix) as [Ht Hf].
  assert (∀ a t, t ≠ "" → JsString.trimEnd t = t →
            JsString.trimEnd (String a t) = String a t) as Hcons.
  { intros a t Hnil Ht'. simpl. rewrite Ht'. by destruct t. }
  simpl. destruct (JsString.isWhiteSpace c) eqn:Hc.
  - destruct b; [by apply IH|]. apply Hcons; [done|by apply IH].
  - apply Hcons; [done|by apply IH].
Qed.

Lemma trimStart_collapseRuns s :
  JsString.trimStart (JsString.collapseRuns false (JsString.trim s))
  = JsString.collapseRuns false (JsString.trim s).
Proof.
  pose proof (trimStart_trim s) as Hfix.
  destruct (JsString.trim s) as [|c t]; [done|].
  simpl in *. destruct (JsString.isWhiteSpace c) eqn:Hc.
  - exfalso.
    assert (String.length (JsString.trimStart t) ≤ String.length t) as Hlen.
    { clear. induction t as [|a t IH]; [done|].
      simpl. destruct (JsString.isWhiteSpace a); simpl; lia. }
    rewrite Hfix in Hlen. simpl in Hlen. lia.
  - simpl. by rewrite Hc.
Qed.

End Trimming.

(** X1. Normalising a name twice is normalising it once: what the services
    store is a fixed point of [normalizeName]. *)
Theorem normalizeName_idempotent (name : string) :
  normalizeName (normalizeName name) = normalizeName name.
Proof.
  unfold normalizeName.
  assert (JsString.trim (JsString.collapseRuns false (JsString.trim name))
          = JsString.collapseRuns false (JsString.trim name)) as ->.
  { unfold JsString.trim at 1.
    rewrite trimStart_collapseRuns.
    apply trimEnd_collapseRuns, trimEnd_trim. }
  apply collapseRuns_idem.
Qed.

Section Shape.

Lemma collapseRuns_true_head s d :
  String.get 0 (JsString.collapseRuns true s) = Some d →
  JsString.isWhiteSpace d = false.
Proof.
  induction s as [|c s IH]; [done|].
  simpl. destruct (JsString.isWhiteSpace c) eqn:Hc; [done|].
  simpl. by intros [= <-].
Qed.

Lemma get_0_nonempty s : s ≠ "" → ∃ d, String.get 0 s = Some d.
Proof. destruct s as [|d s]; [done|]. by exists d. Qed.

Lemma collapseRuns_spaces b s i c :
  JsString.trimEnd s = s →
  String.get i (JsString.collapseRuns b s) = Some c →
  JsString.isWhiteSpace c = true →
  c = " "%char
  ∧ ∃ d, String.get (S i) (JsString.collapseRuns b s) = Some d
         ∧ JsString.isWhiteSpace d = false.
Proof.
  revert b i. induction s as [|a s IH]; intros b i Hfix Hget Hc; [done|].
  apply trimEnd_fixed_cons in Hfix as [[-> Ha]|[Hne Hfix]].
  { simpl in Hget. rewrite Ha in Hget. destruct i; simpl in Hget; [|done].
    congruence. }
  destruct (fixed_not_whitespaceOnly s Hne Hfix) as [Ht Hf].
  simpl in *. destruct (JsString.isWhiteSpace a) eqn:Ha.
  - destruct b; [by apply IH|].
    destruct i as [|i]; simpl in *.
    + injection Hget as <-. split; [done|].
      destruct (get_0_nonempty _ Ht) as [d Hd].
      exists d. split; [done|]. by eapply collapseRuns_true_head.
    + by apply IH.
  - destruct i as [|i]; simpl in *; [congruence|]. by apply IH.
Qed.

End Shape.

(** X2. In a normalised name white space only occurs as single spaces
    between two other units: a unit of white space is a plain space, it is
    not the first unit, and the unit after it is there and is not white
    space. *)
Theorem normalizeName_single_spaces (name : string) (i : nat) (c : ascii) :
  String.get i (normalizeName name) = Some c →
  JsString.isWhiteSpace c = true →
  c = " "%char
  ∧ i ≠ 0
  ∧ ∃ d, String.get (S i) (normalizeName name) = Some d
         ∧ JsString.isWhiteSpace d = false.
Proof.
  intros Hget Hc. unfold normalizeName in *.
  destruct (collapseRuns_spaces false (JsString.trim name) i c) as [-> Hnext];
    [apply trimEnd_trim|done|done|].
  split; [done|]. split; [|done].
  intros ->. pose proof (trimStart_collapseRuns name) as Hfix.
  destruct (JsString.collapseRuns false (JsString.trim name)) as [|a t];
    [done|].
  simpl in Hget. injection Hget as ->. simpl in Hfix.
  assert (String.length (JsString.trimStart t) ≤ String.length t) as Hlen.
  { clear. induction t as [|a t IH]; [done|].
    simpl. destruct (JsString.isWhiteSpace a); simpl; lia. }
  rewrite Hfix in Hlen. simpl in Hlen. lia.
Qed.

(** X3. Leading and trailing white space never changes the verdict of
    [validateName]. *)
Theorem validateName_ignores_outer_space (name : string) (kind : EntityKind) :
  validateName (JsString.trim name) kind = validateName name kind.
Proof.
  unfold validateName. rewrite trim_idem.
  destruct (decide (name = "")) as [->|Hne]; [done|].
  destruct (decide (JsString.trim name = "")) as [Ht|Ht]; [|done].
  rewrite Ht. done.
Qed.

Section SplitName.

Lemma take_drop_string i s : JsString.take i s +:+ JsString.drop i s = s.
Proof.
  revert s. induction i as [|i IH]; intros [|c s]; simpl; try done.
  by rewrite string_app_cons, IH.
Qed.

(** The unit at the index that [lastIndexOf] answers is the one looked
    for, and it does not occur after that index. *)
Lemma lastIndexOf_Some c s i :
  JsString.lastIndexOf c s = Some i →
  ∃ rest, JsString.drop i s = String c rest
          ∧ JsString.lastIndexOf c rest = None.
Proof.
  revert i. induction s as [|a s IH]; intros i; [done|].
  simpl. destruct (JsString.lastIndexOf c s) as [j|] eqn:Hs.
  - intros [= <-]. simpl. by apply IH.
  - case_decide as Ha; [|done]. intros [= <-]. subst a. by exists s.
Qed.

Lemma lastIndexOf_app c s1 s2 :
  JsString.lastIndexOf c (s1 +:+ s2)
  = match JsString.lastIndexOf c s2 with
    | Some j => Some (String.length s1 + j)
    | None => JsString.lastIndexOf c s1
    end.
Proof.
  induction s1 as [|a s1 IH].
  - change ("" +:+ s2) with s2. by destruct (JsString.lastIndexOf c s2).
  - rewrite string_app_cons. simpl. rewrite IH.
    by destruct (JsString.lastIndexOf c s2).
Qed.

Lemma take_app_length s1 s2 :
  JsString.take (String.length s1) (s1 +:+ s2) = s1.
Proof.
  induction s1 as [|a s1 IH]; [by destruct s2|].
  rewrite string_app_cons. simpl. by rewrite IH.
Qed.

Lemma drop_app_length s1 s2 :
  JsString.drop (String.length s1) (s1 +:+ s2) = s2.
Proof.
  induction s1 as [|a s1 IH]; [by destruct s2|].
  by rewrite string_app_cons.
Qed.

Lemma string_app_assoc (s1 s2 s3 : string) :
  (s1 +:+ s2) +:+ s3 = s1 +:+ (s2 +:+ s3).
Proof.
  induction s1 as [|a s1 IH]; [done|]. by rewrite !string_app_cons, IH.
Qed.

(** The decimal numeral of a number holds no dot. *)
Lemma pretty_N_go_no_dot x s :
  JsString.lastIndexOf "." s = None →
  JsString.lastIndexOf "." (pretty_N_go x s) = None.
Proof.
  revert s. induction (N.lt_wf_0 x) as [x _ IH]; intros s Hs.
  destruct (decide (0 < x)%N) as [Hx|Hx].
  - rewrite pretty_N_go_step by done. apply IH.
    { by apply N.div_lt. }
    simpl. rewrite Hs. unfold pretty_N_char.
    by repeat case_match.
  - replace x with 0%N by lia. by rewrite pretty_N_go_0.
Qed.

Lemma pretty_nat_no_dot (n : nat) :
  JsString.lastIndexOf "." (pretty n) = None.
Proof.
  unfold pretty, pretty_nat, pretty, pretty_N.
  case_decide; [done|]. by apply pretty_N_go_no_dot.
Qed.

Lemma suffix_no_dot (n : nat) :
  JsString.lastIndexOf "." (" (" +:+ pretty n +:+ ")") = None.
Proof.
  rewrite !lastIndexOf_app. simpl. by rewrite pretty_nat_no_dot.
Qed.

Lemma string_app_nil_r (s : string) : s +:+ "" = s.
Proof. induction s as [|a s IH]; [done|]. by rewrite string_app_cons, IH. Qed.

(** Where the suffix of a unique name goes: between the base and the
    extension of the name it is made from. *)
Lemma splitName_candidate name base ext counter :
  splitName name = (base, ext) →
  splitName (candidateName base ext counter)
  = (base +:+ " (" +:+ pretty counter +:+ ")", ext).
Proof.
  unfold candidateName. intros Hsplit.
  pose proof (suffix_no_dot counter) as Hsuffix.
  assert (∀ s, JsString.lastIndexOf "." s = None
               ∨ JsString.lastIndexOf "." s = Some 0 →
            splitName (s +:+ " (" +:+ pretty counter +:+ ")" +:+ "")
            = (s +:+ " (" +:+ pretty counter +:+ ")", "")) as Hplain.
  { intros s Hs. change (")" +:+ "") with ")".
    unfold splitName. rewrite lastIndexOf_app, Hsuffix.
    by destruct Hs as [-> | ->]. }
  unfold splitName in Hsplit.
  destruct (JsString.lastIndexOf "." name) as [[|i]|] eqn:Hdot;
    pose proof (f_equal fst Hsplit) as Hb; pose proof (f_equal snd Hsplit) as He;
    cbn [fst snd] in Hb, He; subst base ext;
    [by apply Hplain; right| |by apply Hplain; left].
  destruct (lastIndexOf_Some _ _ _ Hdot) as (rest & Hrest & Hnone).
  rewrite Hrest.
  set (base := JsString.take (S i) name).
  replace (base +:+ " (" +:+ pretty counter +:+ ")" +:+ String "." rest)
    with ((base +:+ " (" +:+ pretty counter +:+ ")") +:+ String "." rest).
  2:{ by rewrite !string_app_assoc. }
  unfold splitName. rewrite lastIndexOf_app. simpl JsString.lastIndexOf.
  rewrite Hnone.
  rewrite Nat.add_0_r.
  destruct (String.length (base +:+ " (" +:+ pretty counter +:+ ")"))
    as [|len] eqn:Hlen.
  { exfalso. rewrite !string_app_length in Hlen. simpl in Hlen. lia. }
  rewrite <- Hlen. by rewrite take_app_length, drop_app_length.
Qed.

End SplitName.

(** X4. [splitName] cuts a name in two without losing a unit: base and
    extension put together give the name back; the extension is empty or
    starts at the last dot of the name, so it holds exactly one dot; and
    the base of a name that is not empty is not empty. *)
Theorem splitName_recomposes (name : string) :
  (splitName name).1 +:+ (splitName name).2 = name
  ∧ ((splitName name).2 = ""
     ∨ ∃ rest, (splitName name).2 = String "." rest
               ∧ JsString.lastIndexOf "." rest = None)
  ∧ ((splitName name).1 = "" → name = "").
Proof.
  unfold splitName.
  destruct (JsString.lastIndexOf "." name) as [[|i]|] eqn:Hdot;
    cbn [fst snd].
  - split; [apply string_app_nil_r|by auto].
  - split; [apply take_drop_string|]. split.
    + right. by apply lastIndexOf_Some.
    + by destruct name.
  - split; [apply string_app_nil_r|by auto].
Qed.

(** X5. The name that [generateUniqueName] makes up keeps the extension of
    the name it was asked for: the counter goes in front of the last dot,
    so "q1.pdf" becomes "q1 (1).pdf", never "q1.pdf (1)". *)
Theorem generateUniqueName_keeps_extension
    (baseName : string) (existingNames : gset string) :
  ∃ uniqueName,
    generateUniqueName baseName existingNames = Some uniqueName
    ∧ (uniqueName ∉ existingNames)
    ∧ (splitName uniqueName).2 = (splitName baseName).2.
Proof.
  unfold generateUniqueName. case_decide as Hin; [|by exists baseName].
  destruct (splitName baseName) as [base ext] eqn:Hsplit.
  destruct (uniqueNameLoop_least base ext existingNames
              (S (size existingNames)) 1 1)
    as (k & Hk & _ & Hfree & _); [lia|intros; lia|lia|].
  exists (candidateName base ext k). split; [done|]. split; [done|].
  by rewrite (splitName_candidate baseName base ext k Hsplit).
Qed.

(** * More on name collisions (core/utils/nameCollision.ts) *)

Section Collisions.
Context {T : Type} (item_id : T → ID) (item_name : T → string).

Lemma sameNameOther_spec name excludeId x :
  sameNameOther item_id item_name name excludeId x = true
  ↔ item_name x = name ∧ Some (item_id x) ≠ excludeId.
Proof.
  unfold sameNameOther.
  by rewrite andb_true_iff, !bool_decide_eq_true.
Qed.

Lemma find_existsb {A} (p : A → bool) (l : list A) :
  List.existsb p l = bool_decide (is_Some (List.find p l)).
Proof.
  induction l as [|a l IH]; [done|].
  simpl. by destruct (p a).
Qed.

Lemma elem_of_siblingNames n siblings excludeId :
  n ∈ siblingNames item_id item_name siblings excludeId
  ↔ ∃ x, x ∈ siblings ∧ item_name x = n ∧ Some (item_id x) ≠ excludeId.
Proof.
  unfold siblingNames.
  rewrite elem_of_list_to_set, list_elem_of_fmap. split.
  - intros (x & -> & Hx). apply list_elem_of_In, filter_In in Hx as [Hx Hid].
    apply bool_decide_eq_true in Hid. exists x.
    by rewrite list_elem_of_In.
  - intros (x & Hx & <- & Hid). exists x. split; [done|].
    apply list_elem_of_In, filter_In. split; [by apply list_elem_of_In|].
    by apply bool_decide_eq_true.
Qed.

End Collisions.

(** X6. [isNameAvailable] and [resolveNameCollision] agree. For a name that
    passes validation (rooms are not validated here): when the name is
    reported available, the resolution answers the normalised name, with
    nothing to replace, whatever the action; when it is reported taken,
    the resolution under "cancel" throws [AlreadyExistsError] for the
    normalised name. *)
Theorem isNameAvailable_agrees_with_resolution
    {T : Type} (item_id : T → ID) (item_name : T → string)
    (entityType : EntityType) (name : string) (siblings : list T)
    (excludeId : option ID) :
  (match entityType with
   | ForKind kind => validateName name kind
   | ForDataroom => Ok tt
   end) = Ok tt →
  (isNameAvailable item_id item_name name siblings excludeId = true →
   ∀ action supportsReplace,
     resolveNameCollision item_id item_name entityType name action siblings
       excludeId supportsReplace
     = Ok (mkNameCollisionResult (normalizeName name) false None))
  ∧ (isNameAvailable item_id item_name name siblings excludeId = false →
     ∀ supportsReplace,
       resolveNameCollision item_id item_name entityType name Cancel siblings
         excludeId supportsReplace
       = Err (AlreadyExistsError (entityLabel entityType)
                (normalizeName name))).
Proof.
  intros Hvalid. unfold isNameAvailable, resolveNameCollision.
  rewrite Hvalid, find_existsb.
  destruct (List.find _ siblings) as [x|] eqn:Hfind.
  - rewrite bool_decide_eq_true_2 by by eexists. by split.
  - rewrite bool_decide_eq_false_2 by by intros [? [=]]. by split.
Qed.

(** X7. What a resolution that returns promises. It asks for a replacement
    only under "replace" where replacing is supported, and then names a
    sibling, other than the excluded one, that carries the normalised
    name; otherwise it names no sibling and its final name is carried by
    no sibling other than the excluded one. *)
Theorem resolveNameCollision_result
    {T : Type} (item_id : T → ID) (item_name : T → string)
    (entityType : EntityType) (name : string) (action : NameCollisionAction)
    (siblings : list T) (excludeId : option ID) (supportsReplace : bool)
    (r : NameCollisionResult T) :
  resolveNameCollision item_id item_name entityType name action siblings
    excludeId supportsReplace = Ok r →
  (shouldReplace r = true →
   action = Replace ∧ supportsReplace = true
   ∧ finalName r = normalizeName name
   ∧ ∃ x, existingItem r = Some x ∧ x ∈ siblings
          ∧ item_name x = normalizeName name
          ∧ Some (item_id x) ≠ excludeId)
  ∧ (shouldReplace r = false →
     existingItem r = None
     ∧ ∀ x, x ∈ siblings → Some (item_id x) ≠ excludeId →
            item_name x ≠ finalName r).
Proof.
  unfold resolveNameCollision.
  destruct (match entityType with
            | ForKind k => validateName name k
            | ForDataroom => Ok tt
            end) as [[]|e]; [|done].
  destruct (List.find _ siblings) as [x|] eqn:Hfind.
  - apply find_some in Hfind as [Hx Hsame].
    apply sameNameOther_spec in Hsame as [Hname Hid].
    destruct action.
    + destruct supportsReplace; [|done]. intros [= <-]. simpl.
      split; [|done]. intros _. repeat split; [].
      exists x. by rewrite list_elem_of_In.
    + fold (siblingNames item_id item_name siblings excludeId).
      destruct (generateUniqueName_total (normalizeName name)
                  (siblingNames item_id item_name siblings excludeId))
        as (u & -> & Hfree).
      intros [= <-]. simpl. split; [done|]. intros _. split; [done|].
      intros y Hy Hyid Hyname. apply Hfree.
      apply elem_of_siblingNames. by exists y.
    + done.
  - intros [= <-]. simpl. split; [done|]. intros _. split; [done|].
    intros y Hy Hyid Hyname.
    eapply find_none in Hfind; [|by apply list_elem_of_In].
    apply not_true_iff_false in Hfind. apply Hfind.
    by apply sameNameOther_spec.
Qed.

(** * More on the tree (core/utils/tree.ts) *)

Section Counting.

Variables (fs : list Folder) (files : list FileObject).

Local Arguments filesIn : simpl never.

Lemma filesIn_cons x D :
  filesIn files (x :: D)
  = List.filter (isChildFileOf x) files ++ filesIn files D.
Proof. reflexivity. Qed.

Lemma filesIn_app D1 D2 :
  filesIn files (D1 ++ D2) = filesIn files D1 ++ filesIn files D2.
Proof. unfold filesIn. apply flat_map_app. Qed.

Lemma countDescendants_S depth x :
  countDescendants (S depth) x fs files
  = foldl (countStep fs files depth)
      (Some (length (List.filter (isChildFolderOf x) fs),
             length (List.filter (isChildFileOf x) files)))
      (List.filter (isChildFolderOf x) fs).
Proof. reflexivity. Qed.

Lemma step_None depth cs : foldl (countStep fs files depth) None cs = None.
Proof. by induction cs. Qed.

(** When both return, the counts are those of the list. Each function
    has its own budget. *)
Lemma countDescendants_spec spread depth depth' x counts D :
  countDescendants depth x fs files = Some counts →
  getDescendantFolderIds spread depth' x fs = Some D →
  counts = (length D, length (filesIn files (x :: D))).
Proof.
  revert depth' x counts D.
  induction depth as [|depth IH]; intros depth' x counts D Hc HD; [done|].
  destruct depth' as [|depth']; [done|].
  rewrite countDescendants_S in Hc. rewrite getDescendantFolderIds_S in HD.
  set (cs := List.filter (isChildFolderOf x) fs) in *.
  set (b := length (List.filter (isChildFileOf x) files)) in *.
  assert (∀ a b counts D,
            foldl (countStep fs files depth) (Some (a + length cs, b)) cs
            = Some counts →
            collect spread fs depth' cs = Some D →
            counts = (a + length D, b + length (filesIn files D))) as Hloop.
  { clear b Hc HD counts D.
    induction cs as [|c cs IHcs]; intros a b counts D Hc HD.
    - injection Hc as <-. injection HD as <-. simpl.
      by rewrite !Nat.add_0_r.
    - apply collect_cons in HD as (Dc & Drest & HDc & HDrest & ->).
      simpl foldl in Hc.
      destruct (countDescendants depth (folder_id c) fs files)
        as [[cfo cfi]|] eqn:Hcc; [|by rewrite step_None in Hc].
      pose proof (IH _ _ _ _ Hcc HDc) as Hchild.
      injection Hchild as -> ->.
      replace (a + S (length cs) + length Dc)
        with ((a + S (length Dc)) + length cs) in Hc by lia.
      apply (IHcs _ _ _ _ Hc) in HDrest as ->.
      rewrite !filesIn_cons, filesIn_app. simpl length.
      rewrite !length_app. f_equal; lia. }
  rewrite (Hloop 0 b counts D Hc HD).
  by rewrite filesIn_cons, length_app.
Qed.

End Counting.

(** X8. [countDescendants] counts what [getDescendantFolderIds] lists:
    whenever both return, whatever the stack leaves to each of them, the
    number of folders is the length of the list of descendants, and the
    number of files is the number of files whose parent is the folder or
    one of these descendants. *)
Theorem countDescendants_counts_descendants
    (spread : nat → nat) (depth depth' : nat) (folderId : ID)
    (folders : list Folder) (files : list FileObject)
    (counts : nat * nat) (descendants : list ID) :
  countDescendants depth folderId folders files = Some counts →
  getDescendantFolderIds spread depth' folderId folders = Some descendants →
  counts = (length descendants,
            length (filesIn files (folderId :: descendants))).
Proof. apply countDescendants_spec. Qed.

Section Impact.

Variable O : Oracle.

Lemma deleteOneFile_counts L :
  ∀ n w m w', foldM (deleteOneFile O) n L w = (Ok m, w') → m = n + length L.
Proof.
  induction L as [|f L IH]; intros n w m w' Hrun.
  - injection Hrun as <- _. simpl. lia.
  - simpl in Hrun. apply bind_Ok_inv in Hrun as (a & w1 & Hone & Hrest).
    unfold deleteOneFile in Hone.
    apply bind_Ok_inv in Hone as (u & w2 & _ & Hret).
    injection Hret as <- _. apply IH in Hrest. simpl. lia.
Qed.

Lemma orStackOverflow_Ok {A} (r : option A) w a w' :
  orStackOverflow r w = (Ok a, w') → r = Some a ∧ w' = w.
Proof. destruct r; [|done]. by intros [= <- <-]. Qed.

End Impact.

(** X9. The preview agrees with the deletion: whenever
    [FolderService.delete] returns and [getDeletionImpact], asked in the
    world in which the deletion started, returns too, the preview holds
    the very counts that the deletion reports, and it leaves the tables
    as they are. The two traversals have their own frames: either may
    overflow the stack where the other returns. *)
Theorem FolderService_getDeletionImpact_predicts_delete
    (O : Oracle) (id : ID) (w w' w1 : World)
    (counts preview : FolderDeletion) :
  FolderService_delete O id w = (Ok counts, w') →
  FolderService_getDeletionImpact O id w = (Ok preview, w1) →
  preview = counts ∧ store w1 = store w.
Proof.
  unfold FolderService_delete, FolderService_getDeletionImpact.
  intros Hrun Himpact.
  apply bind_Ok_inv in Hrun as (folder & w2 & Hget & Hrun).
  rewrite (bind_run _ _ _ _ _ Hget) in Himpact.
  assert (store w2 = store w) as Hs2.
  { unfold FolderRepo_getRequired, FolderRepo_get, wrapDatabaseError,
      tryCatch, bind in Hget. simpl in Hget.
    destruct (folders (store w) !! id); by injection Hget as _ <-. }
  rewrite (bind_run _ _ _ _ _ (FolderRepo_listByDataroom_run O _ _)) in Hrun.
  rewrite (bind_run _ _ _ _ _ (FolderRepo_listByDataroom_run O _ _))
    in Himpact.
  rewrite (bind_run _ _ _ _ _ (FileRepo_listByDataroom_run O _ _)) in Hrun.
  rewrite (bind_run _ _ _ _ _ (FileRepo_listByDataroom_run O _ _))
    in Himpact.
  apply bind_Ok_inv in Hrun as (D & w3 & [HD ->]%orStackOverflow_Ok & Hrun).
  apply bind_Ok_inv in Himpact
    as (c & w4 & [Hc ->]%orStackOverflow_Ok & Himpact).
  injection Himpact as <- <-.
  rewrite (countDescendants_spec _ _ _ _ _ _ _ _ Hc HD).
  apply bind_Ok_inv in Hrun as (nf & w5 & Hfiles & Hrun).
  rewrite deleteFilesIn_flat in Hfiles.
  apply deleteOneFile_counts in Hfiles. simpl in Hfiles.
  apply bind_Ok_inv in Hrun as (nd & w6 & Hfolders & Hrun).
  change (foldM (λ deleted folderId,
                   FolderRepo_delete folderId;; ret (S deleted))
            0 (rev D)) with (foldM deleteOneFolder 0 (rev D)) in Hfolders.
  destruct (deleteFolders_loop (rev D) w5 0) as (w6' & Hloop & _).
  rewrite Hloop in Hfolders. injection Hfolders as <- <-.
  apply bind_Ok_inv in Hrun as (u & w7 & _ & Hrun).
  apply bind_Ok_inv in Hrun as (n & w8 & _ & Hrun).
  injection Hrun as <- _.
  split; [|done]. simpl. rewrite length_rev, Hfiles. f_equal. lia.
Qed.

Section FolderTree.

Variable fs : list Folder.

Lemma buildNode_S stack folder parent depth :
  buildNode (S stack) fs folder parent depth
  = (λ nodes, mkTreeNode (folder_id folder) (folder_name folder) nodes
                parent depth 0
                (length (List.filter (isChildFolderOf (folder_id folder)) fs)))
      <$> mapM (λ child, buildNode stack fs child (Some (folder_id folder))
                           (S depth))
            (List.filter (isChildFolderOf (folder_id folder)) fs).
Proof. simpl. by destruct (mapM _ _). Qed.

Lemma mapM_cons_option {A B} (f : A → option B) x l :
  mapM f (x :: l)
  = match f x, mapM f l with
    | Some y, Some k => Some (y :: k)
    | _, _ => None
    end.
Proof. simpl. destruct (f x); [|done]. simpl. by destruct (mapM f l). Qed.

(** The ids of the nodes built for a list of children, given those of
    the node built for each child. *)
Lemma children_ids spread d (f : Folder → option TreeNode) cs nodes D :
  (∀ c node Dc,
     f c = Some node →
     getDescendantFolderIds spread d (folder_id c) fs = Some Dc →
     nodeIds node = folder_id c :: Dc) →
  mapM f cs = Some nodes →
  collect spread fs d cs = Some D →
  flat_map nodeIds nodes = D.
Proof.
  intros Hchild. revert nodes D.
  induction cs as [|c cs IHcs]; intros nodes D Hnodes HD.
  - injection Hnodes as <-. by injection HD as <-.
  - rewrite mapM_cons_option in Hnodes.
    destruct (f c) as [node|] eqn:Hnode; [|done].
    destruct (mapM f cs) as [rest|]; [|done]. injection Hnodes as <-.
    apply collect_cons in HD as (Dc & Drest & HDc & HDrest & ->).
    simpl. rewrite (Hchild c node Dc Hnode HDc), (IHcs rest Drest eq_refl HDrest).
    done.
Qed.

Lemma buildNode_ids spread stack depth' folder parent depth node D :
  buildNode stack fs folder parent depth = Some node →
  getDescendantFolderIds spread depth' (folder_id folder) fs = Some D →
  nodeIds node = folder_id folder :: D.
Proof.
  revert depth' folder parent depth node D.
  induction stack as [|stack IH];
    intros depth' folder parent depth node D Hnode HD; [done|].
  destruct depth' as [|depth']; [done|].
  rewrite buildNode_S in Hnode. rewrite getDescendantFolderIds_S in HD.
  destruct (mapM _ _) as [nodes|] eqn:Hnodes; simpl in Hnode; [|done].
  injection Hnode as <-. simpl. f_equal.
  eapply children_ids; [|exact Hnodes|exact HD].
  intros c child Dc Hchild HDc. simpl in Hchild.
  eapply IH; [exact Hchild|exact HDc].
Qed.

Lemma buildFolderTree_ids spread stack depth' p roots D :
  buildFolderTree stack fs (Some p) = Some roots →
  getDescendantFolderIds spread depth' p fs = Some D →
  flat_map nodeIds roots = D.
Proof.
  unfold buildFolderTree. intros Hroots HD.
  destruct depth' as [|depth']; [done|].
  rewrite getDescendantFolderIds_S in HD.
  eapply children_ids; [|exact Hroots|exact HD].
  intros c node Dc Hnode HDc. simpl in Hnode.
  eapply buildNode_ids; [exact Hnode|exact HDc].
Qed.

Lemma subnodes_eq node :
  subnodes node = node :: flat_map subnodes (node_children node).
Proof. by destruct node. Qed.

Lemma buildNode_filled stack folder parent depth node :
  buildNode stack fs folder parent depth = Some node →
  nodeOf folder parent depth node
  ∧ ∀ n, n ∈ subnodes node → nodeFilled fs n.
Proof.
  revert folder parent depth node.
  induction stack as [|stack IH]; intros folder parent depth node; [done|].
  rewrite buildNode_S.
  set (cs := List.filter (isChildFolderOf (folder_id folder)) fs).
  destruct (mapM _ cs) as [nodes|] eqn:Hnodes; [|done].
  intros [= <-]. split; [done|].
  apply mapM_Some in Hnodes.
  intros n. rewrite subnodes_eq. simpl.
  rewrite elem_of_cons, list_elem_of_In, in_flat_map.
  intros [->|(child & Hchild & Hn)].
  - unfold nodeFilled. simpl. fold cs.
    split; [done|]. split; [by eapply Forall2_length|].
    eapply Forall2_impl; [exact Hnodes|].
    intros c child' Hc. by apply IH in Hc as [Hc _].
  - apply list_elem_of_In in Hchild, Hn.
    apply list_elem_of_lookup in Hchild as [i Hi].
    destruct (Forall2_lookup_r _ _ _ _ _ Hnodes Hi) as (c & _ & Hc).
    apply IH in Hc as [_ Hc]. by apply Hc.
Qed.

End FolderTree.

(** X10. Read a node before its children, the tree that [buildFolderTree]
    builds under a folder lists the ids that [getDescendantFolderIds]
    lists for that folder, in the same order: whenever both return,
    whatever the stack leaves to each of them. *)
Theorem buildFolderTree_lists_descendants
    (spread : nat → nat) (stack depth : nat) (folders : list Folder)
    (parentId : ID) (roots : list TreeNode) (descendants : list ID) :
  buildFolderTree stack folders (Some parentId) = Some roots →
  getDescendantFolderIds spread depth parentId folders = Some descendants →
  flat_map nodeIds roots = descendants.
Proof. apply buildFolderTree_ids. Qed.

(** X11. What the nodes of the tree hold. A root has depth 0 and no parent
    and comes from a folder whose parent is the one asked for. In every
    node of the tree, [fileCount] is 0 (it is never filled in),
    [folderCount] is the number of children, and the children are, in the
    order of the list, the folders whose parent is the node, one level
    deeper and with the node as parent. *)
Theorem buildFolderTree_nodes
    (stack : nat) (folders : list Folder) (parentId : option ID)
    (roots : list TreeNode) :
  buildFolderTree stack folders parentId = Some roots →
  Forall2 (λ folder root, nodeOf folder None 0 root)
    (List.filter (λ folder, bool_decide (folder_parentId folder = parentId))
       folders)
    roots
  ∧ ∀ root node, root ∈ roots → node ∈ subnodes root →
                 nodeFilled folders node.
Proof.
  unfold buildFolderTree. intros Hroots%mapM_Some. split.
  - eapply Forall2_impl; [exact Hroots|].
    intros folder root Hroot. by apply buildNode_filled in Hroot as [? _].
  - intros root node Hroot Hnode.
    apply list_elem_of_lookup in Hroot as [i Hi].
    destruct (Forall2_lookup_r _ _ _ _ _ Hroots Hi) as (folder & _ & Hbuilt).
    apply buildNode_filled in Hbuilt as [_ Hall]. by apply Hall.
Qed.

Section Breadcrumbs.

Lemma folderMapOf_acc (fs : list Folder) (acc : gmap string Folder) k f :
  foldl (λ folderMap folder, <[folder_id folder := folder]> folderMap) acc fs
    !! k = Some f →
  (f ∈ fs ∧ folder_id f = k) ∨ acc !! k = Some f.
Proof.
  revert acc. induction fs as [|g fs IH]; intros acc Hk; [by right|].
  simpl in Hk. apply IH in Hk as [[Hin Hid]|Hk].
  - left. split; [by right|done].
  - destruct (decide (folder_id g = k)) as [<-|Hne].
    + rewrite lookup_insert_eq in Hk. injection Hk as <-. left.
      split; [by left|done].
    + rewrite lookup_insert_ne in Hk by done. by right.
Qed.

(** The map holds folders of the list, each under its id ... *)
Lemma folderMapOf_Some fs k f :
  folderMapOf fs !! k = Some f → f ∈ fs ∧ folder_id f = k.
Proof.
  intros [H|H]%folderMapOf_acc; [done|]. by rewrite lookup_empty in H.
Qed.

(** ... and all of them when no id occurs twice. *)
Lemma folderMapOf_lookup fs f :
  NoDup (folder_id <$> fs) → f ∈ fs → folderMapOf fs !! folder_id f = Some f.
Proof.
  unfold folderMapOf. generalize (∅ : gmap string Folder).
  induction fs as [|g fs IH]; intros acc Hnd Hf.
  - by apply elem_of_nil in Hf.
  - rewrite fmap_cons in Hnd. apply NoDup_cons in Hnd as [Hg Hnd].
    simpl. apply elem_of_cons in Hf as [->|Hf]; [|by apply IH].
    clear IH. revert acc.
    induction fs as [|h fs IH]; intros acc.
    + simpl. apply lookup_insert_eq.
    + simpl. rewrite fmap_cons in Hg, Hnd.
      apply not_elem_of_cons in Hg as [Hgh Hg].
      apply NoDup_cons in Hnd as [_ Hnd].
      rewrite insert_insert_ne by done. by apply IH.
Qed.

Lemma tracePath_chain fuel m cur acc path :
  tracePath fuel m cur acc = Some path →
  ∃ l, path = rev l ++ acc ∧ upChain m l ∧ head l = cur.
Proof.
  revert cur acc path.
  induction fuel as [|fuel IH]; intros [c|] acc path Hrun;
    try (injection Hrun as <-; by exists []); [done|].
  simpl in Hrun.
  destruct (truthyOpt (folder_parentId c)) eqn:Htruthy.
  - apply IH in Hrun as (l & -> & Hchain & Hhead).
    exists (c :: l). split; [simpl; by rewrite <- app_assoc|].
    split; [|done]. simpl. destruct l as [|g l].
    + right. by rewrite <- Hhead.
    + simpl in Hhead. by rewrite <- Hhead.
  - injection Hrun as <-. exists [c]. split; [done|]. split; [by left|done].
Qed.

Lemma tracePath_None fuel m acc : tracePath fuel m None acc = Some acc.
Proof. by destruct fuel. Qed.

Lemma tracePath_returns (rank : ID → nat) fuel m c acc :
  (∀ k f, m !! k = Some f → folder_id f = k) →
  (∀ k f p g, m !! k = Some f → folder_parentId f = Some p →
              m !! p = Some g → rank p < rank k) →
  m !! folder_id c = Some c →
  rank (folder_id c) < fuel →
  is_Some (tracePath fuel m (Some c) acc).
Proof.
  intros Hkeys Hrank. revert c acc.
  induction fuel as [|fuel IH]; intros c acc Hc Hfuel; [lia|].
  simpl. destruct (truthyOpt (folder_parentId c)) eqn:Htruthy; [|by eexists].
  destruct (folder_parentId c) as [p|] eqn:Hp; [|done]. simpl.
  destruct (m !! p) as [g|] eqn:Hg; [|rewrite tracePath_None; by eexists].
  pose proof (Hkeys p g Hg) as <-.
  apply IH; [done|].
  specialize (Hrank _ _ _ _ Hc Hp Hg). lia.
Qed.

Lemma upChain_members m l :
  upChain m l →
  (∀ c, head l = Some c → ∃ k, m !! k = Some c) →
  ∀ f, f ∈ l → ∃ k, m !! k = Some f.
Proof.
  induction l as [|g l IH]; intros Hchain Hhead f Hf.
  - by apply elem_of_nil in Hf.
  - apply elem_of_cons in Hf as [->|Hf]; [by apply Hhead|].
    destruct l as [|p l]; [by apply elem_of_nil in Hf|].
    destruct Hchain as (_ & Hp & Hchain).
    apply IH; [done| |done].
    intros c [= <-]. destruct (folder_parentId g) as [k|]; [|done].
    by exists k.
Qed.

End Breadcrumbs.

(** X12. What [buildBreadcrumbs] answers when its loop ends. The first
    crumb is the room. After it come folders of the list; read from the
    last to the first, each is followed by its parent as the map of the
    folders has it, and the first of them has no parent in the map. The
    last one is the folder asked for; when the id asked for is null, empty
    or not the id of a folder of the list, the room is the only crumb. *)
Theorem buildBreadcrumbs_path
    (fuel : nat) (folderId : option ID) (folders : list Folder)
    (dataroomName : string) (dataroomId : ID)
    (breadcrumbs : list BreadcrumbItem) :
  buildBreadcrumbs fuel folderId folders dataroomName dataroomId
  = Some breadcrumbs →
  ∃ path,
    breadcrumbs
    = mkBreadcrumbItem dataroomId dataroomName CrumbDataroom
        :: (folderCrumb <$> path)
    ∧ upChain (folderMapOf folders) (rev path)
    ∧ head (rev path)
      = (if truthyOpt folderId then folderId ≫= (folderMapOf folders !!.)
         else None)
    ∧ ∀ folder, folder ∈ path → folder ∈ folders.
Proof.
  unfold buildBreadcrumbs.
  destruct (truthyOpt folderId) eqn:Htruthy; simpl.
  2:{ intros [= <-]. exists []. repeat split; try done.
      by intros ? ?%elem_of_nil. }
  destruct (tracePath _ _ _ _) as [path|] eqn:Hpath; [|done].
  intros [= <-]. exists path. split; [done|].
  apply tracePath_chain in Hpath as (l & -> & Hchain & Hhead).
  rewrite app_nil_r, rev_involutive. split; [done|]. split; [done|].
  intros f Hf. rewrite elem_of_rev in Hf.
  destruct (upChain_members _ _ Hchain) with (f := f) as [k Hk]; [|done|].
  - intros c Hc. rewrite Hhead in Hc.
    destruct folderId as [i|]; [|done]. by exists i.
  - by apply folderMapOf_Some in Hk as [? _].
Qed.

Section ReachableCrumbs.

Variable O : Oracle.
Hypothesis Hlaw : lawfulOrders O.

Lemma folderMapOf_room s room k f :
  (∀ k f, folders s !! k = Some f → folder_id f = k) →
  folderMapOf (foldersOfRoom O s room) !! k = Some f
  ↔ folders s !! k = Some f ∧ folder_dataroomId f = room.
Proof.
  intros Hkeys. split.
  - intros [[[k' Hk'] Hroom]%(elem_of_foldersOfRoom O Hlaw) Hid]
      %folderMapOf_Some.
    by rewrite <- Hid, (Hkeys k' f Hk').
  - intros [Hf Hroom]. rewrite <- (Hkeys k f Hf).
    apply folderMapOf_lookup.
    + unfold foldersOfRoom. destruct Hlaw as [Hidx _].
      rewrite (Hidx Folder _). apply NoDup_fmap_filter.
      by apply NoDup_record_keys.
    + apply (elem_of_foldersOfRoom O Hlaw). eauto.
Qed.

End ReachableCrumbs.

(** X13. In a world that a caller has reached, the loop of
    [buildBreadcrumbs] ends, for every folder id and every room, within
    one round more than the number of ids handed out so far; and the map
    that it walks holds exactly the folders of the room, each under its
    id. *)
Theorem buildBreadcrumbs_returns
    (O : Oracle) (w : World) (folderId : option ID) (dataroomName : string)
    (dataroomId : ID) :
  freshIds O → lawfulOrders O → reachable O w →
  is_Some (buildBreadcrumbs (S (idsUsed w)) folderId
             (foldersOfRoom O (store w) dataroomId) dataroomName dataroomId)
  ∧ ∀ k f,
      folderMapOf (foldersOfRoom O (store w) dataroomId) !! k = Some f
      ↔ folders (store w) !! k = Some f ∧ folder_dataroomId f = dataroomId.
Proof.
  intros Hfresh Hlaw Hreach.
  destruct (reachable_inv O Hfresh w Hreach)
    as (Hkeys & _ & rank & Hbound & Hrank).
  assert (∀ k f, folders (store w) !! k = Some f → folder_id f = k) as Hk.
  { intros k f Hf. by destruct (Hkeys k f Hf). }
  split; [|intros k f; by apply folderMapOf_room].
  unfold buildBreadcrumbs.
  destruct (truthyOpt folderId); cbn [negb]; [|by eexists].
  set (m := folderMapOf (foldersOfRoom O (store w) dataroomId)).
  destruct folderId as [id|]; cbn [mbind option_bind];
    [|rewrite tracePath_None; by eexists].
  destruct (m !! id) as [c|] eqn:Hc; [|rewrite tracePath_None; by eexists].
  apply (folderMapOf_room O Hlaw _ _ _ _ Hk) in Hc as Hc'.
  destruct Hc' as [Hc' _]. pose proof (Hk id c Hc') as Hid.
  destruct (tracePath_returns rank (S (idsUsed w)) m c []) as [path Hpath].
  - intros k f [Hf _]%(folderMapOf_room O Hlaw _ _ _ _ Hk). by apply Hk.
  - intros k f p g [Hf _]%(folderMapOf_room O Hlaw _ _ _ _ Hk) Hp
      [Hg _]%(folderMapOf_room O Hlaw _ _ _ _ Hk).
    eapply Hrank; [done..|]. by eexists.
  - by rewrite Hid.
  - specialize (Hbound (folder_id c)). lia.
  - rewrite Hpath. by eexists.
Qed.

(** * More on the repositories *)

(** X14. A blob that was put is the blob that is got. [put] returns its key
    and stores the data under it, overwriting what was there; after it,
    [get] and [getRequired] answer the data, [exists] answers true, the
    blobs under the other keys are as they were and so are the other
    tables. *)
Theorem BlobRepo_put_then_get (key : ID) (data : JsFile) (w : World) :
  ∃ w1, BlobRepo_put key data w = (Ok key, w1)
        ∧ (BlobRepo_get key w1).1 = Ok (Some data)
        ∧ (BlobRepo_getRequired key w1).1 = Ok data
        ∧ (BlobRepo_exists key w1).1 = Ok true
        ∧ (∀ k, k ≠ key → blobs (store w1) !! k = blobs (store w) !! k)
        ∧ datarooms (store w1) = datarooms (store w)
        ∧ folders (store w1) = folders (store w)
        ∧ files (store w1) = files (store w).
Proof.
  eexists. split; [reflexivity|].
  unfold BlobRepo_get, BlobRepo_getRequired, BlobRepo_get, BlobRepo_exists,
    wrapBlobError, tryCatch, bind. simpl.
  rewrite !lookup_insert_eq. simpl. repeat split; try done.
  intros k Hk. by rewrite lookup_insert_ne.
Qed.

(** X15. A blob that was deleted is gone, and deleting is not an error where
    there is nothing to delete. [delete] returns for every key; after it,
    [get] answers undefined, [exists] answers false, [createBlobUrl]
    answers null, and [getRequired] throws [NotFoundError] for the resource
    "Blob" and the key; the blobs under the other keys are as they
    were. *)
Theorem BlobRepo_delete_then_gone (O : Oracle) (key : ID) (w : World) :
  ∃ w1, BlobRepo_delete key w = (Ok tt, w1)
        ∧ (BlobRepo_get key w1).1 = Ok None
        ∧ (BlobRepo_exists key w1).1 = Ok false
        ∧ (BlobRepo_createBlobUrl O key w1).1 = Ok None
        ∧ (BlobRepo_getRequired key w1).1 = Err (NotFoundError "Blob" key)
        ∧ (∀ k, k ≠ key → blobs (store w1) !! k = blobs (store w) !! k).
Proof.
  eexists. split; [reflexivity|].
  unfold BlobRepo_createBlobUrl, BlobRepo_getRequired, BlobRepo_get,
    BlobRepo_exists, wrapBlobError, tryCatch, bind. simpl.
  rewrite !lookup_delete_eq. simpl. repeat split; try done.
  intros k Hk. by rewrite lookup_delete_ne.
Qed.

Section DeleteMany.

(** The body of the loop of [deleteMany]. *)
Lemma deleteMany_loop keys :
  ∀ n w,
    ∃ m w1,
      foldM deleteOneBlob n keys w = (Ok m, w1)
      ∧ blobs (store w1) = filter (λ kv, kv.1 ∉ keys) (blobs (store w))
      ∧ m + size (blobs (store w1)) = n + size (blobs (store w))
      ∧ datarooms (store w1) = datarooms (store w)
      ∧ folders (store w1) = folders (store w)
      ∧ files (store w1) = files (store w)
      ∧ idsUsed w1 = idsUsed w.
Proof.
  induction keys as [|key keys IH]; intros n w.
  - exists n, w. split; [done|]. split; [|done].
    symmetry. apply map_filter_id. intros k x _. apply not_elem_of_nil.
  - change (foldM deleteOneBlob n (key :: keys) w)
      with (bind (deleteOneBlob n key)
              (λ acc, foldM deleteOneBlob acc keys) w).
    destruct (blobs (store w) !! key) as [b|] eqn:Hb.
    + set (w0 := withStore
                   (set_blobs (delete key (blobs (store w))) (store w))
                   (logged (Write TBlobs) (logged (Read TBlobs) w))).
      assert (deleteOneBlob n key w = (Ok (S n), w0)) as Hone.
      { unfold deleteOneBlob, BlobRepo_exists, wrapBlobError, tryCatch, bind.
        simpl. by rewrite Hb. }
      rewrite (bind_run _ _ _ _ _ Hone).
      destruct (IH (S n) w0)
        as (m & w1 & Hrun & Hbl & Hsz & Hdr & Hfo & Hfi & Hi).
      exists m, w1. split; [exact Hrun|]. split; [|split; [|done]].
      * rewrite Hbl. unfold w0. simpl. apply map_eq. intros k.
        rewrite !map_lookup_filter. destruct (decide (k = key)) as [->|Hne].
        -- rewrite lookup_delete_eq, Hb. simpl.
           rewrite option_guard_False; [done|]. simpl. rewrite elem_of_cons.
           tauto.
        -- rewrite lookup_delete_ne by done.
           destruct (blobs (store w) !! k) as [b'|]; [|done]. simpl.
           apply option_guard_iff. simpl. rewrite elem_of_cons. tauto.
      * rewrite Hsz. unfold w0. simpl. rewrite map_size_delete, Hb.
        assert (size (blobs (store w)) ≠ 0); [|lia].
        apply map_size_ne_0_lookup. by exists key.
    + assert (deleteOneBlob n key w = (Ok n, logged (Read TBlobs) w)) as Hone.
      { unfold deleteOneBlob, BlobRepo_exists, wrapBlobError, tryCatch, bind.
        simpl. by rewrite Hb. }
      rewrite (bind_run _ _ _ _ _ Hone).
      destruct (IH n (logged (Read TBlobs) w))
        as (m & w1 & Hrun & Hbl & Hsz & Hrest).
      exists m, w1. split; [exact Hrun|]. split; [|done].
      rewrite Hbl. simpl. apply map_filter_ext. intros k b Hk. simpl.
      rewrite elem_of_cons.
      assert (k ≠ key); [|tauto]. intros ->. by rewrite Hk in Hb.
Qed.

Lemma BlobRepo_deleteMany_ids keys w :
  ∃ n w1, BlobRepo_deleteMany keys w = (Ok n, w1)
          ∧ blobs (store w1) = filter (λ kv, kv.1 ∉ keys) (blobs (store w))
          ∧ n + size (blobs (store w1)) = size (blobs (store w))
          ∧ datarooms (store w1) = datarooms (store w)
          ∧ folders (store w1) = folders (store w)
          ∧ files (store w1) = files (store w)
          ∧ idsUsed w1 = idsUsed w.
Proof.
  destruct (deleteMany_loop keys 0 w) as (n & w1 & Hrun & Hrest).
  exists n, w1. split; [|done].
  unfold BlobRepo_deleteMany, wrapBlobError, tryCatch.
  change (foldM _ 0 keys w) with (foldM deleteOneBlob 0 keys w).
  by rewrite Hrun.
Qed.

End DeleteMany.

(** X16. [deleteMany] returns for every list of keys, a key that is listed
    twice or under which nothing is stored included. It removes exactly
    the blobs under the listed keys, and the number it returns is the
    number of blobs that left the table: a blob is counted once, however
    often its key is listed. *)
Theorem BlobRepo_deleteMany_counts (keys : list ID) (w : World) :
  ∃ n w1, BlobRepo_deleteMany keys w = (Ok n, w1)
          ∧ blobs (store w1) = filter (λ kv, kv.1 ∉ keys) (blobs (store w))
          ∧ n + size (blobs (store w1)) = size (blobs (store w))
          ∧ datarooms (store w1) = datarooms (store w)
          ∧ folders (store w1) = folders (store w)
          ∧ files (store w1) = files (store w).
Proof.
  destruct (BlobRepo_deleteMany_ids keys w)
    as (n & w1 & Hrun & Hbl & Hsz & Hro & Hfo & Hfi & _).
  by exists n, w1.
Qed.

Section TableFacts.

Lemma table_add_run {A} (T : TableOf A) (x : A) w :
  table_add T x w
  = match tb_get T (store w) !! tb_key T x with
    | Some _ => (Err ConstraintError, logged (Write (tb_name T)) w)
    | None =>
        (Ok tt,
         withStore (tb_set T (<[tb_key T x := x]> (tb_get T (store w)))
                      (store w))
           (logged (Write (tb_name T)) w))
    end.
Proof.
  unfold table_add, bind. simpl.
  by destruct (tb_get T (store w) !! tb_key T x).
Qed.

Lemma filter_length_Permutation {A} (p : A → bool) (l l' : list A) :
  l ≡ₚ l' → length (List.filter p l) = length (List.filter p l').
Proof.
  induction 1 as [|x l l' _ IH|x y l|l l' l'' _ IH _ IH']; simpl.
  - done.
  - destruct (p x); simpl; lia.
  - by destruct (p x), (p y).
  - lia.
Qed.

Lemma length_filter_records {A} (p : A → bool) (t : gmap string A) :
  length (List.filter p (records t)) = size (filter (λ kv, p kv.2) t).
Proof.
  induction t as [|k x t Hk Hfirst IH] using map_first_key_ind.
  - unfold records. by rewrite map_to_list_empty, map_filter_empty, map_size_empty.
  - unfold records in *. rewrite map_to_list_insert_first_key by done.
    rewrite fmap_cons. cbn [List.filter snd]. destruct (p x) eqn:Hp.
    + rewrite map_filter_insert_True by (simpl; by rewrite Hp).
      rewrite map_size_insert_None; [cbn [length]; by rewrite IH|].
      by rewrite map_lookup_filter, Hk.
    + rewrite map_filter_insert_False by (simpl; rewrite Hp; exact id).
      by rewrite (delete_id _ _ Hk).
Qed.

Lemma size_filter_complement {A} (P : string * A → Prop)
    `{!∀ x, Decision (P x)} (t : gmap string A) :
  size (filter P t) + size (filter (λ kv, ¬ P kv) t) = size t.
Proof.
  rewrite <- (map_filter_union_complement P t) at 3.
  symmetry. apply map_size_disj_union, map_disjoint_filter_complement.
Qed.

Lemma foldr_delete_lookup {A} (t : gmap string A) keys k :
  foldr delete t keys !! k = if decide (k ∈ keys) then None else t !! k.
Proof.
  induction keys as [|key keys IH]; cbn [fold_right].
  - case_decide as H; [by apply elem_of_nil in H|done].
  - destruct (decide (k = key)) as [->|Hne].
    + rewrite lookup_delete_eq. by rewrite decide_True by left.
    + rewrite lookup_delete_ne, IH by done.
      destruct (decide (k ∈ keys)).
      * by rewrite decide_True by by right.
      * rewrite decide_False; [done|]. rewrite elem_of_cons. tauto.
Qed.

End TableFacts.

(** X17. [insert] never overwrites. Under an id that is taken, the insert of
    a file, a folder or a room throws [DatabaseError] and leaves the
    store as it is (compare [BlobRepo.put], which overwrites); under a
    free id it returns the id, and [getRequired] then answers the record
    that was inserted. *)
Theorem repo_insert_never_overwrites (w : World) :
  (∀ file,
     match files (store w) !! file_id file with
     | Some _ =>
         FileRepo_insert file w = (Err DatabaseError, logged (Write TFiles) w)
     | None =>
         ∃ w1, FileRepo_insert file w = (Ok (file_id file), w1)
               ∧ files (store w1) = <[file_id file := file]> (files (store w))
               ∧ (FileRepo_getRequired (file_id file) w1).1 = Ok file
     end)
  ∧ (∀ folder,
       match folders (store w) !! folder_id folder with
       | Some _ =>
           FolderRepo_insert folder w
           = (Err DatabaseError, logged (Write TFolders) w)
       | None =>
           ∃ w1, FolderRepo_insert folder w = (Ok (folder_id folder), w1)
                 ∧ folders (store w1)
                   = <[folder_id folder := folder]> (folders (store w))
                 ∧ (FolderRepo_getRequired (folder_id folder) w1).1
                   = Ok folder
       end)
  ∧ (∀ dataroom,
       match datarooms (store w) !! room_id dataroom with
       | Some _ =>
           DataroomRepo_insert dataroom w
           = (Err DatabaseError, logged (Write TDatarooms) w)
       | None =>
           ∃ w1, DataroomRepo_insert dataroom w = (Ok (room_id dataroom), w1)
                 ∧ datarooms (store w1)
                   = <[room_id dataroom := dataroom]> (datarooms (store w))
                 ∧ (DataroomRepo_getRequired (room_id dataroom) w1).1
                   = Ok dataroom
       end).
Proof.
  split; [|split].
  - intros file. unfold FileRepo_insert, wrapDatabaseError, tryCatch, bind.
    rewrite (table_add_run db_files). simpl.
    destruct (files (store w) !! file_id file); [done|].
    eexists. split; [reflexivity|]. split; [done|].
    unfold FileRepo_getRequired, FileRepo_get, wrapDatabaseError, tryCatch,
      bind. simpl. by rewrite lookup_insert_eq.
  - intros folder.
    unfold FolderRepo_insert, wrapDatabaseError, tryCatch, bind.
    rewrite (table_add_run db_folders). simpl.
    destruct (folders (store w) !! folder_id folder); [done|].
    eexists. split; [reflexivity|]. split; [done|].
    unfold FolderRepo_getRequired, FolderRepo_get, wrapDatabaseError,
      tryCatch, bind. simpl. by rewrite lookup_insert_eq.
  - intros dataroom.
    unfold DataroomRepo_insert, wrapDatabaseError, tryCatch, bind.
    rewrite (table_add_run db_datarooms). simpl.
    destruct (datarooms (store w) !! room_id dataroom); [done|].
    eexists. split; [reflexivity|]. split; [done|].
    unfold DataroomRepo_getRequired, DataroomRepo_get, wrapDatabaseError,
      tryCatch, bind. simpl. by rewrite lookup_insert_eq.
Qed.

(** X18. Counting agrees with listing. For a room id that is not empty,
    [FileRepo.countInFolder] answers the length of the list that
    [FileRepo.listByParent] answers for the same parent and room, and
    [FolderRepo.countChildren] the length of the list of
    [FolderRepo.listByParent]. *)
Theorem repo_count_agrees_with_list
    (O : Oracle) (parentId : option ID) (dataroomId : ID) (w : World) :
  lawfulOrders O →
  dataroomId ≠ "" →
  (∃ l w1 w2,
     FileRepo_listByParent O parentId dataroomId w = (Ok l, w1)
     ∧ FileRepo_countInFolder parentId dataroomId w = (Ok (length l), w2))
  ∧ (∀ p, ∃ l w1 w2,
       FolderRepo_listByParent O (Some p) dataroomId w = (Ok l, w1)
       ∧ FolderRepo_countChildren p dataroomId w = (Ok (length l), w2)).
Proof.
  intros [Hidx Hsort] Hroom. split.
  - unfold FileRepo_listByParent, FileRepo_countInFolder, truthy.
    rewrite bool_decide_eq_true_2 by done.
    destruct parentId as [p|]; eexists _, _, _; (split; [reflexivity|]);
      unfold wrapDatabaseError, tryCatch, table_where_count, bind; simpl;
      by rewrite Hsort, Hidx.
  - intros p. eexists _, _, _. split; [reflexivity|].
    unfold FolderRepo_countChildren, wrapDatabaseError, tryCatch,
      table_where_count, bind. simpl. by rewrite Hsort, Hidx.
Qed.

Section DeleteByFolder.

Variable O : Oracle.
Hypothesis Hlaw : lawfulOrders O.

Lemma files_bulkDelete_filter (t : gmap string FileObject) (p : FileObject → bool) :
  (∀ k f, t !! k = Some f → file_id f = k) →
  foldr delete t (file_id <$> indexOrder O _ (List.filter p (records t)))
  = filter (λ kv, ¬ p kv.2) t.
Proof.
  intros Hkeys. apply map_eq. intros k.
  rewrite foldr_delete_lookup, map_lookup_filter.
  destruct (t !! k) as [f|] eqn:Hf; simpl.
  - destruct (p f) eqn:Hp.
    + rewrite decide_True.
      * rewrite option_guard_False; [done|].
        intros Hn. by apply Hn.
      * apply list_elem_of_fmap. exists f. split; [by rewrite (Hkeys k f Hf)|].
        apply (elem_of_indexOrder O Hlaw).
        apply list_elem_of_In, filter_In. split; [|done].
        apply list_elem_of_In, elem_of_records. eauto.
    + rewrite decide_False.
      * rewrite option_guard_True; [done|].
        exact id.
      * intros (g & Hid & Hg)%list_elem_of_fmap.
        rewrite (elem_of_indexOrder O Hlaw) in Hg.
        apply list_elem_of_In, filter_In in Hg as [Hg Hpg].
        apply list_elem_of_In, elem_of_records in Hg as [k' Hk'].
        rewrite (Hkeys k' g Hk') in Hid. subst k'.
        rewrite Hf in Hk'. injection Hk' as <-. congruence.
  - case_decide; done.
Qed.

End DeleteByFolder.

(** X19. [FileRepo.deleteByFolder] removes the records of the files that sit
    directly in the folder (the root of the room for a null parent), and
    nothing else: the number it returns is the number of records that left
    the table, and the table of blobs is as it was, so the blobs of the
    removed files stay behind. *)
Theorem FileRepo_deleteByFolder_leaves_blobs
    (O : Oracle) (parentId : option ID) (dataroomId : ID) (w : World) :
  lawfulOrders O →
  (∀ k f, files (store w) !! k = Some f → file_id f = k) →
  ∃ n w1,
    FileRepo_deleteByFolder O parentId dataroomId w = (Ok n, w1)
    ∧ files (store w1)
      = filter (λ kv, ¬ (file_dataroomId kv.2 = dataroomId
                         ∧ file_parentId kv.2 = parentId))
          (files (store w))
    ∧ n + size (files (store w1)) = size (files (store w))
    ∧ blobs (store w1) = blobs (store w)
    ∧ folders (store w1) = folders (store w)
    ∧ datarooms (store w1) = datarooms (store w).
Proof.
  intros Hlaw Hkeys.
  assert (∀ p : FileObject → bool,
            (∀ f, p f ↔ file_dataroomId f = dataroomId
                        ∧ file_parentId f = parentId) →
            filter (λ kv, ¬ p kv.2) (files (store w))
            = filter (λ kv, ¬ (file_dataroomId kv.2 = dataroomId
                               ∧ file_parentId kv.2 = parentId))
                (files (store w))
            ∧ length (List.filter p (records (files (store w))))
              + size (filter (λ kv, ¬ p kv.2) (files (store w)))
              = size (files (store w))) as Hgen.
  { intros p Hp. split.
    - apply map_filter_ext. intros k f _. simpl. by rewrite Hp.
    - rewrite length_filter_records. apply size_filter_complement. }
  unfold FileRepo_deleteByFolder. destruct parentId as [parent|].
  - set (p := λ file : FileObject,
                bool_decide (file_dataroomId file = dataroomId)
                && bool_decide (file_parentId file = Some parent)).
    destruct (Hgen p) as [Hfilter Hsize].
    { intros f. unfold p. by rewrite andb_True, !bool_decide_spec. }
    eexists _, _. split; [reflexivity|]. simpl.
    fold p. by rewrite <- Hfilter.
  - set (p := λ file : FileObject,
                bool_decide (file_dataroomId file = dataroomId)
                && bool_decide (file_parentId file = None)).
    destruct (Hgen p) as [Hfilter Hsize].
    { intros f. unfold p. by rewrite andb_True, !bool_decide_spec. }
    set (L := indexOrder O _ (List.filter p (records (files (store w))))).
    exists (length L),
      (withStore
         (set_files (foldr delete (files (store w)) (file_id <$> L))
            (store w))
         (logged (Write TFiles) (logged (Read TFiles) w))).
    split; [reflexivity|].
    cbn [store withStore files set_files blobs folders datarooms logged].
    unfold L.
    rewrite (files_bulkDelete_filter O Hlaw _ p Hkeys), <- Hfilter.
    destruct Hlaw as [Hidx _]. by rewrite Hidx.
Qed.

(** * Runs of the repositories *)

Section MoreRuns.

Variable O : Oracle.

Lemma DataroomRepo_list_run w :
  DataroomRepo_list O w
  = (Ok (roomsListed O (store w)), logged (Read TDatarooms) w).
Proof. reflexivity. Qed.

Lemma DataroomRepo_getRequired_run id w :
  DataroomRepo_getRequired id w
  = (match datarooms (store w) !! id with
     | Some d => Ok d
     | None => Err (NotFoundError "Dataroom" id)
     end, logged (Read TDatarooms) w).
Proof.
  unfold DataroomRepo_getRequired, DataroomRepo_get, wrapDatabaseError,
    tryCatch, bind. simpl. by destruct (datarooms (store w) !! id).
Qed.

Lemma FolderRepo_getRequired_run' id w :
  FolderRepo_getRequired id w
  = (match folders (store w) !! id with
     | Some f => Ok f
     | None => Err (NotFoundError "Folder" id)
     end, logged (Read TFolders) w).
Proof.
  unfold FolderRepo_getRequired, FolderRepo_get, wrapDatabaseError,
    tryCatch, bind. simpl. by destruct (folders (store w) !! id).
Qed.

Lemma FileRepo_getRequired_run' id w :
  FileRepo_getRequired id w
  = (match files (store w) !! id with
     | Some f => Ok f
     | None => Err (NotFoundError "File" id)
     end, logged (Read TFiles) w).
Proof.
  unfold FileRepo_getRequired, FileRepo_get, wrapDatabaseError,
    tryCatch, bind. simpl. by destruct (files (store w) !! id).
Qed.

Lemma FolderRepo_listByParent_run parentId room w :
  FolderRepo_listByParent O parentId room w
  = (Ok (siblingFolders O (store w) parentId room),
     logged (Read TFolders) w).
Proof. by destruct parentId. Qed.

Lemma FolderRepo_nameExistsInParent_run name parentId room excludeId w :
  FolderRepo_nameExistsInParent O name parentId room excludeId w
  = (Ok (folderNameTaken name excludeId
           (siblingFolders O (store w) parentId room)),
     logged (Read TFolders) w).
Proof. by destruct parentId. Qed.

Lemma FileRepo_listByParent_run parentId room w :
  room ≠ "" →
  FileRepo_listByParent O parentId room w
  = (Ok (siblingFiles O (store w) parentId room), logged (Read TFiles) w).
Proof.
  intros Hroom. unfold FileRepo_listByParent, truthy.
  rewrite bool_decide_eq_true_2 by done. by destruct parentId.
Qed.

Lemma FileRepo_nameExistsInParent_run name parentId room excludeId w :
  room ≠ "" →
  FileRepo_nameExistsInParent O name parentId room excludeId w
  = (Ok (fileNameTaken name excludeId
           (siblingFiles O (store w) parentId room)),
     logged (Read TFiles) w).
Proof.
  intros Hroom. unfold FileRepo_nameExistsInParent, wrapDatabaseError,
    tryCatch, bind.
  by rewrite (FileRepo_listByParent_run _ _ _ Hroom).
Qed.

Lemma requireParentFolder_run parentId w :
  ∃ w1, store w1 = store w ∧ idsUsed w1 = idsUsed w
        ∧ instantsUsed w1 = instantsUsed w
        ∧ requireParentFolder parentId w
          = (match parentId with
             | Some p =>
                 if truthy p
                 then match folders (store w) !! p with
                      | Some _ => Ok tt
                      | None => Err (NotFoundError "Folder" p)
                      end
                 else Ok tt
             | None => Ok tt
             end, w1).
Proof.
  unfold requireParentFolder. destruct parentId as [p|]; [|by exists w].
  destruct (truthy p); [|by exists w].
  unfold bind. rewrite FolderRepo_getRequired_run'.
  exists (logged (Read TFolders) w).
  by destruct (folders (store w) !! p).
Qed.

End MoreRuns.

Section Listings.

Variable O : Oracle.
Hypothesis Hlaw : lawfulOrders O.

Lemma elem_of_sortOrder {A} (l : list A) x : x ∈ sortOrder O A l ↔ x ∈ l.
Proof. destruct Hlaw as [_ Hsort]. by rewrite (Hsort A l). Qed.

Lemma elem_of_roomsListed s d :
  d ∈ roomsListed O s ↔ ∃ k, datarooms s !! k = Some d.
Proof.
  unfold roomsListed.
  rewrite elem_of_sortOrder, (elem_of_indexOrder O Hlaw), list_elem_of_In,
    filter_In, <- list_elem_of_In, elem_of_records. tauto.
Qed.

Lemma elem_of_siblingFolders s parentId room f :
  f ∈ siblingFolders O s parentId room
  ↔ (∃ k, folders s !! k = Some f)
    ∧ folder_dataroomId f = room ∧ folder_parentId f = parentId.
Proof.
  unfold siblingFolders. rewrite elem_of_sortOrder.
  destruct parentId as [p|];
    rewrite (elem_of_indexOrder O Hlaw), list_elem_of_In, filter_In,
      <- list_elem_of_In, elem_of_records, andb_true_iff,
      !bool_decide_eq_true; tauto.
Qed.

Lemma elem_of_siblingFiles s parentId room f :
  f ∈ siblingFiles O s parentId room
  ↔ (∃ k, files s !! k = Some f)
    ∧ file_dataroomId f = room ∧ file_parentId f = parentId.
Proof.
  unfold siblingFiles. rewrite elem_of_sortOrder.
  destruct parentId as [p|];
    rewrite (elem_of_indexOrder O Hlaw), list_elem_of_In, filter_In,
      <- list_elem_of_In, elem_of_records, andb_true_iff,
      !bool_decide_eq_true; tauto.
Qed.

End Listings.

Lemma folderNameTaken_spec name excludeId siblings :
  folderNameTaken name excludeId siblings = true
  ↔ ∃ f, f ∈ siblings ∧ folder_name f = name
         ∧ Some (folder_id f) ≠ excludeId.
Proof.
  unfold folderNameTaken. rewrite existsb_exists. split.
  - intros (f & Hf & Hp). apply andb_true_iff in Hp as [Hn Hi].
    apply bool_decide_eq_true in Hn, Hi. exists f.
    by rewrite list_elem_of_In.
  - intros (f & Hf & Hn & Hi). exists f. rewrite <- list_elem_of_In.
    split; [done|]. by rewrite andb_true_iff, !bool_decide_eq_true.
Qed.

Lemma fileNameTaken_spec name excludeId siblings :
  fileNameTaken name excludeId siblings = true
  ↔ ∃ f, f ∈ siblings ∧ file_name f = name ∧ Some (file_id f) ≠ excludeId.
Proof.
  unfold fileNameTaken. rewrite existsb_exists. split.
  - intros (f & Hf & Hp). apply andb_true_iff in Hp as [Hn Hi].
    apply bool_decide_eq_true in Hn, Hi. exists f.
    by rewrite list_elem_of_In.
  - intros (f & Hf & Hn & Hi). exists f. rewrite <- list_elem_of_In.
    split; [done|]. by rewrite andb_true_iff, !bool_decide_eq_true.
Qed.

Section Touch.

Variable O : Oracle.

Lemma roomsTouched_refl d : roomsTouched d d.
Proof. intros k. by destruct (d !! k). Qed.

Lemma roomsTouched_trans d1 d2 d3 :
  roomsTouched d1 d2 → roomsTouched d2 d3 → roomsTouched d1 d3.
Proof.
  intros H12 H23 k. specialize (H12 k). specialize (H23 k).
  destruct (d1 !! k), (d2 !! k), (d3 !! k); try done.
  destruct H12, H23. split; congruence.
Qed.

Lemma DataroomRepo_touch_rooms id w :
  ∃ n w', DataroomRepo_touch O id w = (Ok n, w')
          ∧ roomsTouched (datarooms (store w)) (datarooms (store w'))
          ∧ folders (store w') = folders (store w)
          ∧ files (store w') = files (store w)
          ∧ blobs (store w') = blobs (store w)
          ∧ idsUsed w' = idsUsed w.
Proof.
  unfold DataroomRepo_touch, wrapDatabaseError, tryCatch, table_update,
    bind. simpl.
  destruct (datarooms (store w) !! id) as [d|] eqn:Hd; [case_decide|];
    eexists _, _; (split; [reflexivity|]); simpl;
    (split; [|done]); try apply roomsTouched_refl.
  intros k. destruct (decide (k = id)) as [->|Hne].
  - by rewrite lookup_insert_eq, Hd.
  - rewrite lookup_insert_ne by done. by destruct (datarooms (store w) !! k).
Qed.

End Touch.

(** * Computations that only read *)

Section Quiet.

Variable O : Oracle.

Global Instance quiet_preorder : PreOrder quiet.
Proof.
  split.
  - by intros w.
  - intros w1 w2 w3 [H1 H1'] [H2 H2']. split; congruence.
Qed.

Lemma access_quiet a : preserves quiet (access a).
Proof. by intros w r w' [= _ <-]. Qed.

Lemma getStore_quiet : preserves quiet getStore.
Proof. by intros w r w' [= _ <-]. Qed.

Lemma Date_now_quiet : preserves quiet (Date_now O).
Proof. by intros w r w' [= _ <-]. Qed.

Lemma table_get_quiet {A} (T : TableOf A) key :
  preserves quiet (table_get T key).
Proof. by intros w r w' [= _ <-]. Qed.

Lemma table_where_quiet {A} (T : TableOf A) p :
  preserves quiet (table_where O T p).
Proof. by intros w r w' [= _ <-]. Qed.

End Quiet.

#[global] Hint Resolve access_quiet getStore_quiet Date_now_quiet
  table_get_quiet table_where_quiet : preserves.

Section QuietRepos.

Variable O : Oracle.

Lemma BlobRepo_get_quiet key : preserves quiet (BlobRepo_get key).
Proof. unfold BlobRepo_get, wrapBlobError. preserves_tac. Qed.

Lemma BlobRepo_exists_quiet key : preserves quiet (BlobRepo_exists key).
Proof. unfold BlobRepo_exists, wrapBlobError. preserves_tac. Qed.

Lemma DataroomRepo_get_quiet id : preserves quiet (DataroomRepo_get id).
Proof. unfold DataroomRepo_get, wrapDatabaseError. preserves_tac. Qed.

Hint Resolve DataroomRepo_get_quiet : preserves.

Lemma DataroomRepo_getRequired_quiet id :
  preserves quiet (DataroomRepo_getRequired id).
Proof. unfold DataroomRepo_getRequired. preserves_tac. Qed.

Lemma DataroomRepo_list_quiet : preserves quiet (DataroomRepo_list O).
Proof. unfold DataroomRepo_list, wrapDatabaseError. preserves_tac. Qed.

Lemma FolderRepo_get_quiet id : preserves quiet (FolderRepo_get id).
Proof. unfold FolderRepo_get, wrapDatabaseError. preserves_tac. Qed.

Hint Resolve FolderRepo_get_quiet : preserves.

Lemma FolderRepo_getRequired_quiet id :
  preserves quiet (FolderRepo_getRequired id).
Proof. unfold FolderRepo_getRequired. preserves_tac. Qed.

Lemma FolderRepo_listByParent_quiet parentId dataroomId :
  preserves quiet (FolderRepo_listByParent O parentId dataroomId).
Proof. unfold FolderRepo_listByParent, wrapDatabaseError. preserves_tac. Qed.

Hint Resolve FolderRepo_listByParent_quiet : preserves.

Lemma FolderRepo_listByDataroom_quiet dataroomId :
  preserves quiet (FolderRepo_listByDataroom O dataroomId).
Proof. unfold FolderRepo_listByDataroom, wrapDatabaseError. preserves_tac. Qed.

Lemma FolderRepo_nameExistsInParent_quiet name parentId dataroomId ex :
  preserves quiet (FolderRepo_nameExistsInParent O name parentId dataroomId ex).
Proof.
  unfold FolderRepo_nameExistsInParent, wrapDatabaseError. preserves_tac.
Qed.

Lemma FileRepo_get_quiet id : preserves quiet (FileRepo_get id).
Proof. unfold FileRepo_get, wrapDatabaseError. preserves_tac. Qed.

Hint Resolve FileRepo_get_quiet : preserves.

Lemma FileRepo_getRequired_quiet id :
  preserves quiet (FileRepo_getRequired id).
Proof. unfold FileRepo_getRequired. preserves_tac. Qed.

Lemma FileRepo_listByParent_quiet parentId dataroomId :
  preserves quiet (FileRepo_listByParent O parentId dataroomId).
Proof. unfold FileRepo_listByParent, wrapDatabaseError. preserves_tac. Qed.

Hint Resolve FileRepo_listByParent_quiet : preserves.

Lemma FileRepo_listByDataroom_quiet dataroomId :
  preserves quiet (FileRepo_listByDataroom O dataroomId).
Proof. unfold FileRepo_listByDataroom, wrapDatabaseError. preserves_tac. Qed.

Lemma FileRepo_nameExistsInParent_quiet name parentId dataroomId ex :
  preserves quiet (FileRepo_nameExistsInParent O name parentId dataroomId ex).
Proof.
  unfold FileRepo_nameExistsInParent, wrapDatabaseError. preserves_tac.
Qed.

Hint Resolve FolderRepo_getRequired_quiet FileRepo_getRequired_quiet
  DataroomRepo_getRequired_quiet : preserves.

Lemma requireParentFolder_quiet parentId :
  preserves quiet (requireParentFolder parentId).
Proof. unfold requireParentFolder. preserves_tac. Qed.

Lemma orStackOverflow_quiet {A} (r : option A) :
  preserves quiet (orStackOverflow r).
Proof. unfold orStackOverflow. preserves_tac. Qed.

Lemma FolderService_get_quiet id : preserves quiet (FolderService_get id).
Proof. unfold FolderService_get. preserves_tac. Qed.

Lemma FileService_get_quiet id : preserves quiet (FileService_get id).
Proof. unfold FileService_get. preserves_tac. Qed.

Lemma DataroomService_get_quiet id : preserves quiet (DataroomService_get id).
Proof. unfold DataroomService_get. preserves_tac. Qed.

End QuietRepos.

#[global] Hint Resolve BlobRepo_get_quiet BlobRepo_exists_quiet
  DataroomRepo_get_quiet DataroomRepo_getRequired_quiet
  DataroomRepo_list_quiet FolderRepo_get_quiet FolderRepo_getRequired_quiet
  FolderRepo_listByParent_quiet FolderRepo_listByDataroom_quiet
  FolderRepo_nameExistsInParent_quiet FileRepo_get_quiet
  FileRepo_getRequired_quiet FileRepo_listByParent_quiet
  FileRepo_listByDataroom_quiet FileRepo_nameExistsInParent_quiet
  requireParentFolder_quiet orStackOverflow_quiet FolderService_get_quiet
  FileService_get_quiet DataroomService_get_quiet : preserves.

(** From a run [H : m w = (r, w')] of a computation that only reads,
    [quiet w w']. *)
Ltac by_quiet H :=
  match type of H with
  | ?m ?w = (?r, ?w') =>
      let Hp := fresh "Hp" in
      assert (preserves quiet m) as Hp by preserves_tac;
      exact (Hp _ _ _ H)
  end.

(** * What the services leave of the store *)

Section FolderEffects.

Variable O : Oracle.
Hypothesis Hlaw : lawfulOrders O.

Lemma liftResult_run {A} (x : Result A) w : liftResult x w = (x, w).
Proof. reflexivity. Qed.

Lemma Date_now_run w : Date_now O w = (Ok (nowAt O (instantsUsed w)), ticked w).
Proof. reflexivity. Qed.

Lemma generateId_run w : generateId O w = (Ok (genId O (idsUsed w)), minted w).
Proof. reflexivity. Qed.

Lemma FolderRepo_insert_run folder w :
  FolderRepo_insert folder w
  = match folders (store w) !! folder_id folder with
    | Some _ => (Err DatabaseError, logged (Write TFolders) w)
    | None =>
        (Ok (folder_id folder),
         withStore (set_folders (<[folder_id folder := folder]>
                                   (folders (store w))) (store w))
           (logged (Write TFolders) w))
    end.
Proof.
  unfold FolderRepo_insert, wrapDatabaseError, tryCatch, bind.
  rewrite (table_add_run db_folders). simpl.
  by destruct (folders (store w) !! folder_id folder).
Qed.

(** The names that the keep-both branch of the services hands to
    [generateUniqueName] are the names of the siblings. *)
Lemma unique_among_folders (l : list Folder) name u g :
  generateUniqueName name (list_to_set (folder_name <$> l)) = Some u →
  g ∈ l → folder_name g ≠ u.
Proof.
  intros Hu Hg Heq.
  destruct (generateUniqueName_total name (list_to_set (folder_name <$> l)))
    as (u' & Hu' & Hfree).
  rewrite Hu in Hu'. injection Hu' as <-. apply Hfree.
  apply elem_of_list_to_set, list_elem_of_fmap. by exists g.
Qed.

(** The branch of [create] on a collision. *)
Lemma FolderService_create_collision normalizedName parent room action s w
    res w1 :
  store w = s →
  (if folderNameTaken normalizedName None (siblingFolders O s parent room)
   then
     match action with
     | Cancel => throw (AlreadyExistsError "Folder" normalizedName)
     | Replace => throw (InvalidOperationError "create folder")
     | KeepBoth =>
         let! siblings := FolderRepo_listByParent O parent room in
         let existingNames : gset string :=
           list_to_set (folder_name <$> siblings) in
         match generateUniqueName normalizedName existingNames with
         | Some uniqueName => ret uniqueName
         | None => throw Diverged
         end
     end
   else ret normalizedName) w = (res, w1) →
  store w1 = store w ∧ idsUsed w1 = idsUsed w
  ∧ ∀ finalName,
      res = Ok finalName →
      (if folderNameTaken normalizedName None (siblingFolders O s parent room)
       then action = KeepBoth
            ∧ generateUniqueName normalizedName
                (list_to_set
                   (folder_name <$> siblingFolders O s parent room))
              = Some finalName
       else finalName = normalizedName)
      ∧ ∀ g, g ∈ siblingFolders O s parent room → folder_name g ≠ finalName.
Proof.
  intros <-. destruct (folderNameTaken _ _ _) eqn:Htaken.
  - destruct action.
    + intros [= <- <-]. by repeat split.
    + unfold bind. rewrite FolderRepo_listByParent_run.
      destruct (generateUniqueName _ _) as [u|] eqn:Hu;
        intros [= <- <-]; (split; [done|]); (split; [done|]);
        intros finalName [= <-]. split; [by split|].
      intros g Hg. by eapply unique_among_folders.
    + intros [= <- <-]. by repeat split.
  - intros [= <- <-]. split; [done|]. split; [done|].
    intros finalName [= <-]. split; [done|].
    intros g Hg Hname.
    apply not_true_iff_false in Htaken. apply Htaken.
    apply folderNameTaken_spec. by exists g.
Qed.

End FolderEffects.

(** What [FolderService.create] leaves. *)
Lemma FolderService_create_effect
    (O : Oracle) (name : string) (room : ID) (parent : option ID)
    (action : NameCollisionAction) (w w' : World) (r : Result Folder) :
  lawfulOrders O →
  FolderService_create O name room parent action w = (r, w') →
  match r with
  | Err _ => store w' = store w ∧ idsUsed w ≤ idsUsed w'
  | Ok folder =>
      folder_id folder = genId O (idsUsed w)
      ∧ folder_dataroomId folder = room
      ∧ folder_parentId folder = parent
      ∧ is_Some (datarooms (store w) !! room)
      ∧ (∀ p, parent = Some p → p = "" ∨ is_Some (folders (store w) !! p))
      ∧ (∀ k g, folders (store w) !! k = Some g →
                folder_dataroomId g = room → folder_parentId g = parent →
                folder_name g ≠ folder_name folder)
      ∧ (if folderNameTaken (normalizeName name) None
            (siblingFolders O (store w) parent room)
         then action = KeepBoth
              ∧ generateUniqueName (normalizeName name)
                  (list_to_set
                     (folder_name <$>
                        siblingFolders O (store w) parent room))
                = Some (folder_name folder)
         else folder_name folder = normalizeName name)
      ∧ folders (store w) !! folder_id folder = None
      ∧ folders (store w')
        = <[folder_id folder := folder]> (folders (store w))
      ∧ roomsTouched (datarooms (store w)) (datarooms (store w'))
      ∧ files (store w') = files (store w)
      ∧ blobs (store w') = blobs (store w)
      ∧ idsUsed w' = S (idsUsed w)
  end.
Proof.
  intros Hlaw Hrun. unfold FolderService_create in Hrun.
  (* the name *)
  unfold bind at 1 in Hrun. rewrite liftResult_run in Hrun.
  destruct (validateName (normalizeName name) KFolder) as [[]|e];
    [|by injection Hrun as <- <-].
  (* the room *)
  unfold bind at 1 in Hrun. rewrite DataroomRepo_getRequired_run in Hrun.
  destruct (datarooms (store w) !! room) as [d|] eqn:Hroom;
    [|by injection Hrun as <- <-].
  (* the parent *)
  unfold bind at 1 in Hrun.
  destruct (requireParentFolder_run parent (logged (Read TDatarooms) w))
    as (w2 & Hs2 & Hi2 & Ht2 & Hparent).
  rewrite Hparent in Hrun. simpl in Hs2, Hi2, Ht2.
  assert (∀ p, parent = Some p → p = "" ∨ is_Some (folders (store w) !! p)
              ∨ match parent with
                | Some p =>
                    if truthy p
                    then match folders (store w) !! p with
                         | Some _ => Ok tt
                         | None => Err (NotFoundError "Folder" p)
                         end
                    else Ok tt
                | None => Ok tt
                end ≠ Ok tt) as Hp.
  { intros p ->. unfold truthy. case_bool_decide as Hne.
    - right. destruct (folders (store w) !! p); [left; by eexists|by right].
    - left. by destruct (decide (p = "")). }
  simpl in Hrun.
  destruct (match parent with Some _ => _ | None => _ end) as [[]|e];
    [|injection Hrun as <- <-; by rewrite Hs2, Hi2].
  assert (∀ p, parent = Some p → p = "" ∨ is_Some (folders (store w) !! p))
    as Hp'.
  { intros p Hpp. destruct (Hp p Hpp) as [?|[?|?]]; auto. done. }
  clear Hp Hparent.
  (* the collision *)
  unfold bind at 1 in Hrun.
  rewrite FolderRepo_nameExistsInParent_run, Hs2 in Hrun.
  set (siblings := siblingFolders O (store w) parent room) in *.
  set (w3 := logged (Read TFolders) w2) in *.
  assert (store w3 = store w) as Hs3 by done.
  assert (idsUsed w3 = idsUsed w) as Hi3 by done.
  apply bind_inv in Hrun as [(finalName & w4 & Hfin & Hrun)|(e & Hfin & ->)];
    apply FolderService_create_collision in Hfin as (Hs4 & Hi4 & Hfin);
    try done; [|split; [congruence|lia]].
  destruct (Hfin finalName eq_refl) as [Hnorm Hfree]. clear Hfin.
  fold siblings in Hfree.
  rewrite (bind_run _ _ _ _ _ (Date_now_run O _)) in Hrun.
  rewrite (bind_run _ _ _ _ _ (generateId_run O _)) in Hrun.
  cbn [idsUsed ticked] in Hrun.
  set (now := nowAt O (instantsUsed w4)) in *.
  set (folder := mkFolder (genId O (idsUsed w4)) room parent finalName now
                   now) in *.
  unfold bind at 1 in Hrun. rewrite FolderRepo_insert_run in Hrun.
  cbn [store minted ticked folder_id folder] in Hrun.
  destruct (folders (store w4) !! genId O (idsUsed w4)) as [g|] eqn:Hfreeid.
  { injection Hrun as <- <-. simpl. split; [congruence|lia]. }
  match type of Hrun with
  | bind (DataroomRepo_touch O room) _ ?w0 = _ =>
      destruct (DataroomRepo_touch_rooms O room w0)
        as (n & w8 & Htouch & Hrooms & Hfo8 & Hfi8 & Hbl8 & Hi8)
  end.
  rewrite (bind_run _ _ _ _ _ Htouch) in Hrun. injection Hrun as <- <-.
  simpl in Hrooms, Hfo8, Hfi8, Hbl8, Hi8.
  subst folder. cbn [folder_id folder_dataroomId folder_parentId folder_name].
  assert (store w4 = store w) as Hs4' by congruence.
  assert (idsUsed w4 = idsUsed w) as Hi4' by congruence.
  clear Hs4 Hi4 Hs3 Hi3 Htouch.
  rewrite Hs4' in *. rewrite Hi4' in *.
  repeat split; try done.
  intros k g Hg Hgr Hgp. apply Hfree.
  apply (elem_of_siblingFolders O Hlaw). eauto.
Qed.

Section UpdateRuns.

Variable O : Oracle.

Lemma FolderRepo_updateName_run id name w :
  ∃ n w1,
    FolderRepo_updateName O id name w = (Ok n, w1)
    ∧ folders (store w1)
      = match folders (store w) !! id with
        | Some f =>
            <[id := renamedFolder f name (nowAt O (instantsUsed w))]>
              (folders (store w))
        | None => folders (store w)
        end
    ∧ datarooms (store w1) = datarooms (store w)
    ∧ files (store w1) = files (store w)
    ∧ blobs (store w1) = blobs (store w)
    ∧ idsUsed w1 = idsUsed w.
Proof.
  unfold FolderRepo_updateName, wrapDatabaseError, tryCatch, table_update,
    bind. simpl.
  destruct (folders (store w) !! id) as [f|] eqn:Hf; [case_decide as Hsame|];
    eexists _, _; (split; [reflexivity|]); simpl; try done.
  split; [|done]. unfold renamedFolder. rewrite Hsame.
  by rewrite insert_id.
Qed.

Lemma FileRepo_updateName_run id name w :
  ∃ n w1,
    FileRepo_updateName O id name w = (Ok n, w1)
    ∧ files (store w1)
      = match files (store w) !! id with
        | Some f =>
            <[id := renamedFile f name (nowAt O (instantsUsed w))]>
              (files (store w))
        | None => files (store w)
        end
    ∧ datarooms (store w1) = datarooms (store w)
    ∧ folders (store w1) = folders (store w)
    ∧ blobs (store w1) = blobs (store w)
    ∧ idsUsed w1 = idsUsed w.
Proof.
  unfold FileRepo_updateName, wrapDatabaseError, tryCatch, table_update,
    bind. simpl.
  destruct (files (store w) !! id) as [f|] eqn:Hf; [case_decide as Hsame|];
    eexists _, _; (split; [reflexivity|]); simpl; try done.
  split; [|done]. unfold renamedFile. rewrite Hsame.
  by rewrite insert_id.
Qed.

Lemma DataroomRepo_updateName_run id name w :
  ∃ n w1,
    DataroomRepo_updateName O id name w = (Ok n, w1)
    ∧ datarooms (store w1)
      = match datarooms (store w) !! id with
        | Some d =>
            <[id := renamedRoom d name (nowAt O (instantsUsed w))]>
              (datarooms (store w))
        | None => datarooms (store w)
        end
    ∧ folders (store w1) = folders (store w)
    ∧ files (store w1) = files (store w)
    ∧ blobs (store w1) = blobs (store w)
    ∧ idsUsed w1 = idsUsed w.
Proof.
  unfold DataroomRepo_updateName, wrapDatabaseError, tryCatch, table_update,
    bind. simpl.
  destruct (datarooms (store w) !! id) as [d|] eqn:Hd;
    [case_decide as Hsame|];
    eexists _, _; (split; [reflexivity|]); simpl; try done.
  split; [|done]. unfold renamedRoom. rewrite Hsame.
  by rewrite insert_id.
Qed.

End UpdateRuns.

Section FolderRename.

Variable O : Oracle.
Hypothesis Hlaw : lawfulOrders O.

(** The branch of [rename] on a collision. *)
Lemma FolderService_rename_collision normalizedName id parent room action s w
    res w1 :
  store w = s →
  (if folderNameTaken normalizedName (Some id)
        (siblingFolders O s parent room)
   then
     match action with
     | Cancel => throw (AlreadyExistsError "Folder" normalizedName)
     | Replace => throw (InvalidOperationError "rename folder")
     | KeepBoth =>
         let! siblings := FolderRepo_listByParent O parent room in
         let existingNames : gset string :=
           list_to_set
             (folder_name <$>
                List.filter (λ f, bool_decide (folder_id f ≠ id)) siblings) in
         match generateUniqueName normalizedName existingNames with
         | Some uniqueName => ret uniqueName
         | None => throw Diverged
         end
     end
   else ret normalizedName) w = (res, w1) →
  quiet w w1
  ∧ ∀ finalName,
      res = Ok finalName →
      (if folderNameTaken normalizedName (Some id)
            (siblingFolders O s parent room)
       then action = KeepBoth
            ∧ generateUniqueName normalizedName
                (list_to_set
                   (folder_name <$>
                      List.filter (λ f, bool_decide (folder_id f ≠ id))
                        (siblingFolders O s parent room)))
              = Some finalName
       else finalName = normalizedName)
      ∧ ∀ g, g ∈ siblingFolders O s parent room → folder_id g ≠ id →
             folder_name g ≠ finalName.
Proof.
  intros <-. destruct (folderNameTaken _ _ _) eqn:Htaken.
  - destruct action.
    + intros [= <- <-]. by repeat split.
    + unfold bind. rewrite FolderRepo_listByParent_run.
      destruct (generateUniqueName _ _) as [u|] eqn:Hu;
        intros [= <- <-]; (split; [done|]); intros finalName [= <-].
      split; [by split|].
      intros g Hg Hid. eapply unique_among_folders; [exact Hu|].
      apply list_elem_of_In, filter_In. split; [by apply list_elem_of_In|].
      by apply bool_decide_eq_true.
    + intros [= <- <-]. by repeat split.
  - intros [= <- <-]. split; [done|].
    intros finalName [= <-]. split; [done|].
    intros g Hg Hid Hname.
    apply not_true_iff_false in Htaken. apply Htaken.
    apply folderNameTaken_spec. exists g. split; [done|].
    split; [done|]. congruence.
Qed.

End FolderRename.

(** What [FolderService.rename] leaves. *)
Lemma FolderService_rename_effect
    (O : Oracle) (id : ID) (name : string) (action : NameCollisionAction)
    (w w' : World) (r : Result Folder) :
  lawfulOrders O →
  FolderService_rename O id name action w = (r, w') →
  match r with
  | Err _ => quiet w w'
  | Ok renamed =>
      ∃ folder now,
        folders (store w) !! id = Some folder
        ∧ renamed = renamedFolder folder (folder_name renamed) now
        ∧ (∀ k g, folders (store w) !! k = Some g →
                  folder_dataroomId g = folder_dataroomId folder →
                  folder_parentId g = folder_parentId folder →
                  folder_id g ≠ id →
                  folder_name g ≠ folder_name renamed)
        ∧ (if folderNameTaken (normalizeName name) (Some id)
              (siblingFolders O (store w) (folder_parentId folder)
                 (folder_dataroomId folder))
           then action = KeepBoth
                ∧ generateUniqueName (normalizeName name)
                    (list_to_set
                       (folder_name <$>
                          List.filter
                            (λ f, bool_decide (folder_id f ≠ id))
                            (siblingFolders O (store w)
                               (folder_parentId folder)
                               (folder_dataroomId folder))))
                  = Some (folder_name renamed)
           else folder_name renamed = normalizeName name)
        ∧ folders (store w') = <[id := renamed]> (folders (store w))
        ∧ roomsTouched (datarooms (store w)) (datarooms (store w'))
        ∧ files (store w') = files (store w)
        ∧ blobs (store w') = blobs (store w)
        ∧ idsUsed w' = idsUsed w
  end.
Proof.
  intros Hlaw Hrun. unfold FolderService_rename in Hrun.
  unfold bind at 1 in Hrun. rewrite liftResult_run in Hrun.
  destruct (validateName (normalizeName name) KFolder) as [[]|e];
    [|by injection Hrun as <- <-].
  unfold bind at 1 in Hrun. rewrite FolderRepo_getRequired_run' in Hrun.
  destruct (folders (store w) !! id) as [folder|] eqn:Hfolder;
    [|by injection Hrun as <- <-].
  unfold bind at 1 in Hrun.
  rewrite FolderRepo_nameExistsInParent_run in Hrun.
  cbn [store logged] in Hrun.
  apply bind_inv in Hrun as [(finalName & w4 & Hfin & Hrun)|(e & Hfin & ->)];
    apply FolderService_rename_collision in Hfin as ([Hs4 Hi4] & Hfin);
    try done.
  destruct (Hfin finalName eq_refl) as [Hnorm Hfree]. clear Hfin.
  cbn [store idsUsed logged] in Hs4, Hi4.
  destruct (FolderRepo_updateName_run O id finalName w4)
    as (n & w5 & Hupd & Hfo5 & Hdr5 & Hfi5 & Hbl5 & Hi5).
  rewrite (bind_run _ _ _ _ _ Hupd) in Hrun.
  destruct (DataroomRepo_touch_rooms O (folder_dataroomId folder) w5)
    as (n' & w6 & Htouch & Hrooms & Hfo6 & Hfi6 & Hbl6 & Hi6).
  rewrite (bind_run _ _ _ _ _ Htouch) in Hrun.
  unfold FolderService_get in Hrun. rewrite FolderRepo_getRequired_run' in Hrun.
  rewrite Hs4, Hfolder in Hfo5. rewrite Hfo6, Hfo5, lookup_insert_eq in Hrun.
  injection Hrun as <- <-.
  exists folder, (nowAt O (instantsUsed w4)).
  cbn [store logged idsUsed].
  rewrite Hfo6, Hfi6, Hbl6, Hi6, Hfo5, Hfi5, Hbl5, Hi5, Hs4, Hi4.
  rewrite Hdr5, Hs4 in Hrooms.
  repeat split; try done.
  intros k g Hg Hgr Hgp Hgid. apply Hfree; [|done].
  apply (elem_of_siblingFolders O Hlaw). eauto.
Qed.

(** What [FolderService.move] leaves: the folder as it was, timestamps
    apart. *)
Lemma FolderService_move_effect (O : Oracle) id newParentId w r w' :
  FolderService_move O id newParentId w = (r, w') →
  match r with
  | Err _ => quiet w w'
  | Ok moved =>
      ∃ folder now,
        folders (store w) !! id = Some folder
        ∧ moved = renamedFolder folder (folder_name folder) now
        ∧ folders (store w') = <[id := moved]> (folders (store w))
        ∧ roomsTouched (datarooms (store w)) (datarooms (store w'))
        ∧ files (store w') = files (store w)
        ∧ blobs (store w') = blobs (store w)
        ∧ idsUsed w' = idsUsed w
  end.
Proof.
  intros Hrun. unfold FolderService_move in Hrun.
  unfold bind at 1 in Hrun. rewrite FolderRepo_getRequired_run' in Hrun.
  destruct (folders (store w) !! id) as [folder|] eqn:Hfolder;
    [|by injection Hrun as <- <-].
  apply bind_inv in Hrun as [([] & w2 & Hcheck & Hrun)|(e & Hcheck & ->)].
  2:{ assert (quiet (logged (Read TFolders) w) w') as [? ?]
        by by_quiet Hcheck. done. }
  assert (quiet (logged (Read TFolders) w) w2) as [Hs2 Hi2]
    by by_quiet Hcheck.
  cbn [store idsUsed logged] in Hs2, Hi2.
  unfold bind at 1 in Hrun.
  rewrite FolderRepo_nameExistsInParent_run in Hrun.
  destruct (folderNameTaken _ _ _).
  { injection Hrun as <- <-. done. }
  destruct (FolderRepo_updateName_run O id (folder_name folder)
              (logged (Read TFolders) w2))
    as (n & w5 & Hupd & Hfo5 & Hdr5 & Hfi5 & Hbl5 & Hi5).
  rewrite (bind_run _ _ _ _ _ Hupd) in Hrun.
  destruct (DataroomRepo_touch_rooms O (folder_dataroomId folder) w5)
    as (n' & w6 & Htouch & Hrooms & Hfo6 & Hfi6 & Hbl6 & Hi6).
  rewrite (bind_run _ _ _ _ _ Htouch) in Hrun.
  unfold FolderService_get in Hrun. rewrite FolderRepo_getRequired_run' in Hrun.
  cbn [store idsUsed instantsUsed logged] in *.
  rewrite Hs2, Hfolder in Hfo5. rewrite Hfo6, Hfo5, lookup_insert_eq in Hrun.
  injection Hrun as <- <-.
  exists folder, (nowAt O (instantsUsed w2)).
  cbn [store logged idsUsed].
  rewrite Hfo6, Hfi6, Hbl6, Hi6, Hfo5, Hfi5, Hbl5, Hi5, Hs2, Hi2.
  rewrite Hdr5, Hs2 in Hrooms.
  by repeat split.
Qed.

Section FileEffects.

Variable O : Oracle.

Lemma FileService_delete_effect id w r w' :
  FileService_delete O id w = (r, w') →
  match r with
  | Err e => quiet w w' ∧ files (store w) !! id = None
             ∧ e = NotFoundError "File" id
  | Ok _ =>
      ∃ f, files (store w) !! id = Some f
           ∧ files (store w') = delete id (files (store w))
           ∧ blobs (store w') = delete (file_blobKey f) (blobs (store w))
           ∧ folders (store w') = folders (store w)
           ∧ roomsTouched (datarooms (store w)) (datarooms (store w'))
           ∧ idsUsed w' = idsUsed w
  end.
Proof.
  intros Hrun. unfold FileService_delete in Hrun.
  unfold bind at 1 in Hrun. rewrite FileRepo_getRequired_run' in Hrun.
  destruct (files (store w) !! id) as [f|] eqn:Hf;
    [|by injection Hrun as <- <-].
  rewrite (bind_run _ _ _ _ _ (BlobRepo_delete_run _ _)) in Hrun.
  rewrite (bind_run _ _ _ _ _ (FileRepo_delete_run _ _)) in Hrun.
  match type of Hrun with
  | bind (DataroomRepo_touch O ?room) _ ?w0 = _ =>
      destruct (DataroomRepo_touch_rooms O room w0)
        as (n & w4 & Htouch & Hrooms & Hfo & Hfi & Hbl & Hi)
  end.
  rewrite (bind_run _ _ _ _ _ Htouch) in Hrun. injection Hrun as <- <-.
  exists f. simpl in *. rewrite Hfo, Hfi, Hbl, Hi.
  repeat split; try done. all: by destruct (store w).
Qed.

Lemma FileService_move_effect id newParentId w r w' :
  FileService_move O id newParentId w = (r, w') →
  match r with
  | Err _ => quiet w w'
  | Ok moved =>
      ∃ file now,
        files (store w) !! id = Some file
        ∧ moved = renamedFile file (file_name file) now
        ∧ files (store w') = <[id := moved]> (files (store w))
        ∧ roomsTouched (datarooms (store w)) (datarooms (store w'))
        ∧ folders (store w') = folders (store w)
        ∧ blobs (store w') = blobs (store w)
        ∧ idsUsed w' = idsUsed w
  end.
Proof.
  intros Hrun. unfold FileService_move in Hrun.
  unfold bind at 1 in Hrun. rewrite FileRepo_getRequired_run' in Hrun.
  destruct (files (store w) !! id) as [file|] eqn:Hfile;
    [|by injection Hrun as <- <-].
  apply bind_inv in Hrun as [(g & w2 & Hcheck & Hrun)|(e & Hcheck & ->)].
  2:{ assert (quiet (logged (Read TFiles) w) w') as [? ?]
        by by_quiet Hcheck. done. }
  assert (quiet (logged (Read TFiles) w) w2) as [Hs2 Hi2] by by_quiet Hcheck.
  apply bind_inv in Hrun as [(taken & w3 & Htaken & Hrun)|(e & Htaken & ->)].
  2:{ assert (quiet w2 w') as [? ?] by by_quiet Htaken.
      split; simpl in *; congruence. }
  assert (quiet w2 w3) as [Hs3 Hi3] by by_quiet Htaken.
  cbn [store idsUsed logged] in Hs2, Hi2.
  destruct taken.
  { injection Hrun as <- <-. split; congruence. }
  destruct (FileRepo_updateName_run O id (file_name file) w3)
    as (n & w5 & Hupd & Hfi5 & Hdr5 & Hfo5 & Hbl5 & Hi5).
  rewrite (bind_run _ _ _ _ _ Hupd) in Hrun.
  destruct (DataroomRepo_touch_rooms O (file_dataroomId file) w5)
    as (n' & w6 & Htouch & Hrooms & Hfo6 & Hfi6 & Hbl6 & Hi6).
  rewrite (bind_run _ _ _ _ _ Htouch) in Hrun.
  unfold FileService_get in Hrun. rewrite FileRepo_getRequired_run' in Hrun.
  assert (store w3 = store w) as Hs3' by congruence.
  assert (idsUsed w3 = idsUsed w) as Hi3' by congruence.
  rewrite Hs3', Hfile in Hfi5. rewrite Hfi6, Hfi5, lookup_insert_eq in Hrun.
  injection Hrun as <- <-.
  exists file, (nowAt O (instantsUsed w3)).
  cbn [store logged idsUsed].
  rewrite Hfo6, Hfi6, Hbl6, Hi6, Hfo5, Hfi5, Hbl5, Hi5, Hs3', Hi3'.
  rewrite Hdr5, Hs3' in Hrooms.
  by repeat split.
Qed.

Lemma unique_among_files (l : list FileObject) name u g :
  generateUniqueName name (list_to_set (file_name <$> l)) = Some u →
  g ∈ l → file_name g ≠ u.
Proof.
  intros Hu Hg Heq.
  destruct (generateUniqueName_total name (list_to_set (file_name <$> l)))
    as (u' & Hu' & Hfree).
  rewrite Hu in Hu'. injection Hu' as <-. apply Hfree.
  apply elem_of_list_to_set, list_elem_of_fmap. by exists g.
Qed.

Lemma FileRepo_insert_run file w :
  FileRepo_insert file w
  = match files (store w) !! file_id file with
    | Some _ => (Err DatabaseError, logged (Write TFiles) w)
    | None =>
        (Ok (file_id file),
         withStore (set_files (<[file_id file := file]> (files (store w)))
                      (store w))
           (logged (Write TFiles) w))
    end.
Proof.
  unfold FileRepo_insert, wrapDatabaseError, tryCatch, bind.
  rewrite (table_add_run db_files). simpl.
  by destruct (files (store w) !! file_id file).
Qed.

Hypothesis Hlaw : lawfulOrders O.

(** The branch of [upload] on a collision. *)
Lemma FileService_upload_collision normalizedName parent room action s w res
    w1 :
  room ≠ "" →
  store w = s →
  (∀ k f, files s !! k = Some f → file_id f = k) →
  (if fileNameTaken normalizedName None (siblingFiles O s parent room)
   then
     match action with
     | Cancel => throw (AlreadyExistsError "File" normalizedName)
     | Replace =>
         let! existingFiles := FileRepo_listByParent O parent room in
         match List.find
                 (λ f, bool_decide (file_name f = normalizedName))
                 existingFiles with
         | Some existingFile =>
             FileService_delete O (file_id existingFile);;
             ret normalizedName
         | None => ret normalizedName
         end
     | KeepBoth =>
         let! siblings := FileRepo_listByParent O parent room in
         let existingNames : gset string :=
           list_to_set (file_name <$> siblings) in
         match generateUniqueName normalizedName existingNames with
         | Some uniqueName => ret uniqueName
         | None => throw Diverged
         end
     end
   else ret normalizedName) w = (res, w1) →
  match res with
  | Err _ => quiet w w1
  | Ok finalName =>
      ∃ replaced,
        (if fileNameTaken normalizedName None (siblingFiles O s parent room)
         then match action with
              | Replace => finalName = normalizedName ∧ is_Some replaced
              | KeepBoth =>
                  replaced = None
                  ∧ generateUniqueName normalizedName
                      (list_to_set
                         (file_name <$> siblingFiles O s parent room))
                    = Some finalName
              | Cancel => False
              end
         else finalName = normalizedName ∧ replaced = None)
        ∧ match replaced with
          | Some old =>
              action = Replace
              ∧ files s !! file_id old = Some old
              ∧ file_dataroomId old = room
              ∧ file_parentId old = parent
              ∧ file_name old = finalName
          | None =>
              ∀ k g, files s !! k = Some g →
                     file_dataroomId g = room → file_parentId g = parent →
                     file_name g ≠ finalName
          end
        ∧ files (store w1) = filesWithout replaced (files s)
        ∧ blobs (store w1) = blobsWithout replaced (blobs s)
        ∧ folders (store w1) = folders s
        ∧ roomsTouched (datarooms s) (datarooms (store w1))
        ∧ idsUsed w1 = idsUsed w
  end.
Proof.
  intros Hroom <- Hkeys.
  destruct (fileNameTaken _ _ _) eqn:Htaken.
  - destruct action.
    + (* replace *)
      unfold bind at 1. rewrite (FileRepo_listByParent_run O _ _ _ Hroom).
      destruct (List.find _ _) as [old|] eqn:Hfind.
      * apply find_some in Hfind as [Hold Hname].
        apply bool_decide_eq_true in Hname.
        apply list_elem_of_In, (elem_of_siblingFiles O Hlaw)
          in Hold as ([k Hk] & Holdroom & Holdparent).
        pose proof (Hkeys k old Hk) as <-.
        intros Hrun.
        apply bind_inv in Hrun as [([] & w2 & Hdel & Hrun)|(e & Hdel & ->)];
          apply FileService_delete_effect in Hdel; cbn [store logged] in Hdel.
        2:{ destruct Hdel as (_ & Hnone & _). congruence. }
        injection Hrun as <- <-.
        destruct Hdel as (f & Hf & Hfi & Hbl & Hfo & Hrooms & Hi).
        rewrite Hk in Hf. injection Hf as <-.
        exists (Some old). split; [by split; [|eexists]|]. by repeat split.
      * exfalso. apply fileNameTaken_spec in Htaken as (g & Hg & Hname & _).
        eapply find_none in Hfind; [|by apply list_elem_of_In].
        by rewrite bool_decide_eq_true_2 in Hfind.
    + (* keep both *)
      unfold bind. rewrite (FileRepo_listByParent_run O _ _ _ Hroom).
      destruct (generateUniqueName _ _) as [u|] eqn:Hu;
        intros [= <- <-]; [|done].
      exists None. split; [by split|].
      split; [|by repeat split; try apply roomsTouched_refl].
      intros k g Hg Hgr Hgp. eapply unique_among_files; [exact Hu|].
      apply (elem_of_siblingFiles O Hlaw). eauto.
    + by intros [= <- <-].
  - intros [= <- <-]. exists None. split; [done|].
    split; [|by repeat split; try apply roomsTouched_refl].
    intros k g Hg Hgr Hgp Hname.
    apply not_true_iff_false in Htaken. apply Htaken.
    apply fileNameTaken_spec. exists g. split; [|done].
    apply (elem_of_siblingFiles O Hlaw). eauto.
Qed.

Lemma BlobRepo_put_run key data w :
  ∃ w1, BlobRepo_put key data w = (Ok key, w1)
        ∧ blobs (store w1) = <[key := mkDBBlob key data]> (blobs (store w))
        ∧ datarooms (store w1) = datarooms (store w)
        ∧ folders (store w1) = folders (store w)
        ∧ files (store w1) = files (store w)
        ∧ idsUsed w1 = idsUsed w
        ∧ instantsUsed w1 = instantsUsed w.
Proof. eexists. split; [reflexivity|]. by repeat split. Qed.

End FileEffects.

(** What [FileService.upload] leaves. *)
Lemma FileService_upload_effect
    (O : Oracle) (file : JsFile) (room : ID) (parent : option ID)
    (action : NameCollisionAction) (w w' : World) (r : Result FileObject) :
  lawfulOrders O →
  (∀ k f, files (store w) !! k = Some f → file_id f = k) →
  datarooms (store w) !! "" = None →
  FileService_upload O file room parent action w = (r, w') →
  match r with
  | Err e =>
      (store w' = store w ∧ idsUsed w' = idsUsed w)
      ∨ (e = DatabaseError
         ∧ is_Some (files (store w) !! genId O (S (idsUsed w))))
  | Ok created =>
      ∃ replaced,
        file_id created = genId O (S (idsUsed w))
        ∧ file_blobKey created = genId O (idsUsed w)
        ∧ file_dataroomId created = room
        ∧ file_parentId created = parent
        ∧ file_mimeType created = jsfile_type file
        ∧ jsfile_type file = "application/pdf"
        ∧ file_size created = jsfile_size file
        ∧ (jsfile_size file ≤ maxSizeBytes)%N
        ∧ is_Some (datarooms (store w) !! room)
        ∧ (if fileNameTaken (normalizeName (jsfile_name file)) None
              (siblingFiles O (store w) parent room)
           then match action with
                | Replace =>
                    file_name created = normalizeName (jsfile_name file)
                    ∧ is_Some replaced
                | KeepBoth =>
                    replaced = None
                    ∧ generateUniqueName (normalizeName (jsfile_name file))
                        (list_to_set
                           (file_name <$>
                              siblingFiles O (store w) parent room))
                      = Some (file_name created)
                | Cancel => False
                end
           else file_name created = normalizeName (jsfile_name file)
                ∧ replaced = None)
        ∧ match replaced with
          | Some old =>
              action = Replace
              ∧ files (store w) !! file_id old = Some old
              ∧ file_dataroomId old = room
              ∧ file_parentId old = parent
              ∧ file_name old = file_name created
          | None =>
              ∀ k g, files (store w) !! k = Some g →
                     file_dataroomId g = room → file_parentId g = parent →
                     file_name g ≠ file_name created
          end
        ∧ files (store w')
          = <[file_id created := created]>
              (filesWithout replaced (files (store w)))
        ∧ blobs (store w')
          = <[file_blobKey created := mkDBBlob (file_blobKey created) file]>
              (blobsWithout replaced (blobs (store w)))
        ∧ folders (store w') = folders (store w)
        ∧ roomsTouched (datarooms (store w)) (datarooms (store w'))
        ∧ idsUsed w' = S (S (idsUsed w))
  end.
Proof.
  intros Hlaw Hkeys Hnoroom Hrun. unfold FileService_upload in Hrun.
  case_bool_decide as Htype; [injection Hrun as <- <-; by left|].
  case_bool_decide as Hsize; [injection Hrun as <- <-; by left|].
  (* the name *)
  unfold bind at 1 in Hrun. rewrite liftResult_run in Hrun.
  destruct (validateName (normalizeName (jsfile_name file)) KFile) as [[]|e];
    [|injection Hrun as <- <-; by left].
  (* the room *)
  unfold bind at 1 in Hrun. rewrite DataroomRepo_getRequired_run in Hrun.
  destruct (datarooms (store w) !! room) as [d|] eqn:Hroom;
    [|injection Hrun as <- <-; by left].
  assert (room ≠ "") as Hne by (intros ->; congruence).
  (* the parent *)
  unfold bind at 1 in Hrun.
  destruct (requireParentFolder_run parent (logged (Read TDatarooms) w))
    as (w2 & Hs2 & Hi2 & Ht2 & Hparent).
  rewrite Hparent in Hrun. simpl in Hs2, Hi2, Ht2. clear Hparent.
  destruct (match parent with Some _ => _ | None => _ end) as [[]|e];
    [|injection Hrun as <- <-; left; by rewrite Hs2, Hi2].
  (* the collision *)
  unfold bind at 1 in Hrun.
  rewrite (FileRepo_nameExistsInParent_run O _ _ _ _ _ Hne), Hs2 in Hrun.
  set (w3 := logged (Read TFiles) w2) in *.
  assert (store w3 = store w) as Hs3 by done.
  assert (idsUsed w3 = idsUsed w) as Hi3 by done.
  apply bind_inv in Hrun as [(finalName & w4 & Hfin & Hrun)|(e & Hfin & ->)];
    apply (FileService_upload_collision O Hlaw _ _ _ _ (store w)) in Hfin;
    try done.
  2:{ destruct Hfin as [Hs4 Hi4]. left. split; congruence. }
  destruct Hfin
    as (replaced & Hnorm & Hrep & Hfi4 & Hbl4 & Hfo4 & Hrooms4 & Hi4).
  rewrite (bind_run _ _ _ _ _ (generateId_run O _)) in Hrun.
  destruct (BlobRepo_put_run (genId O (idsUsed w4)) file (minted w4))
    as (w5 & Hput & Hbl5 & Hro5 & Hfo5 & Hfi5 & Hi5 & Ht5).
  rewrite (bind_run _ _ _ _ _ Hput) in Hrun.
  rewrite (bind_run _ _ _ _ _ (Date_now_run O _)) in Hrun.
  rewrite (bind_run _ _ _ _ _ (generateId_run O _)) in Hrun.
  cbn [idsUsed ticked minted store] in Hrun, Hbl5, Hro5, Hfo5, Hfi5, Hi5.
  unfold bind at 1 in Hrun. rewrite FileRepo_insert_run in Hrun.
  cbn [store minted ticked file_id] in Hrun.
  rewrite Hfi5, Hfi4, Hi5, Hi4, Hi3 in Hrun.
  destruct (filesWithout replaced (files (store w))
              !! genId O (S (idsUsed w))) as [g|] eqn:Htaken.
  { injection Hrun as <- <-. right. split; [done|]. exists g.
    destruct replaced; simpl in Htaken; [|done].
    by apply lookup_delete_Some in Htaken as [_ ?]. }
  match type of Hrun with
  | bind (DataroomRepo_touch O room) _ ?w0 = _ =>
      destruct (DataroomRepo_touch_rooms O room w0)
        as (n & w8 & Htouch & Hrooms & Hfo8 & Hfi8 & Hbl8 & Hi8)
  end.
  rewrite (bind_run _ _ _ _ _ Htouch) in Hrun. injection Hrun as <- <-.
  simpl in Hrooms, Hfo8, Hfi8, Hbl8, Hi8.
  exists replaced.
  cbn [file_id file_blobKey file_dataroomId file_parentId file_mimeType
         file_size file_name].
  rewrite Hfo8, Hfi8, Hbl8, Hi8, Hbl5, Hbl4, Hfo5, Hfo4, Hi5, Hi4, Hi3.
  repeat split; try done; try lia.
  eapply roomsTouched_trans; [exact Hrooms4|]. by rewrite <- Hro5.
Qed.

Section RoomEffects.

Variable O : Oracle.
Hypothesis Hlaw : lawfulOrders O.

Lemma length_indexOrder {A} (l : list A) : length (indexOrder O A l) = length l.
Proof. destruct Hlaw as [Hidx _]. by rewrite (Hidx A l). Qed.

Lemma table_where_delete_run {A} (T : TableOf A) (p : A → bool) w :
  table_where_delete T p w
  = (Ok (length (List.filter p (records (tb_get T (store w))))),
     withStore (tb_set T (filter (λ kv, ¬ p kv.2) (tb_get T (store w)))
                  (store w))
       (logged (Write (tb_name T)) w)).
Proof. reflexivity. Qed.

Lemma DataroomService_delete_effect id w :
  ∃ counts w',
    DataroomService_delete O id w = (Ok counts, w')
    ∧ datarooms (store w') = delete id (datarooms (store w))
    ∧ (∀ k f, folders (store w') !! k = Some f
              ↔ folders (store w) !! k = Some f ∧ folder_dataroomId f ≠ id)
    ∧ (∀ k f, files (store w') !! k = Some f
              ↔ files (store w) !! k = Some f ∧ file_dataroomId f ≠ id)
    ∧ (∀ k b, blobs (store w') !! k = Some b
              ↔ blobs (store w) !! k = Some b
                ∧ ∀ k' f, files (store w) !! k' = Some f →
                          file_dataroomId f = id → file_blobKey f ≠ k)
    ∧ room_deleted_folders counts = length (foldersOfRoom O (store w) id)
    ∧ room_deleted_files counts = length (filesOfRoom O (store w) id)
    ∧ room_deleted_blobs counts + size (blobs (store w'))
      = size (blobs (store w))
    ∧ idsUsed w' = idsUsed w.
Proof.
  unfold DataroomService_delete.
  rewrite (bind_run _ _ _ _ _ (FileRepo_listByDataroom_run O id w)).
  set (L := filesOfRoom O (store w) id).
  set (w1 := logged (Read TFiles) w).
  assert (∃ n w2,
            match L with
            | [] => ret 0
            | _ :: _ => BlobRepo_deleteMany (file_blobKey <$> L)
            end w1 = (Ok n, w2)
            ∧ blobs (store w2)
              = filter (λ kv, kv.1 ∉ file_blobKey <$> L) (blobs (store w))
            ∧ n + size (blobs (store w2)) = size (blobs (store w))
            ∧ datarooms (store w2) = datarooms (store w)
            ∧ folders (store w2) = folders (store w)
            ∧ files (store w2) = files (store w)
            ∧ idsUsed w2 = idsUsed w)
    as (n & w2 & Hblobs & Hbl & Hsz & Hro & Hfo & Hfi & Hi).
  { destruct L as [|f L'] eqn:HL.
    - exists 0, w1. split; [done|]. split; [|done].
      symmetry. apply map_filter_id. intros k x _. apply not_elem_of_nil.
    - destruct (BlobRepo_deleteMany_ids (file_blobKey <$> f :: L') w1)
        as (n & w2 & Hrun & ? & ? & ? & ? & ? & ?).
      by exists n, w2. }
  rewrite (bind_run _ _ _ _ _ Hblobs).
  unfold FileRepo_deleteByDataroom, FolderRepo_deleteByDataroom,
    DataroomRepo_delete, wrapDatabaseError, tryCatch, bind.
  rewrite !table_where_delete_run. simpl.
  eexists _, _. split; [reflexivity|]. simpl.
  rewrite Hro, Hfo, Hfi, Hbl, Hi.
  split; [done|]. split; [|split; [|split]].
  - intros k f. rewrite map_lookup_filter_Some. simpl.
    by rewrite bool_decide_spec.
  - intros k f. rewrite map_lookup_filter_Some. simpl.
    by rewrite bool_decide_spec.
  - intros k b. rewrite map_lookup_filter_Some. simpl.
    apply and_iff_compat_l. rewrite list_elem_of_fmap. split.
    + intros Hp k' f Hf Hroom <-. apply Hp. exists f. split; [done|].
      apply (elem_of_filesOfRoom O Hlaw). eauto.
    + intros Hp (f & -> & [[k' Hf] Hroom]%(elem_of_filesOfRoom O Hlaw)).
      by eapply Hp.
  - split; [|split; [|split; [by rewrite <- Hbl|done]]].
    + unfold foldersOfRoom. by rewrite length_indexOrder.
    + unfold L, filesOfRoom. by rewrite length_indexOrder.
Qed.

Lemma DataroomRepo_insert_run room w :
  DataroomRepo_insert room w
  = match datarooms (store w) !! room_id room with
    | Some _ => (Err DatabaseError, logged (Write TDatarooms) w)
    | None =>
        (Ok (room_id room),
         withStore (set_datarooms (<[room_id room := room]>
                                     (datarooms (store w))) (store w))
           (logged (Write TDatarooms) w))
    end.
Proof.
  unfold DataroomRepo_insert, wrapDatabaseError, tryCatch, bind.
  rewrite (table_add_run db_datarooms). simpl.
  by destruct (datarooms (store w) !! room_id room).
Qed.

(** What the services make of a collision between rooms: they cancel. *)
Lemma resolveDataroomNameCollision_cancel name s excludeId :
  match resolveDataroomNameCollision name Cancel (roomsListed O s)
          excludeId with
  | Ok resolved =>
      finalName resolved = normalizeName name
      ∧ ∀ k d, datarooms s !! k = Some d → Some (room_id d) ≠ excludeId →
               room_name d ≠ normalizeName name
  | Err e =>
      e = AlreadyExistsError "Dataroom" (normalizeName name)
      ∧ ∃ k d, datarooms s !! k = Some d ∧ Some (room_id d) ≠ excludeId
               ∧ room_name d = normalizeName name
  end.
Proof.
  unfold resolveDataroomNameCollision, resolveNameCollision.
  destruct (List.find _ _) as [x|] eqn:Hfind.
  - apply find_some in Hfind as [Hx Hsame].
    apply sameNameOther_spec in Hsame as [Hname Hid].
    apply list_elem_of_In, (elem_of_roomsListed O Hlaw) in Hx as [k Hk].
    split; [done|]. by exists k, x.
  - simpl. split; [done|]. intros k d Hd Hid Hname.
    eapply find_none in Hfind.
    2:{ apply list_elem_of_In, (elem_of_roomsListed O Hlaw). eauto. }
    apply not_true_iff_false in Hfind. apply Hfind.
    by apply sameNameOther_spec.
Qed.

Lemma DataroomService_create_effect name w r w' :
  DataroomService_create O name w = (r, w') →
  match r with
  | Err _ => store w' = store w ∧ idsUsed w ≤ idsUsed w'
  | Ok room =>
      room_id room = genId O (idsUsed w)
      ∧ room_name room = normalizeName name
      ∧ validateName name KFolder = Ok tt
      ∧ (∀ k d, datarooms (store w) !! k = Some d →
                room_name d ≠ room_name room)
      ∧ datarooms (store w) !! room_id room = None
      ∧ datarooms (store w')
        = <[room_id room := room]> (datarooms (store w))
      ∧ folders (store w') = folders (store w)
      ∧ files (store w') = files (store w)
      ∧ blobs (store w') = blobs (store w)
      ∧ idsUsed w' = S (idsUsed w)
  end.
Proof.
  intros Hrun. unfold DataroomService_create in Hrun.
  unfold bind at 1 in Hrun. rewrite liftResult_run in Hrun.
  destruct (validateName name KFolder) as [[]|e];
    [|by injection Hrun as <- <-].
  rewrite (bind_run _ _ _ _ _ (DataroomRepo_list_run O _)) in Hrun.
  unfold bind at 1 in Hrun. rewrite liftResult_run in Hrun.
  cbn [store logged] in Hrun.
  pose proof (resolveDataroomNameCollision_cancel name (store w) None)
    as Hres.
  destruct (resolveDataroomNameCollision _ _ _ _) as [resolved|e];
    [|by injection Hrun as <- <-].
  destruct Hres as [Hfinal Hfree].
  rewrite (bind_run _ _ _ _ _ (Date_now_run O _)) in Hrun.
  rewrite (bind_run _ _ _ _ _ (generateId_run O _)) in Hrun.
  unfold bind at 1 in Hrun. rewrite DataroomRepo_insert_run in Hrun.
  cbn [store logged minted ticked idsUsed room_id] in Hrun.
  destruct (datarooms (store w) !! genId O (idsUsed w)) eqn:Hid;
    injection Hrun as <- <-; simpl; [split; [done|lia]|].
  rewrite Hfinal. repeat split; try done.
  intros k d Hd. by eapply Hfree.
Qed.

Lemma DataroomService_rename_effect id name w r w' :
  DataroomService_rename O id name w = (r, w') →
  match r with
  | Err _ => quiet w w'
  | Ok room =>
      ∃ d now,
        datarooms (store w) !! id = Some d
        ∧ room = renamedRoom d (normalizeName name) now
        ∧ validateName name KFolder = Ok tt
        ∧ (∀ k d', datarooms (store w) !! k = Some d' → room_id d' ≠ id →
                   room_name d' ≠ normalizeName name)
        ∧ datarooms (store w') = <[id := room]> (datarooms (store w))
        ∧ folders (store w') = folders (store w)
        ∧ files (store w') = files (store w)
        ∧ blobs (store w') = blobs (store w)
        ∧ idsUsed w' = idsUsed w
  end.
Proof.
  intros Hrun. unfold DataroomService_rename in Hrun.
  unfold bind at 1 in Hrun. rewrite liftResult_run in Hrun.
  destruct (validateName name KFolder) as [[]|e];
    [|by injection Hrun as <- <-].
  rewrite (bind_run _ _ _ _ _ (DataroomRepo_list_run O _)) in Hrun.
  unfold bind at 1 in Hrun. rewrite liftResult_run in Hrun.
  cbn [store logged] in Hrun.
  pose proof (resolveDataroomNameCollision_cancel name (store w) (Some id))
    as Hres.
  destruct (resolveDataroomNameCollision _ _ _ _) as [resolved|e];
    [|by injection Hrun as <- <-].
  destruct Hres as [Hfinal Hfree].
  destruct (DataroomRepo_updateName_run O id (finalName resolved)
              (logged (Read TDatarooms) w))
    as (n & w2 & Hupd & Hro2 & Hfo2 & Hfi2 & Hbl2 & Hi2).
  rewrite (bind_run _ _ _ _ _ Hupd) in Hrun.
  unfold DataroomService_get in Hrun.
  rewrite DataroomRepo_getRequired_run in Hrun.
  cbn [store logged idsUsed instantsUsed] in *.
  rewrite Hro2 in Hrun.
  destruct (datarooms (store w) !! id) as [d|] eqn:Hd.
  - rewrite lookup_insert_eq in Hrun. injection Hrun as <- <-.
    exists d, (nowAt O (instantsUsed w)). simpl.
    rewrite Hro2, Hfo2, Hfi2, Hbl2, Hi2, Hfinal. repeat split; try done.
    intros k d' Hd' Hid'. eapply Hfree; [done|]. congruence.
  - rewrite Hd in Hrun. injection Hrun as <- <-. split; simpl; [|done].
    rewrite <- Hro2 in *. destruct (store w2), (store w). simpl in *.
    congruence.
Qed.

End RoomEffects.

Section FileRename.

Variable O : Oracle.
Hypothesis Hlaw : lawfulOrders O.

(** The branch of [rename] on a collision. *)
Lemma FileService_rename_collision normalizedName id parent room action s w
    res w1 :
  room ≠ "" →
  store w = s →
  (∀ k f, files s !! k = Some f → file_id f = k) →
  (if fileNameTaken normalizedName (Some id) (siblingFiles O s parent room)
   then
     match action with
     | Cancel => throw (AlreadyExistsError "File" normalizedName)
     | Replace =>
         let! existingFiles := FileRepo_listByParent O parent room in
         match List.find
                 (λ f, bool_decide (file_name f = normalizedName)
                       && bool_decide (file_id f ≠ id))
                 existingFiles with
         | Some existingFile =>
             FileService_delete O (file_id existingFile);;
             ret normalizedName
         | None => ret normalizedName
         end
     | KeepBoth =>
         let! siblings := FileRepo_listByParent O parent room in
         let existingNames : gset string :=
           list_to_set
             (file_name <$>
                List.filter (λ f, bool_decide (file_id f ≠ id)) siblings) in
         match generateUniqueName normalizedName existingNames with
         | Some uniqueName => ret uniqueName
         | None => throw Diverged
         end
     end
   else ret normalizedName) w = (res, w1) →
  match res with
  | Err _ => quiet w w1
  | Ok finalName =>
      ∃ replaced,
        (if fileNameTaken normalizedName (Some id)
              (siblingFiles O s parent room)
         then match action with
              | Replace => finalName = normalizedName ∧ is_Some replaced
              | KeepBoth =>
                  replaced = None
                  ∧ generateUniqueName normalizedName
                      (list_to_set
                         (file_name <$>
                            List.filter (λ f, bool_decide (file_id f ≠ id))
                              (siblingFiles O s parent room)))
                    = Some finalName
              | Cancel => False
              end
         else finalName = normalizedName ∧ replaced = None)
        ∧ match replaced with
          | Some old =>
              action = Replace
              ∧ files s !! file_id old = Some old
              ∧ file_id old ≠ id
              ∧ file_dataroomId old = room
              ∧ file_parentId old = parent
              ∧ file_name old = finalName
          | None =>
              ∀ k g, files s !! k = Some g →
                     file_dataroomId g = room → file_parentId g = parent →
                     file_id g ≠ id → file_name g ≠ finalName
          end
        ∧ files (store w1) = filesWithout replaced (files s)
        ∧ blobs (store w1) = blobsWithout replaced (blobs s)
        ∧ folders (store w1) = folders s
        ∧ roomsTouched (datarooms s) (datarooms (store w1))
        ∧ idsUsed w1 = idsUsed w
  end.
Proof.
  intros Hroom <- Hkeys.
  destruct (fileNameTaken _ _ _) eqn:Htaken.
  - destruct action.
    + (* replace *)
      unfold bind at 1. rewrite (FileRepo_listByParent_run O _ _ _ Hroom).
      destruct (List.find _ _) as [old|] eqn:Hfind.
      * apply find_some in Hfind as [Hold Hname].
        apply andb_true_iff in Hname as [Hname Hother].
        apply bool_decide_eq_true in Hname, Hother.
        apply list_elem_of_In, (elem_of_siblingFiles O Hlaw)
          in Hold as ([k Hk] & Holdroom & Holdparent).
        pose proof (Hkeys k old Hk) as <-.
        intros Hrun.
        apply bind_inv in Hrun as [([] & w2 & Hdel & Hrun)|(e & Hdel & ->)];
          apply FileService_delete_effect in Hdel; cbn [store logged] in Hdel.
        2:{ destruct Hdel as (_ & Hnone & _). congruence. }
        injection Hrun as <- <-.
        destruct Hdel as (f & Hf & Hfi & Hbl & Hfo & Hrooms & Hi).
        rewrite Hk in Hf. injection Hf as <-.
        exists (Some old). split; [by split; [|eexists]|]. by repeat split.
      * exfalso.
        apply fileNameTaken_spec in Htaken as (g & Hg & Hname & Hother).
        eapply find_none in Hfind; [|by apply list_elem_of_In].
        apply andb_false_iff in Hfind as [Hfind|Hfind];
          apply bool_decide_eq_false in Hfind; [done|].
        apply Hfind. congruence.
    + (* keep both *)
      unfold bind. rewrite (FileRepo_listByParent_run O _ _ _ Hroom).
      destruct (generateUniqueName _ _) as [u|] eqn:Hu;
        intros [= <- <-]; [|done].
      exists None. split; [by split|].
      split; [|by repeat split; try apply roomsTouched_refl].
      intros k g Hg Hgr Hgp Hgid. eapply unique_among_files; [exact Hu|].
      apply list_elem_of_In, filter_In. split.
      * apply list_elem_of_In, (elem_of_siblingFiles O Hlaw). eauto.
      * by apply bool_decide_eq_true.
    + by intros [= <- <-].
  - intros [= <- <-]. exists None. split; [done|].
    split; [|by repeat split; try apply roomsTouched_refl].
    intros k g Hg Hgr Hgp Hgid Hname.
    apply not_true_iff_false in Htaken. apply Htaken.
    apply fileNameTaken_spec. exists g. split.
    { apply (elem_of_siblingFiles O Hlaw). eauto. }
    split; [done|]. congruence.
Qed.

Lemma FileService_rename_effect id name action w r w' :
  (∀ k f, files (store w) !! k = Some f →
          file_id f = k ∧ file_dataroomId f ≠ "") →
  FileService_rename O id name action w = (r, w') →
  match r with
  | Err _ => quiet w w'
  | Ok renamed =>
      ∃ file now replaced,
        files (store w) !! id = Some file
        ∧ renamed = renamedFile file (file_name renamed) now
        ∧ (if fileNameTaken (normalizeName name) (Some id)
              (siblingFiles O (store w) (file_parentId file)
                 (file_dataroomId file))
           then match action with
                | Replace =>
                    file_name renamed = normalizeName name
                    ∧ is_Some replaced
                | KeepBoth =>
                    replaced = None
                    ∧ generateUniqueName (normalizeName name)
                        (list_to_set
                           (file_name <$>
                              List.filter
                                (λ f, bool_decide (file_id f ≠ id))
                                (siblingFiles O (store w)
                                   (file_parentId file)
                                   (file_dataroomId file))))
                      = Some (file_name renamed)
                | Cancel => False
                end
           else file_name renamed = normalizeName name ∧ replaced = None)
        ∧ match replaced with
          | Some old =>
              action = Replace
              ∧ files (store w) !! file_id old = Some old
              ∧ file_id old ≠ id
              ∧ file_dataroomId old = file_dataroomId file
              ∧ file_parentId old = file_parentId file
              ∧ file_name old = file_name renamed
          | None =>
              ∀ k g, files (store w) !! k = Some g →
                     file_dataroomId g = file_dataroomId file →
                     file_parentId g = file_parentId file →
                     file_id g ≠ id → file_name g ≠ file_name renamed
          end
        ∧ files (store w')
          = <[id := renamed]> (filesWithout replaced (files (store w)))
        ∧ blobs (store w') = blobsWithout replaced (blobs (store w))
        ∧ folders (store w') = folders (store w)
        ∧ roomsTouched (datarooms (store w)) (datarooms (store w'))
        ∧ idsUsed w' = idsUsed w
  end.
Proof.
  intros Hkeys Hrun. unfold FileService_rename in Hrun.
  unfold bind at 1 in Hrun. rewrite liftResult_run in Hrun.
  destruct (validateName (normalizeName name) KFile) as [[]|e];
    [|by injection Hrun as <- <-].
  unfold bind at 1 in Hrun. rewrite FileRepo_getRequired_run' in Hrun.
  destruct (files (store w) !! id) as [file|] eqn:Hfile;
    [|by injection Hrun as <- <-].
  destruct (Hkeys id file Hfile) as [Hid Hroom].
  unfold bind at 1 in Hrun.
  rewrite (FileRepo_nameExistsInParent_run O _ _ _ _ _ Hroom) in Hrun.
  cbn [store logged] in Hrun.
  apply bind_inv in Hrun as [(finalName & w4 & Hfin & Hrun)|(e & Hfin & ->)];
    apply (FileService_rename_collision _ _ _ _ _ (store w)) in Hfin;
    try done; try (intros k f Hf; by apply Hkeys).
  destruct Hfin
    as (replaced & Hnorm & Hrep & Hfi4 & Hbl4 & Hfo4 & Hrooms4 & Hi4).
  cbn [store idsUsed logged] in Hi4.
  destruct (FileRepo_updateName_run O id finalName w4)
    as (n & w5 & Hupd & Hfi5 & Hdr5 & Hfo5 & Hbl5 & Hi5).
  rewrite (bind_run _ _ _ _ _ Hupd) in Hrun.
  destruct (DataroomRepo_touch_rooms O (file_dataroomId file) w5)
    as (n' & w6 & Htouch & Hrooms & Hfo6 & Hfi6 & Hbl6 & Hi6).
  rewrite (bind_run _ _ _ _ _ Htouch) in Hrun.
  unfold FileService_get in Hrun. rewrite FileRepo_getRequired_run' in Hrun.
  assert (filesWithout replaced (files (store w)) !! id = Some file)
    as Hstill.
  { destruct replaced as [old|]; simpl; [|done].
    rewrite lookup_delete_ne; [done|]. by destruct Hrep as (_ & _ & ? & _). }
  rewrite Hfi4, Hstill in Hfi5. rewrite Hfi6, Hfi5, lookup_insert_eq in Hrun.
  injection Hrun as <- <-.
  exists file, (nowAt O (instantsUsed w4)), replaced.
  cbn [file_name renamedFile store logged idsUsed].
  rewrite Hfo6, Hfi6, Hbl6, Hi6, Hfo5, Hfi5, Hbl5, Hi5, Hfo4, Hbl4, Hi4.
  split; [done|]. split; [done|]. split; [done|]. split; [done|].
  repeat split; try done.
  eapply roomsTouched_trans; [exact Hrooms4|]. by rewrite <- Hdr5.
Qed.

End FileRename.

(** * What the services keep of the store *)

Section WellFormed.

Variable O : Oracle.
Hypothesis Hfresh : freshIds O.

Implicit Types (R : gmap string Dataroom) (Fo : gmap string Folder)
  (Fi : gmap string FileObject) (B : gmap string DBBlob).

Lemma wellFormed_empty : wellFormed O ∅ ∅ ∅ ∅ 0.
Proof.
  split; try split; intros *; by rewrite ?lookup_empty.
Qed.

Lemma wellFormed_more_ids R Fo Fi B n n' :
  n ≤ n' → wellFormed O R Fo Fi B n → wellFormed O R Fo Fi B n'.
Proof.
  intros Hle [H1 H2 H3 H4 H5 H6 H7]. split; try done.
  - intros k d Hd. destruct (H1 k d Hd). eauto using generated_mono.
  - intros k f Hf. destruct (H3 k f Hf) as (? & ? & ? & ?).
    eauto 10 using generated_mono.
Qed.

Lemma wellFormed_touch R R' Fo Fi B n :
  roomsTouched R R' → wellFormed O R Fo Fi B n → wellFormed O R' Fo Fi B n.
Proof.
  intros Ht [H1 H2 H3 H4 H5 H6 H7].
  assert (∀ k, is_Some (R !! k) → is_Some (R' !! k)) as Hsome.
  { intros k [d Hd]. specialize (Ht k). rewrite Hd in Ht.
    destruct (R' !! k); [by eexists|done]. }
  assert (∀ k d', R' !! k = Some d' →
            ∃ d, R !! k = Some d ∧ room_id d' = room_id d
                 ∧ room_name d' = room_name d) as Hback.
  { intros k d' Hd'. specialize (Ht k). rewrite Hd' in Ht.
    destruct (R !! k) as [d|]; [|done]. by exists d. }
  split; try done.
  - intros k d' (d & Hd & Hid & _)%Hback. rewrite Hid. by apply H1.
  - intros k f Hf. destruct (H2 k f Hf). auto.
  - intros k f Hf. destruct (H3 k f Hf) as (? & ? & ? & ? & ?). auto 10.
  - intros k1 d1 k2 d2 (e1 & He1 & _ & Hn1)%Hback (e2 & He2 & _ & Hn2)%Hback
      Hname.
    eapply H4; [exact He1|exact He2|congruence].
Qed.

Lemma wellFormed_insert_room R Fo Fi B n d :
  room_id d = genId O n →
  (∀ k d', R !! k = Some d' → room_name d' ≠ room_name d) →
  wellFormed O R Fo Fi B n →
  wellFormed O (<[room_id d := d]> R) Fo Fi B (S n).
Proof.
  intros Hid Hfree Hwf.
  assert (R !! room_id d = None) as Hnew.
  { destruct (R !! room_id d) as [d'|] eqn:Hd'; [|done].
    destruct (wf_rooms _ _ _ _ _ _ Hwf _ _ Hd') as [_ Hgen].
    rewrite Hid in Hgen. by apply (generated_not_next O Hfresh) in Hgen. }
  apply (wellFormed_more_ids _ _ _ _ n (S n)) in Hwf; [|lia].
  destruct Hwf as [H1 H2 H3 H4 H5 H6 H7].
  assert (∀ k, is_Some (R !! k) → is_Some (<[room_id d := d]> R !! k))
    as Hsome.
  { intros k Hk. rewrite lookup_insert_is_Some. destruct (decide (room_id d = k)); auto. }
  split; try done.
  - intros k d' [[<- <-]|[Hne Hd']]%lookup_insert_Some; [|by apply H1].
    split; [done|]. exists n. split; [lia|done].
  - intros k f Hf. destruct (H2 k f Hf). auto.
  - intros k f Hf. destruct (H3 k f Hf) as (? & ? & ? & ? & ?). auto 10.
  - intros k1 d1 k2 d2 [[<- <-]|[Hne1 Hd1]]%lookup_insert_Some
      [[<- <-]|[Hne2 Hd2]]%lookup_insert_Some Hname; try done.
    + exfalso. by eapply Hfree.
    + exfalso. by eapply Hfree.
    + by eapply H4.
Qed.

Lemma wellFormed_update_room R Fo Fi B n id d name now :
  R !! id = Some d →
  (∀ k d', R !! k = Some d' → room_id d' ≠ id → room_name d' ≠ name) →
  wellFormed O R Fo Fi B n →
  wellFormed O (<[id := renamedRoom d name now]> R) Fo Fi B n.
Proof.
  intros Hd Hfree [H1 H2 H3 H4 H5 H6 H7].
  assert (∀ k, is_Some (R !! k)
               → is_Some (<[id := renamedRoom d name now]> R !! k))
    as Hsome.
  { intros k Hk. rewrite lookup_insert_is_Some. destruct (decide (id = k)); auto. }
  assert (∀ k d', R !! k = Some d' → k ≠ id → room_name d' ≠ name) as Hfree'.
  { intros k d' Hd' Hne. eapply Hfree; [done|]. by destruct (H1 k d' Hd') as [-> _]. }
  split; try done.
  - intros k d' [[<- <-]|[Hne Hd']]%lookup_insert_Some; [|by apply H1].
    simpl. by apply (H1 _ d).
  - intros k f Hf. destruct (H2 k f Hf). auto.
  - intros k f Hf. destruct (H3 k f Hf) as (? & ? & ? & ? & ?). auto 10.
  - intros k1 d1 k2 d2 [[<- <-]|[Hne1 Hd1]]%lookup_insert_Some
      [[<- <-]|[Hne2 Hd2]]%lookup_insert_Some Hname; try done.
    + exfalso. simpl in Hname. by eapply (Hfree' k2 d2).
    + exfalso. simpl in Hname. by eapply (Hfree' k1 d1).
    + by eapply H4.
Qed.

Lemma wellFormed_delete_room R Fo Fo' Fi Fi' B B' n id :
  (∀ k f, Fo' !! k = Some f ↔ Fo !! k = Some f ∧ folder_dataroomId f ≠ id) →
  (∀ k f, Fi' !! k = Some f ↔ Fi !! k = Some f ∧ file_dataroomId f ≠ id) →
  (∀ k b, B' !! k = Some b
          ↔ B !! k = Some b
            ∧ ∀ k' f, Fi !! k' = Some f → file_dataroomId f = id →
                      file_blobKey f ≠ k) →
  wellFormed O R Fo Fi B n →
  wellFormed O (delete id R) Fo' Fi' B' n.
Proof.
  intros HFo HFi HB [H1 H2 H3 H4 H5 H6 [H7 H8]].
  assert (∀ k, k ≠ id → is_Some (R !! k) → is_Some (delete id R !! k))
    as Hsome.
  { intros k Hne Hk. by rewrite lookup_delete_ne. }
  split.
  - intros k d [Hne Hd]%lookup_delete_Some. by apply H1.
  - intros k f [Hf Hroom]%HFo. destruct (H2 k f Hf). auto.
  - intros k f [Hf Hroom]%HFi.
    destruct (H3 k f Hf) as (? & ? & ? & ? & ? & ? & data & Hdata & ?).
    repeat split; auto. exists data. split; [|done].
    apply HB. split; [done|]. intros k' g Hg Hgroom Hkey.
    assert (k' = k) as -> by by eapply H7. congruence.
  - intros k1 d1 k2 d2 [_ Hd1]%lookup_delete_Some [_ Hd2]%lookup_delete_Some.
    by eapply H4.
  - intros k1 f1 k2 f2 [Hf1 _]%HFo [Hf2 _]%HFo. by eapply H5.
  - intros k1 f1 k2 f2 [Hf1 _]%HFi [Hf2 _]%HFi. by eapply H6.
  - split.
    + intros k1 f1 k2 f2 [Hf1 _]%HFi [Hf2 _]%HFi. by eapply H7.
    + intros k b [Hb Hnot]%HB. destruct (H8 k b Hb) as (k' & f & Hf & Hkey).
      exists k', f. split; [|done]. apply HFi. split; [done|].
      intros Hroom. by eapply Hnot.
Qed.

Lemma wellFormed_insert_folder R Fo Fi B n f :
  Fo !! folder_id f = None →
  is_Some (R !! folder_dataroomId f) →
  (∀ k g, Fo !! k = Some g →
          folder_dataroomId g = folder_dataroomId f →
          folder_parentId g = folder_parentId f →
          folder_name g ≠ folder_name f) →
  wellFormed O R Fo Fi B n →
  wellFormed O R (<[folder_id f := f]> Fo) Fi B n.
Proof.
  intros Hnew Hroom Hfree [H1 H2 H3 H4 H5 H6 H7]. split; try done.
  - intros k g [[<- <-]|[Hne Hg]]%lookup_insert_Some; [done|by apply H2].
  - intros k1 f1 k2 f2 [[<- <-]|[Hne1 Hf1]]%lookup_insert_Some
      [[<- <-]|[Hne2 Hf2]]%lookup_insert_Some Hr Hp Hname; try done.
    + exfalso. by eapply (Hfree k2 f2).
    + exfalso. by eapply (Hfree k1 f1).
    + by eapply H5.
Qed.

Lemma wellFormed_update_folder R Fo Fi B n id f name now :
  Fo !! id = Some f →
  (∀ k g, Fo !! k = Some g →
          folder_dataroomId g = folder_dataroomId f →
          folder_parentId g = folder_parentId f →
          folder_id g ≠ id → folder_name g ≠ name) →
  wellFormed O R Fo Fi B n →
  wellFormed O R (<[id := renamedFolder f name now]> Fo) Fi B n.
Proof.
  intros Hf Hfree [H1 H2 H3 H4 H5 H6 H7].
  assert (∀ k g, Fo !! k = Some g →
            folder_dataroomId g = folder_dataroomId f →
            folder_parentId g = folder_parentId f →
            k ≠ id → folder_name g ≠ name) as Hfree'.
  { intros k g Hg ? ? Hne. eapply Hfree; try done.
    by destruct (H2 k g Hg) as [-> _]. }
  split; try done.
  - intros k g [[<- <-]|[Hne Hg]]%lookup_insert_Some; [|by apply H2].
    simpl. by apply (H2 _ f).
  - intros k1 f1 k2 f2 [[<- <-]|[Hne1 Hf1]]%lookup_insert_Some
      [[<- <-]|[Hne2 Hf2]]%lookup_insert_Some Hr Hp Hname; try done;
      simpl in Hr, Hp, Hname.
    + exfalso. by eapply (Hfree' k2 f2).
    + exfalso. by eapply (Hfree' k1 f1).
    + by eapply H5.
Qed.

Lemma wellFormed_delete_folder R Fo Fi B n id :
  wellFormed O R Fo Fi B n → wellFormed O R (delete id Fo) Fi B n.
Proof.
  intros [H1 H2 H3 H4 H5 H6 H7]. split; try done.
  - intros k g [_ Hg]%lookup_delete_Some. by apply H2.
  - intros k1 f1 k2 f2 [_ Hf1]%lookup_delete_Some [_ Hf2]%lookup_delete_Some.
    by eapply H5.
Qed.

Lemma wellFormed_delete_file R Fo Fi B n id f :
  Fi !! id = Some f →
  wellFormed O R Fo Fi B n →
  wellFormed O R Fo (delete id Fi) (delete (file_blobKey f) B) n.
Proof.
  intros Hf [H1 H2 H3 H4 H5 H6 [H7 H8]]. split; try done.
  - intros k g [Hne Hg]%lookup_delete_Some.
    destruct (H3 k g Hg) as (? & ? & ? & ? & ? & ? & data & Hdata & ?).
    repeat split; auto. exists data. split; [|done].
    rewrite lookup_delete_ne; [done|]. intros Hkey.
    apply Hne. by eapply H7.
  - intros k1 f1 k2 f2 [_ Hf1]%lookup_delete_Some [_ Hf2]%lookup_delete_Some.
    by eapply H6.
  - split.
    + intros k1 f1 k2 f2 [_ Hf1]%lookup_delete_Some
        [_ Hf2]%lookup_delete_Some. by eapply H7.
    + intros k b [Hne Hb]%lookup_delete_Some.
      destruct (H8 k b Hb) as (k' & g & Hg & Hkey).
      exists k', g. split; [|done]. apply lookup_delete_Some.
      split; [|done]. intros <-. congruence.
Qed.

Lemma wellFormed_insert_file R Fo Fi B n f data :
  file_id f = genId O (S n) →
  file_blobKey f = genId O n →
  is_Some (R !! file_dataroomId f) →
  file_mimeType f = "application/pdf" →
  (file_size f ≤ maxSizeBytes)%N →
  jsfile_type data = file_mimeType f →
  jsfile_size data = file_size f →
  (∀ k g, Fi !! k = Some g →
          file_dataroomId g = file_dataroomId f →
          file_parentId g = file_parentId f →
          file_name g ≠ file_name f) →
  wellFormed O R Fo Fi B n →
  wellFormed O R Fo (<[file_id f := f]> Fi)
    (<[file_blobKey f := mkDBBlob (file_blobKey f) data]> B) (S (S n)).
Proof.
  intros Hid Hkey Hroom Hpdf Hsize Htype Hlen Hfree Hwf.
  assert (∀ k g, Fi !! k = Some g → file_blobKey g ≠ file_blobKey f)
    as Hkeynew.
  { intros k g Hg Heq.
    destruct (wf_files _ _ _ _ _ _ Hwf _ _ Hg) as (_ & _ & Hgen & _).
    rewrite Heq, Hkey in Hgen. by apply (generated_not_next O Hfresh) in Hgen. }
  apply (wellFormed_more_ids _ _ _ _ n (S n)) in Hwf; [|lia].
  assert (Fi !! file_id f = None) as Hnew.
  { destruct (Fi !! file_id f) as [g|] eqn:Hg; [|done].
    destruct (wf_files _ _ _ _ _ _ Hwf _ _ Hg) as (_ & Hgen & _).
    rewrite Hid in Hgen. by apply (generated_not_next O Hfresh) in Hgen. }
  apply (wellFormed_more_ids _ _ _ _ (S n) (S (S n))) in Hwf; [|lia].
  destruct Hwf as [H1 H2 H3 H4 H5 H6 [H7 H8]]. split; try done.
  - intros k g [[<- <-]|[Hne Hg]]%lookup_insert_Some.
    + split; [done|]. split; [exists (S n); split; [lia|done]|].
      split; [exists n; split; [lia|done]|].
      repeat split; try done. exists data. by rewrite lookup_insert_eq.
    + destruct (H3 k g Hg) as (? & ? & ? & ? & ? & ? & data' & Hdata & ?).
      repeat split; auto. exists data'. split; [|done].
      rewrite lookup_insert_ne; [done|]. intros Heq. by eapply Hkeynew.
  - intros k1 f1 k2 f2 [[<- <-]|[Hne1 Hf1]]%lookup_insert_Some
      [[<- <-]|[Hne2 Hf2]]%lookup_insert_Some Hr Hp Hname; try done.
    + exfalso. by eapply (Hfree k2 f2).
    + exfalso. by eapply (Hfree k1 f1).
    + by eapply H6.
  - split.
    + intros k1 f1 k2 f2 [[<- <-]|[Hne1 Hf1]]%lookup_insert_Some
        [[<- <-]|[Hne2 Hf2]]%lookup_insert_Some Heq; try done.
      * exfalso. by eapply Hkeynew.
      * exfalso. by eapply Hkeynew.
      * by eapply H7.
    + intros k b [[<- <-]|[Hne Hb]]%lookup_insert_Some.
      * exists (file_id f), f. by rewrite lookup_insert_eq.
      * destruct (H8 k b Hb) as (k' & g & Hg & Hgk).
        exists k', g. split; [|done]. rewrite lookup_insert_ne; [done|].
        intros <-. congruence.
Qed.

Lemma wellFormed_update_file R Fo Fi B n id f name now :
  Fi !! id = Some f →
  (∀ k g, Fi !! k = Some g →
          file_dataroomId g = file_dataroomId f →
          file_parentId g = file_parentId f →
          file_id g ≠ id → file_name g ≠ name) →
  wellFormed O R Fo Fi B n →
  wellFormed O R Fo (<[id := renamedFile f name now]> Fi) B n.
Proof.
  intros Hf Hfree [H1 H2 H3 H4 H5 H6 [H7 H8]].
  assert (∀ k g, Fi !! k = Some g →
            file_dataroomId g = file_dataroomId f →
            file_parentId g = file_parentId f →
            k ≠ id → file_name g ≠ name) as Hfree'.
  { intros k g Hg ? ? Hne. eapply Hfree; try done.
    by destruct (H3 k g Hg) as [-> _]. }
  split; try done.
  - intros k g [[<- <-]|[Hne Hg]]%lookup_insert_Some; [|by apply H3].
    destruct (H3 _ f Hf) as (? & ? & ? & ? & ? & ? & data & ?).
    repeat split; try done. by exists data.
  - intros k1 f1 k2 f2 [[<- <-]|[Hne1 Hf1]]%lookup_insert_Some
      [[<- <-]|[Hne2 Hf2]]%lookup_insert_Some Hr Hp Hname; try done;
      simpl in Hr, Hp, Hname.
    + exfalso. by eapply (Hfree' k2 f2).
    + exfalso. by eapply (Hfree' k1 f1).
    + by eapply H6.
  - split.
    + intros k1 f1 k2 f2 [[<- <-]|[Hne1 Hf1]]%lookup_insert_Some
        [[<- <-]|[Hne2 Hf2]]%lookup_insert_Some Heq; try done;
        simpl in Heq.
      * by eapply H7.
      * by eapply H7.
      * by eapply H7.
    + intros k b Hb. destruct (H8 k b Hb) as (k' & g & Hg & Hgk).
      destruct (decide (k' = id)) as [->|Hne].
      * exists id, (renamedFile f name now). rewrite lookup_insert_eq.
        split; [done|]. simpl. congruence.
      * exists k', g. by rewrite lookup_insert_ne.
Qed.

End WellFormed.

Section Kept.

Variable O : Oracle.
Hypothesis Hlaw : lawfulOrders O.
Hypothesis Hfresh : freshIds O.

Global Instance keeps_preorder : PreOrder (keeps O).
Proof. split; unfold keeps; [by intros w|intros w1 w2 w3; auto]. Qed.

Lemma quiet_keeps {A} (m : M A) :
  preserves quiet m → preserves (keeps O) m.
Proof.
  intros Hm w r w' Hrun. destruct (Hm w r w' Hrun) as [Hs Hi].
  unfold keeps, wellFormedWorld. by rewrite Hs, Hi.
Qed.

Lemma wellFormed_same w w' :
  store w' = store w → idsUsed w ≤ idsUsed w' →
  wellFormedWorld O w → wellFormedWorld O w'.
Proof.
  unfold wellFormedWorld. intros -> Hle. by apply wellFormed_more_ids.
Qed.

Lemma wellFormed_no_empty_room w :
  wellFormedWorld O w → datarooms (store w) !! "" = None.
Proof.
  intros Hwf. destruct (datarooms (store w) !! "") as [d|] eqn:Hd; [|done].
  destruct (wf_rooms _ _ _ _ _ _ Hwf _ _ Hd) as [_ (i & _ & Hi)].
  by apply Hfresh in Hi.
Qed.

Lemma DataroomService_create_keeps name :
  preserves (keeps O) (DataroomService_create O name).
Proof.
  intros w r w' Hrun%(DataroomService_create_effect O Hlaw) Hwf.
  destruct r as [room|e].
  - destruct Hrun
      as (Hid & Hname & _ & Hfree & _ & Hro & Hfo & Hfi & Hbl & Hi).
    unfold wellFormedWorld. rewrite Hro, Hfo, Hfi, Hbl, Hi.
    by apply wellFormed_insert_room.
  - destruct Hrun. by eapply wellFormed_same.
Qed.

Lemma DataroomService_rename_keeps id name :
  preserves (keeps O) (DataroomService_rename O id name).
Proof.
  intros w r w' Hrun%(DataroomService_rename_effect O Hlaw) Hwf.
  destruct r as [room|e].
  - destruct Hrun
      as (d & now & Hd & -> & _ & Hfree & Hro & Hfo & Hfi & Hbl & Hi).
    unfold wellFormedWorld. rewrite Hro, Hfo, Hfi, Hbl, Hi.
    by apply wellFormed_update_room.
  - destruct Hrun as [Hs Hi]. eapply wellFormed_same; [done|lia|done].
Qed.

Lemma DataroomService_delete_keeps id :
  preserves (keeps O) (DataroomService_delete O id).
Proof.
  intros w r w' Hrun Hwf.
  destruct (DataroomService_delete_effect O Hlaw id w)
    as (counts & w1 & Hrun' & Hro & Hfo & Hfi & Hbl & _ & _ & _ & Hi).
  rewrite Hrun' in Hrun. injection Hrun as <- <-.
  unfold wellFormedWorld. rewrite Hro, Hi.
  by eapply wellFormed_delete_room.
Qed.

Lemma FolderService_create_keeps name room parent action :
  preserves (keeps O) (FolderService_create O name room parent action).
Proof.
  intros w r w' Hrun%(FolderService_create_effect O _ _ _ _ _ _ _ Hlaw) Hwf.
  destruct r as [folder|e].
  - destruct Hrun as (Hid & Hroom & Hparent & Hthere & _ & Hfree & _ & Hnew
                      & Hfo & Hro & Hfi & Hbl & Hi).
    unfold wellFormedWorld. rewrite Hfo, Hfi, Hbl, Hi.
    apply (wellFormed_touch O (datarooms (store w))); [done|].
    apply (wellFormed_more_ids O _ _ _ _ (idsUsed w)); [lia|].
    apply wellFormed_insert_folder; try done.
    + by rewrite Hroom.
    + intros k g Hg Hgr Hgp. eapply Hfree; [done|congruence..].
  - destruct Hrun. by eapply wellFormed_same.
Qed.

Lemma FolderService_rename_keeps id name action :
  preserves (keeps O) (FolderService_rename O id name action).
Proof.
  intros w r w' Hrun%(FolderService_rename_effect O _ _ _ _ _ _ Hlaw) Hwf.
  destruct r as [renamed|e].
  - destruct Hrun as (folder & now & Hfolder & Hren & Hfree & _ & Hfo & Hro
                      & Hfi & Hbl & Hi).
    unfold wellFormedWorld. rewrite Hfo, Hfi, Hbl, Hi, Hren.
    apply (wellFormed_touch O (datarooms (store w))); [done|].
    by apply wellFormed_update_folder.
  - destruct Hrun as [Hs Hi]. eapply wellFormed_same; [done|lia|done].
Qed.

Lemma FolderService_move_keeps id newParentId :
  preserves (keeps O) (FolderService_move O id newParentId).
Proof.
  intros w r w' Hrun%FolderService_move_effect Hwf.
  destruct r as [moved|e].
  - destruct Hrun as (folder & now & Hfolder & -> & Hfo & Hro & Hfi & Hbl
                      & Hi).
    unfold wellFormedWorld. rewrite Hfo, Hfi, Hbl, Hi.
    apply (wellFormed_touch O (datarooms (store w))); [done|].
    apply wellFormed_update_folder; try done.
    intros k g Hg Hgr Hgp Hgid Hname.
    destruct (wf_folders _ _ _ _ _ _ Hwf _ _ Hg) as [Hk _].
    assert (k = id); [|congruence].
    by eapply (wf_folder_names _ _ _ _ _ _ Hwf k g id folder).
  - destruct Hrun as [Hs Hi]. eapply wellFormed_same; [done|lia|done].
Qed.

Lemma FileService_delete_keeps id :
  preserves (keeps O) (FileService_delete O id).
Proof.
  intros w r w' Hrun%FileService_delete_effect Hwf.
  destruct r as [[]|e].
  - destruct Hrun as (f & Hf & Hfi & Hbl & Hfo & Hro & Hi).
    unfold wellFormedWorld. rewrite Hfo, Hfi, Hbl, Hi.
    apply (wellFormed_touch O (datarooms (store w))); [done|].
    by apply wellFormed_delete_file.
  - destruct Hrun as ([Hs Hi] & _). eapply wellFormed_same; [done|lia|done].
Qed.

Lemma FileService_move_keeps id newParentId :
  preserves (keeps O) (FileService_move O id newParentId).
Proof.
  intros w r w' Hrun%FileService_move_effect Hwf.
  destruct r as [moved|e].
  - destruct Hrun as (file & now & Hfile & -> & Hfi & Hro & Hfo & Hbl & Hi).
    unfold wellFormedWorld. rewrite Hfo, Hfi, Hbl, Hi.
    apply (wellFormed_touch O (datarooms (store w))); [done|].
    apply wellFormed_update_file; try done.
    intros k g Hg Hgr Hgp Hgid Hname.
    destruct (wf_files _ _ _ _ _ _ Hwf _ _ Hg) as [Hk _].
    assert (k = id); [|congruence].
    by eapply (wf_file_names _ _ _ _ _ _ Hwf k g id file).
  - destruct Hrun as [Hs Hi]. eapply wellFormed_same; [done|lia|done].
Qed.

Lemma wellFormed_without R Fo Fi B n replaced :
  match replaced with
  | Some old => Fi !! file_id old = Some old
  | None => True
  end →
  wellFormed O R Fo Fi B n →
  wellFormed O R Fo (filesWithout replaced Fi) (blobsWithout replaced B) n.
Proof.
  destruct replaced as [old|]; [|done]. intros Hold Hwf.
  by apply wellFormed_delete_file.
Qed.

Lemma FileService_upload_keeps file room parent action :
  preserves (keeps O) (FileService_upload O file room parent action).
Proof.
  intros w r w' Hrun Hwf.
  apply (FileService_upload_effect O _ _ _ _ _ _ _ Hlaw) in Hrun.
  - destruct r as [created|e].
    + destruct Hrun as (replaced & Hid & Hkey & Hroom & Hparent & Hmime
                        & Htype & Hlen & Hmax & Hthere & _ & Hrep & Hfi
                        & Hbl & Hfo & Hro & Hi).
      unfold wellFormedWorld. rewrite Hfo, Hfi, Hbl, Hi.
      apply (wellFormed_touch O (datarooms (store w))); [done|].
      apply (wellFormed_insert_file O Hfresh); try done.
      * by rewrite Hroom.
      * congruence.
      * by rewrite Hlen.
      * intros k g Hg Hgr Hgp Hname.
        destruct replaced as [old|]; simpl in Hg.
        -- apply lookup_delete_Some in Hg as [Hne Hg].
           destruct Hrep as (_ & Hold & Hor & Hop & Hon).
           apply Hne.
           eapply (wf_file_names _ _ _ _ _ _ Hwf _ old _ g); try done;
             congruence.
        -- eapply Hrep; [done|congruence..].
      * apply wellFormed_without; [|done].
        destruct replaced; [|done]. by destruct Hrep as (_ & ? & _).
    + destruct Hrun as [[Hs Hi]|[_ [g Hg]]].
      * eapply wellFormed_same; [done|lia|done].
      * destruct (wf_files _ _ _ _ _ _ Hwf _ _ Hg) as (_ & (i & Hi & Heq) & _).
        apply Hfresh in Heq. lia.
  - intros k f Hf. by destruct (wf_files _ _ _ _ _ _ Hwf _ _ Hf).
  - by apply wellFormed_no_empty_room.
Qed.

Lemma FileService_rename_keeps id name action :
  preserves (keeps O) (FileService_rename O id name action).
Proof.
  intros w r w' Hrun Hwf.
  apply (FileService_rename_effect O Hlaw) in Hrun.
  - destruct r as [renamed|e].
    + destruct Hrun as (file & now & replaced & Hfile & Hren & _ & Hrep & Hfi
                        & Hbl & Hfo & Hro & Hi).
      unfold wellFormedWorld. rewrite Hfo, Hfi, Hbl, Hi, Hren.
      apply (wellFormed_touch O (datarooms (store w))); [done|].
      assert (filesWithout replaced (files (store w)) !! id = Some file)
        as Hstill.
      { destruct replaced as [old|]; simpl; [|done].
        rewrite lookup_delete_ne; [done|]. by destruct Hrep as (_ & _ & ? & _). }
      apply wellFormed_update_file; [done| |].
      * intros k g Hg Hgr Hgp Hgid Hname.
        destruct replaced as [old|]; simpl in Hg.
        -- apply lookup_delete_Some in Hg as [Hne Hg].
           destruct Hrep as (_ & Hold & _ & Hor & Hop & Hon).
           apply Hne.
           eapply (wf_file_names _ _ _ _ _ _ Hwf _ old _ g); try done;
             congruence.
        -- by eapply Hrep.
      * apply wellFormed_without; [|done].
        destruct replaced; [|done]. by destruct Hrep as (_ & ? & _).
    + destruct Hrun as [Hs Hi]. eapply wellFormed_same; [done|lia|done].
  - intros k f Hf.
    destruct (wf_files _ _ _ _ _ _ Hwf _ _ Hf) as (? & _ & _ & [d Hd] & _).
    split; [done|]. intros Hempty. rewrite Hempty in Hd.
    by rewrite (wellFormed_no_empty_room w Hwf) in Hd.
Qed.

Lemma FolderRepo_delete_keeps id : preserves (keeps O) (FolderRepo_delete id).
Proof.
  intros w r w'. rewrite FolderRepo_delete_run. intros [= <- <-].
  destruct w as [[R Fo Fi B] n t l]. unfold keeps, wellFormedWorld. simpl.
  apply wellFormed_delete_folder.
Qed.

Lemma DataroomRepo_touch_keeps id : preserves (keeps O) (DataroomRepo_touch O id).
Proof.
  intros w r w' Hrun Hwf.
  destruct (DataroomRepo_touch_rooms O id w)
    as (n & w1 & Hrun' & Hro & Hfo & Hfi & Hbl & Hi).
  rewrite Hrun' in Hrun. injection Hrun as <- <-.
  unfold wellFormedWorld. rewrite Hfo, Hfi, Hbl, Hi.
  by apply (wellFormed_touch O (datarooms (store w))).
Qed.

Lemma FolderService_delete_keeps id :
  preserves (keeps O) (FolderService_delete O id).
Proof.
  pose proof FileService_delete_keeps. pose proof FolderRepo_delete_keeps.
  pose proof DataroomRepo_touch_keeps.
  pose proof (λ id, quiet_keeps (FolderRepo_getRequired id)
                      (FolderRepo_getRequired_quiet id)).
  pose proof (λ room, quiet_keeps (FolderRepo_listByDataroom O room)
                        (FolderRepo_listByDataroom_quiet O room)).
  pose proof (λ room, quiet_keeps (FileRepo_listByDataroom O room)
                        (FileRepo_listByDataroom_quiet O room)).
  pose proof (λ r, quiet_keeps (orStackOverflow r)
                     (orStackOverflow_quiet (A := list ID) r)).
  unfold FolderService_delete, deleteFilesIn. preserves_tac.
Qed.

Lemma perform_keeps op : preserves (keeps O) (perform O op).
Proof.
  destruct op; simpl; apply (preserves_discard _);
    auto using DataroomService_create_keeps, DataroomService_rename_keeps,
      DataroomService_delete_keeps, FolderService_create_keeps,
      FolderService_rename_keeps, FolderService_move_keeps,
      FolderService_delete_keeps, FileService_upload_keeps,
      FileService_rename_keeps, FileService_move_keeps,
      FileService_delete_keeps.
Qed.

Lemma reachable_wellFormed w : reachable O w → wellFormedWorld O w.
Proof.
  induction 1 as [|w op _ IH].
  - apply wellFormed_empty.
  - destruct (perform O op w) as [r w'] eqn:Hrun.
    by apply (perform_keeps op w r w' Hrun).
Qed.

End Kept.

Section Failures.

Variable O : Oracle.
Hypothesis Hlaw : lawfulOrders O.

(** Once the subtree is listed, [delete] goes through. *)
Lemma FolderService_delete_goes_through id w c D :
  keysOk (store w) →
  folders (store w) !! id = Some c →
  getDescendantFolderIds (spreadLimit O) (stackDepth O) id
    (foldersOfRoom O (store w) (folder_dataroomId c)) = Some D →
  ∃ counts w', FolderService_delete O id w = (Ok counts, w').
Proof.
  intros Hkeys Hc HD.
  set (allFiles := filesOfRoom O (store w) (folder_dataroomId c)).
  set (L := filesIn allFiles (id :: D)).
  assert (NoDup (file_id <$> allFiles)) as Hndf
    by (apply (NoDup_filesOfRoom O Hlaw); exact Hkeys).
  assert (NoDup (id :: D)) as HndD.
  { apply NoDup_cons. split.
    - by eapply getDescendantFolderIds_not_self.
    - eapply getDescendantFolderIds_NoDup; [|exact HD].
      by apply (NoDup_foldersOfRoom O Hlaw). }
  destruct (deleteFiles_loop O L (NoDup_filesIn allFiles Hndf _ HndD)
              (logged (Read TFiles)
                 (logged (Read TFolders) (logged (Read TFolders) w))) 0)
    as (w4 & Hloop1 & _).
  { intros f [Hf _]%elem_of_filesIn.
    apply (elem_of_filesOfRoom O Hlaw) in Hf as [[k Hk] _]. simpl.
    destruct Hkeys as [_ Hkf]. by rewrite (Hkf k f Hk). }
  destruct (deleteFolders_loop (rev D) w4 0) as (w5 & Hloop2 & _).
  pose proof (FolderRepo_delete_run id w5) as Hdel.
  set (w6 := withStore _ _) in Hdel.
  destruct (DataroomRepo_touch_run O (folder_dataroomId c) w6)
    as (nt & w7 & Htouch & _).
  eexists _, w7. unfold FolderService_delete.
  rewrite (bind_run _ _ _ _ _ (FolderRepo_getRequired_run id w c Hc)).
  rewrite (bind_run _ _ _ _ _ (FolderRepo_listByDataroom_run O _ _)).
  rewrite (bind_run _ _ _ _ _ (FileRepo_listByDataroom_run O _ _)).
  change (foldersOfRoom O (store (logged (Read TFolders) w))
            (folder_dataroomId c))
    with (foldersOfRoom O (store w) (folder_dataroomId c)).
  rewrite HD.
  change (orStackOverflow (Some D)) with (@ret (list string) D).
  rewrite bind_ret_l.
  change (filesOfRoom O
            (store (logged (Read TFolders) (logged (Read TFolders) w)))
            (folder_dataroomId c)) with allFiles.
  unfold L in Hloop1. rewrite <- deleteFilesIn_flat in Hloop1.
  rewrite (bind_run _ _ _ _ _ Hloop1).
  change (foldM (λ deleted folderId,
                   FolderRepo_delete folderId;; ret (S deleted))
            0 (rev D)) with (foldM deleteOneFolder 0 (rev D)).
  rewrite (bind_run _ _ _ _ _ Hloop2).
  rewrite (bind_run _ _ _ _ _ Hdel).
  rewrite (bind_run _ _ _ _ _ Htouch).
  reflexivity.
Qed.

(** [delete] throws before it writes: for a folder that is not there, or
    whose subtree does not fit in the stack. *)
Lemma FolderService_delete_fails id w e w' :
  keysOk (store w) →
  FolderService_delete O id w = (Err e, w') →
  quiet w w'
  ∧ match folders (store w) !! id with
    | None => e = NotFoundError "Folder" id
    | Some c =>
        e = RangeError
        ∧ getDescendantFolderIds (spreadLimit O) (stackDepth O) id
            (foldersOfRoom O (store w) (folder_dataroomId c)) = None
    end.
Proof.
  intros Hkeys Hrun.
  destruct (folders (store w) !! id) as [c|] eqn:Hc.
  - destruct (getDescendantFolderIds (spreadLimit O) (stackDepth O) id
                (foldersOfRoom O (store w) (folder_dataroomId c)))
      as [D|] eqn:HD.
    + destruct (FolderService_delete_goes_through id w c D Hkeys Hc HD)
        as (counts & w1 & Hok).
      congruence.
    + unfold FolderService_delete in Hrun.
      rewrite (bind_run _ _ _ _ _ (FolderRepo_getRequired_run id w c Hc))
        in Hrun.
      rewrite (bind_run _ _ _ _ _ (FolderRepo_listByDataroom_run O _ _))
        in Hrun.
      rewrite (bind_run _ _ _ _ _ (FileRepo_listByDataroom_run O _ _))
        in Hrun.
      change (foldersOfRoom O (store (logged (Read TFolders) w))
                (folder_dataroomId c))
        with (foldersOfRoom O (store w) (folder_dataroomId c)) in Hrun.
      rewrite HD in Hrun. by injection Hrun as <- <-.
  - unfold FolderService_delete in Hrun.
    unfold bind at 1 in Hrun. rewrite FolderRepo_getRequired_run', Hc in Hrun.
    by injection Hrun as <- <-.
Qed.

End Failures.

Section Atomicity.

Variable O : Oracle.
Hypothesis Hlaw : lawfulOrders O.

Lemma discard_Err {A} (m : M A) w e w' :
  discard m w = (Err e, w') → m w = (Err e, w').
Proof.
  unfold discard. intros [(a & w1 & _ & [=])|(e' & H1 & [= ->])]%bind_inv.
  done.
Qed.

Lemma perform_fails op w e w' :
  keysOk (store w) →
  datarooms (store w) !! "" = None →
  (∀ k f, files (store w) !! k = Some f → file_dataroomId f ≠ "") →
  perform O op w = (Err e, w') →
  e ≠ DatabaseError →
  store w' = store w.
Proof.
  intros [Hfolders Hfiles] Hnoroom Hrooms Hrun Hcheck.
  destruct op; simpl in Hrun; apply discard_Err in Hrun.
  - by apply (DataroomService_create_effect O Hlaw) in Hrun as [? _].
  - by apply (DataroomService_rename_effect O Hlaw) in Hrun as [? _].
  - destruct (DataroomService_delete_effect O Hlaw id w)
      as (counts & w1 & Hok & _). congruence.
  - by apply (FolderService_create_effect O _ _ _ _ _ _ _ Hlaw) in Hrun
      as [? _].
  - by apply (FolderService_rename_effect O _ _ _ _ _ _ Hlaw) in Hrun
      as [? _].
  - by apply FolderService_move_effect in Hrun as [? _].
  - by apply (FolderService_delete_fails O Hlaw) in Hrun as [[? _] _].
  - by apply (FileService_upload_effect O _ _ _ _ _ _ _ Hlaw) in Hrun
      as [[? _]|[? _]].
  - apply (FileService_rename_effect O Hlaw) in Hrun as [? _]; [done|].
    intros k f Hf. split; [by apply Hfiles|by apply (Hrooms k)].
  - by apply FileService_move_effect in Hrun as [? _].
  - by apply FileService_delete_effect in Hrun as [[? _] _].
Qed.

End Atomicity.

(** X20. What [FolderService.create] does when it returns: it adds one
    folder and touches its room, and nothing else. The folder it returns
    is the record it stored: under the next id of the generator, which was
    free; in the room and under the parent asked for, the room being there
    and the parent too unless it is empty; with a name that no folder of
    the same room and parent carried. That name is the normalised name
    when no folder of the room and parent carries it; otherwise the action
    is "keep-both" and the name is the one that [generateUniqueName] makes
    of the normalised name and the names of these folders. *)
Theorem FolderService_create_outcome
    (O : Oracle) (name : string) (room : ID) (parent : option ID)
    (action : NameCollisionAction) (w w' : World) (folder : Folder) :
  lawfulOrders O →
  FolderService_create O name room parent action w = (Ok folder, w') →
  folder_id folder = genId O (idsUsed w)
  ∧ folder_dataroomId folder = room
  ∧ folder_parentId folder = parent
  ∧ is_Some (datarooms (store w) !! room)
  ∧ (∀ p, parent = Some p → p = "" ∨ is_Some (folders (store w) !! p))
  ∧ (∀ k g, folders (store w) !! k = Some g →
            folder_dataroomId g = room → folder_parentId g = parent →
            folder_name g ≠ folder_name folder)
  ∧ (if folderNameTaken (normalizeName name) None
        (siblingFolders O (store w) parent room)
     then action = KeepBoth
          ∧ generateUniqueName (normalizeName name)
              (list_to_set
                 (folder_name <$> siblingFolders O (store w) parent room))
            = Some (folder_name folder)
     else folder_name folder = normalizeName name)
  ∧ folders (store w) !! folder_id folder = None
  ∧ folders (store w') = <[folder_id folder := folder]> (folders (store w))
  ∧ roomsTouched (datarooms (store w)) (datarooms (store w'))
  ∧ files (store w') = files (store w)
  ∧ blobs (store w') = blobs (store w)
  ∧ idsUsed w' = S (idsUsed w).
Proof.
  intros Hlaw Hrun.
  exact (FolderService_create_effect O name room parent action w w'
           (Ok folder) Hlaw Hrun).
Qed.

(** X21. What [FolderService.rename] does when it returns: it rewrites the
    one folder and touches its room, and nothing else. The record it
    returns is the record it stored under the id: the folder that was
    there, with its id, room and parent, under a name that no other folder
    of the same room and parent carried. That name is the normalised name
    when no other folder of the room and parent carries it; otherwise the
    action is "keep-both" and the name is the one that
    [generateUniqueName] makes of the normalised name and the names of
    these other folders. *)
Theorem FolderService_rename_outcome
    (O : Oracle) (id : ID) (name : string) (action : NameCollisionAction)
    (w w' : World) (renamed : Folder) :
  lawfulOrders O →
  FolderService_rename O id name action w = (Ok renamed, w') →
  ∃ folder now,
    folders (store w) !! id = Some folder
    ∧ renamed = renamedFolder folder (folder_name renamed) now
    ∧ (∀ k g, folders (store w) !! k = Some g →
              folder_dataroomId g = folder_dataroomId folder →
              folder_parentId g = folder_parentId folder →
              folder_id g ≠ id →
              folder_name g ≠ folder_name renamed)
    ∧ (if folderNameTaken (normalizeName name) (Some id)
          (siblingFolders O (store w) (folder_parentId folder)
             (folder_dataroomId folder))
       then action = KeepBoth
            ∧ generateUniqueName (normalizeName name)
                (list_to_set
                   (folder_name <$>
                      List.filter (λ f, bool_decide (folder_id f ≠ id))
                        (siblingFolders O (store w) (folder_parentId folder)
                           (folder_dataroomId folder))))
              = Some (folder_name renamed)
       else folder_name renamed = normalizeName name)
    ∧ folders (store w') = <[id := renamed]> (folders (store w))
    ∧ roomsTouched (datarooms (store w)) (datarooms (store w'))
    ∧ files (store w') = files (store w)
    ∧ blobs (store w') = blobs (store w)
    ∧ idsUsed w' = idsUsed w.
Proof.
  intros Hlaw Hrun.
  exact (FolderService_rename_effect O id name action w w' (Ok renamed)
           Hlaw Hrun).
Qed.

(** X22. What [FileService.upload] does when it returns, in a store whose
    files sit under their own ids and which has no room under the empty
    id: it stores one file and its blob, removes the file it replaces
    together with that file's blob, touches rooms, and does nothing else.
    The file it returns is the record it stored: a PDF of at most 50 MiB,
    under the second next id of the generator and with the next id as
    blob key, in the room and under the parent asked for. When no file of
    the room and parent carries the normalised name, that is the name and
    nothing is replaced. Otherwise, under "replace" that is the name and a
    file is replaced, a file of that room and parent with that name; under
    "keep-both" nothing is replaced and the name is the one that
    [generateUniqueName] makes of the normalised name and the names of the
    files of the room and parent; and the action is not "cancel". When no
    file is replaced, no file of that room and parent carried the name. *)
Theorem FileService_upload_outcome
    (O : Oracle) (file : JsFile) (room : ID) (parent : option ID)
    (action : NameCollisionAction) (w w' : World) (created : FileObject) :
  lawfulOrders O →
  (∀ k f, files (store w) !! k = Some f → file_id f = k) →
  datarooms (store w) !! "" = None →
  FileService_upload O file room parent action w = (Ok created, w') →
  ∃ replaced,
    file_id created = genId O (S (idsUsed w))
    ∧ file_blobKey created = genId O (idsUsed w)
    ∧ file_dataroomId created = room
    ∧ file_parentId created = parent
    ∧ file_mimeType created = jsfile_type file
    ∧ jsfile_type file = "application/pdf"
    ∧ file_size created = jsfile_size file
    ∧ (jsfile_size file ≤ maxSizeBytes)%N
    ∧ is_Some (datarooms (store w) !! room)
    ∧ (if fileNameTaken (normalizeName (jsfile_name file)) None
          (siblingFiles O (store w) parent room)
       then match action with
            | Replace =>
                file_name created = normalizeName (jsfile_name file)
                ∧ is_Some replaced
            | KeepBoth =>
                replaced = None
                ∧ generateUniqueName (normalizeName (jsfile_name file))
                    (list_to_set
                       (file_name <$> siblingFiles O (store w) parent room))
                  = Some (file_name created)
            | Cancel => False
            end
       else file_name created = normalizeName (jsfile_name file)
            ∧ replaced = None)
    ∧ match replaced with
      | Some old =>
          action = Replace
          ∧ files (store w) !! file_id old = Some old
          ∧ file_dataroomId old = room
          ∧ file_parentId old = parent
          ∧ file_name old = file_name created
      | None =>
          ∀ k g, files (store w) !! k = Some g →
                 file_dataroomId g = room → file_parentId g = parent →
                 file_name g ≠ file_name created
      end
    ∧ files (store w')
      = <[file_id created := created]>
          (filesWithout replaced (files (store w)))
    ∧ blobs (store w')
      = <[file_blobKey created := mkDBBlob (file_blobKey created) file]>
          (blobsWithout replaced (blobs (store w)))
    ∧ folders (store w') = folders (store w)
    ∧ roomsTouched (datarooms (store w)) (datarooms (store w'))
    ∧ idsUsed w' = S (S (idsUsed w)).
Proof.
  intros Hlaw Hkeys Hnoroom Hrun.
  exact (FileService_upload_effect O file room parent action w w'
           (Ok created) Hlaw Hkeys Hnoroom Hrun).
Qed.

(** X23. What [FileService.rename] does when it returns, in a store whose
    files sit under their own ids and in rooms whose id is not empty: it
    rewrites the one file, removes the file it replaces together with that
    file's blob, touches rooms, and does nothing else. The record it
    returns is the record it stored under the id: the file that was there,
    with its id, room, parent, type, size and blob key. When no other file
    of the room and parent carries the normalised name, that is the name
    and nothing is replaced. Otherwise, under "replace" that is the name
    and a file is replaced, another file of that room and parent with that
    name; under "keep-both" nothing is replaced and the name is the one
    that [generateUniqueName] makes of the normalised name and the names
    of the other files of the room and parent; and the action is not
    "cancel". When no file is replaced, no other file of that room and
    parent carried the name. *)
Theorem FileService_rename_outcome
    (O : Oracle) (id : ID) (name : string) (action : NameCollisionAction)
    (w w' : World) (renamed : FileObject) :
  lawfulOrders O →
  (∀ k f, files (store w) !! k = Some f →
          file_id f = k ∧ file_dataroomId f ≠ "") →
  FileService_rename O id name action w = (Ok renamed, w') →
  ∃ file now replaced,
    files (store w) !! id = Some file
    ∧ renamed = renamedFile file (file_name renamed) now
    ∧ (if fileNameTaken (normalizeName name) (Some id)
          (siblingFiles O (store w) (file_parentId file)
             (file_dataroomId file))
       then match action with
            | Replace =>
                file_name renamed = normalizeName name ∧ is_Some replaced
            | KeepBoth =>
                replaced = None
                ∧ generateUniqueName (normalizeName name)
                    (list_to_set
                       (file_name <$>
                          List.filter (λ f, bool_decide (file_id f ≠ id))
                            (siblingFiles O (store w) (file_parentId file)
                               (file_dataroomId file))))
                  = Some (file_name renamed)
            | Cancel => False
            end
       else file_name renamed = normalizeName name ∧ replaced = None)
    ∧ match replaced with
      | Some old =>
          action = Replace
          ∧ files (store w) !! file_id old = Some old
          ∧ file_id old ≠ id
          ∧ file_dataroomId old = file_dataroomId file
          ∧ file_parentId old = file_parentId file
          ∧ file_name old = file_name renamed
      | None =>
          ∀ k g, files (store w) !! k = Some g →
                 file_dataroomId g = file_dataroomId file →
                 file_parentId g = file_parentId file →
                 file_id g ≠ id → file_name g ≠ file_name renamed
      end
    ∧ files (store w')
      = <[id := renamed]> (filesWithout replaced (files (store w)))
    ∧ blobs (store w') = blobsWithout replaced (blobs (store w))
    ∧ folders (store w') = folders (store w)
    ∧ roomsTouched (datarooms (store w)) (datarooms (store w'))
    ∧ idsUsed w' = idsUsed w.
Proof.
  intros Hlaw Hkeys Hrun.
  exact (FileService_rename_effect O Hlaw id name action w (Ok renamed) w'
           Hkeys Hrun).
Qed.

(** X24. [DataroomService.create] either fails and leaves the four tables as
    they are, or adds one room and nothing else. The name is validated as
    it is given, as the name of a folder, and stored normalised; the room
    is stored under the next id of the generator, which was free, and no
    room carried its name. *)
Theorem DataroomService_create_outcome
    (O : Oracle) (name : string) (w w' : World) (r : Result Dataroom) :
  lawfulOrders O →
  DataroomService_create O name w = (r, w') →
  match r with
  | Err _ => store w' = store w ∧ idsUsed w ≤ idsUsed w'
  | Ok room =>
      room_id room = genId O (idsUsed w)
      ∧ room_name room = normalizeName name
      ∧ validateName name KFolder = Ok tt
      ∧ (∀ k d, datarooms (store w) !! k = Some d →
                room_name d ≠ room_name room)
      ∧ datarooms (store w) !! room_id room = None
      ∧ datarooms (store w')
        = <[room_id room := room]> (datarooms (store w))
      ∧ folders (store w') = folders (store w)
      ∧ files (store w') = files (store w)
      ∧ blobs (store w') = blobs (store w)
      ∧ idsUsed w' = S (idsUsed w)
  end.
Proof.
  intros Hlaw. exact (DataroomService_create_effect O Hlaw name w r w').
Qed.

(** X25. The cascade of a room. [DataroomService.delete] returns for every
    id, and removes the room, the folders of the room, the files of the
    room and the blobs of these files, and nothing else. The counts of
    folders and of files that it returns are the counts that
    [getDeletionImpact] announces in the world in which the deletion
    starts, and the count of blobs is the number of blobs that left the
    table. *)
Theorem DataroomService_delete_outcome (O : Oracle) (id : ID) (w : World) :
  lawfulOrders O →
  ∃ counts w',
    DataroomService_delete O id w = (Ok counts, w')
    ∧ datarooms (store w') = delete id (datarooms (store w))
    ∧ (∀ k f, folders (store w') !! k = Some f
              ↔ folders (store w) !! k = Some f ∧ folder_dataroomId f ≠ id)
    ∧ (∀ k f, files (store w') !! k = Some f
              ↔ files (store w) !! k = Some f ∧ file_dataroomId f ≠ id)
    ∧ (∀ k b, blobs (store w') !! k = Some b
              ↔ blobs (store w) !! k = Some b
                ∧ ∀ k' f, files (store w) !! k' = Some f →
                          file_dataroomId f = id → file_blobKey f ≠ k)
    ∧ (DataroomService_getDeletionImpact O id w).1
      = Ok (mkFolderDeletion (room_deleted_folders counts)
              (room_deleted_files counts))
    ∧ room_deleted_blobs counts + size (blobs (store w'))
      = size (blobs (store w)).
Proof.
  intros Hlaw.
  destruct (DataroomService_delete_effect O Hlaw id w)
    as (counts & w' & Hrun & Hro & Hfo & Hfi & Hbl & Hnfo & Hnfi & Hnbl & _).
  exists counts, w'. repeat (split; [done|]). split; [|done].
  unfold DataroomService_getDeletionImpact.
  rewrite (bind_run _ _ _ _ _ (FolderRepo_listByDataroom_run O _ _)).
  rewrite (bind_run _ _ _ _ _ (FileRepo_listByDataroom_run O _ _)).
  simpl. by rewrite Hnfo, Hnfi.
Qed.

(** X26. In every world that a caller can reach, names are unique where the
    services say they are: no two rooms carry the same name, and no two
    folders, and no two files, of the same room and under the same parent
    carry the same name. *)
Theorem reachable_names_unique (O : Oracle) (w : World) :
  freshIds O → lawfulOrders O → reachable O w →
  uniqueRoomNames (datarooms (store w))
  ∧ uniqueFolderNames (folders (store w))
  ∧ uniqueFileNames (files (store w)).
Proof.
  intros Hfresh Hlaw Hw.
  destruct (reachable_wellFormed O Hlaw Hfresh w Hw). by repeat split.
Qed.

(** X27. In every world that a caller can reach, files and blobs agree: a
    stored file is a PDF of at most 50 MiB; a blob that is stored under
    the blob key of a stored file carries that key and has the type and
    the size that the record of the file gives; and no two files share a
    blob key. *)
Theorem reachable_files_match_blobs (O : Oracle) (w : World) :
  freshIds O → lawfulOrders O → reachable O w →
  (∀ k f, files (store w) !! k = Some f →
          file_mimeType f = "application/pdf"
          ∧ (file_size f ≤ maxSizeBytes)%N
          ∧ ∀ b, blobs (store w) !! file_blobKey f = Some b →
                 blob_key b = file_blobKey f
                 ∧ jsfile_type (blob_data b) = file_mimeType f
                 ∧ jsfile_size (blob_data b) = file_size f)
  ∧ (∀ k1 f1 k2 f2,
       files (store w) !! k1 = Some f1 → files (store w) !! k2 = Some f2 →
       file_blobKey f1 = file_blobKey f2 → k1 = k2).
Proof.
  intros Hfresh Hlaw Hw.
  destruct (reachable_wellFormed O Hlaw Hfresh w Hw)
    as [_ _ H3 _ _ _ [H7 _]].
  split; [|exact H7]. intros k f Hf.
  destruct (H3 k f Hf)
    as (_ & _ & _ & _ & Hpdf & Hmax & data & Hdata & Htype & Hsize).
  split; [done|]. split; [done|].
  intros b Hb. rewrite Hdata in Hb. by injection Hb as <-.
Qed.

(** X28. In every world that a caller can reach, every record sits under its
    own id, the id of a room is not empty, and the room of every folder
    and of every file is a stored room. *)
Theorem reachable_records_in_rooms (O : Oracle) (w : World) :
  freshIds O → lawfulOrders O → reachable O w →
  (∀ k d, datarooms (store w) !! k = Some d → room_id d = k ∧ k ≠ "")
  ∧ (∀ k f, folders (store w) !! k = Some f →
            folder_id f = k
            ∧ is_Some (datarooms (store w) !! folder_dataroomId f))
  ∧ (∀ k f, files (store w) !! k = Some f →
            file_id f = k
            ∧ is_Some (datarooms (store w) !! file_dataroomId f)).
Proof.
  intros Hfresh Hlaw Hw.
  destruct (reachable_wellFormed O Hlaw Hfresh w Hw) as [H1 H2 H3 _ _ _ _].
  split; [|split; [done|]].
  - intros k d Hd. destruct (H1 k d Hd) as [? (i & _ & <-)].
    split; [done|]. apply Hfresh.
  - intros k f Hf. by destruct (H3 k f Hf) as (? & _ & _ & ? & _).
Qed.


(** X30. A service throws its own errors before it writes. In a store whose
    folders and files sit under their own ids, with no room under the
    empty id and no file in a room with the empty id, an operation of the
    three services that throws an error other than the [DatabaseError] and
    the [BlobError] in which the repositories wrap what the store throws,
    leaves the four tables as they were. *)
Theorem failed_check_leaves_store
    (O : Oracle) (op : Operation) (w w' : World) (e : Error) :
  lawfulOrders O →
  keysOk (store w) →
  datarooms (store w) !! "" = None →
  (∀ k f, files (store w) !! k = Some f → file_dataroomId f ≠ "") →
  perform O op w = (Err e, w') →
  e ≠ DatabaseError → e ≠ BlobError →
  store w' = store w.
Proof.
  intros Hlaw Hkeys Hnoroom Hrooms Hrun Hdb _.
  exact (perform_fails O Hlaw op w e w' Hkeys Hnoroom Hrooms Hrun Hdb).
Qed.

(** * The further properties on concrete inputs *)

(** In "a b", made from "  a   b ", the space is followed by "b". *)
Lemma normalizeName_single_spaces_witness :
  " "%char = " "%char
  ∧ 1 ≠ 0
  ∧ ∃ d, String.get 2 (normalizeName "  a   b ") = Some d
         ∧ JsString.isWhiteSpace d = false.
Proof.
  apply (normalizeName_single_spaces "  a   b " 1 " "%char).
  - by vm_compute.
  - by vm_compute.
Defined.

(** "Reports" is taken by a sibling: the probe says so and the resolution
    cancels. *)
Lemma isNameAvailable_agrees_with_resolution_witness :
  resolveNameCollision folder_id folder_name (ForKind KFolder) "Reports"
    Cancel [mkFolder "id1" "id0" None "Reports" 1 1] None false
  = Err (AlreadyExistsError "Folder" "Reports").
Proof.
  destruct (isNameAvailable_agrees_with_resolution folder_id folder_name
              (ForKind KFolder) "Reports"
              [mkFolder "id1" "id0" None "Reports" 1 1] None)
    as [_ Htaken].
  - by vm_compute.
  - apply (Htaken eq_refl false).
Defined.

(** Keeping both "Reports": nothing is replaced, and the sibling does not
    carry the final name. *)
Lemma resolveNameCollision_result_witness :
  existingItem (mkNameCollisionResult "Reports (1)" false (@None Folder))
  = None
  ∧ ∀ x, x ∈ [mkFolder "id1" "id0" None "Reports" 1 1] →
         Some (folder_id x) ≠ None → folder_name x ≠ "Reports (1)".
Proof.
  destruct (resolveNameCollision_result folder_id folder_name
              (ForKind KFolder) "Reports" KeepBoth
              [mkFolder "id1" "id0" None "Reports" 1 1] None false
              (mkNameCollisionResult "Reports (1)" false None))
    as [_ Hkept].
  - by vm_compute.
  - exact (Hkept eq_refl).
Defined.

(** Under A of the nested world: one folder, B, and one file, L in B. *)
Lemma countDescendants_counts_descendants_witness :
  (1, 1)
  = (length ["id2"],
     length
       (filesIn
          [mkFileObject "id4" "id0" (Some "id2") "L.pdf" "application/pdf" 4
             "id3" 5 5]
          ["id1"; "id2"])).
Proof.
  apply (countDescendants_counts_descendants (λ _, 1000) 3 5 "id1"
           [mkFolder "id1" "id0" None "A" 1 1;
            mkFolder "id2" "id0" (Some "id1") "B" 3 3]
           [mkFileObject "id4" "id0" (Some "id2") "L.pdf" "application/pdf" 4
              "id3" 5 5]
           (1, 1) ["id2"]).
  - by vm_compute.
  - by vm_compute.
Defined.

(** The preview of the deletion of A in the nested world. *)
Lemma FolderService_getDeletionImpact_predicts_delete_witness :
  mkFolderDeletion 2 1 = mkFolderDeletion 2 1
  ∧ store (FolderService_getDeletionImpact demoOracle "id1" worldNested).2
    = store worldNested.
Proof.
  apply (FolderService_getDeletionImpact_predicts_delete demoOracle "id1"
           worldNested
           (FolderService_delete demoOracle "id1" worldNested).2
           (FolderService_getDeletionImpact demoOracle "id1" worldNested).2
           (mkFolderDeletion 2 1) (mkFolderDeletion 2 1)).
  - by vm_compute.
  - by vm_compute.
Defined.

(** The tree under A of the nested world lists B. *)
Lemma buildFolderTree_lists_descendants_witness :
  flat_map nodeIds [mkTreeNode "id2" "B" [] None 0 0 0] = ["id2"].
Proof.
  apply (buildFolderTree_lists_descendants (λ _, 1000) 3 3
           [mkFolder "id1" "id0" None "A" 1 1;
            mkFolder "id2" "id0" (Some "id1") "B" 3 3]
           "id1").
  - by vm_compute.
  - by vm_compute.
Defined.

(** The tree of the nested world: A at the root, B in A. *)
Lemma buildFolderTree_nodes_witness :
  Forall2 (λ folder root, nodeOf folder None 0 root)
    (List.filter (λ folder, bool_decide (folder_parentId folder = None))
       [mkFolder "id1" "id0" None "A" 1 1;
        mkFolder "id2" "id0" (Some "id1") "B" 3 3])
    [mkTreeNode "id1" "A"
       [mkTreeNode "id2" "B" [] (Some "id1") 1 0 0] None 0 0 1]
  ∧ ∀ root node,
      root ∈ [mkTreeNode "id1" "A"
                [mkTreeNode "id2" "B" [] (Some "id1") 1 0 0] None 0 0 1] →
      node ∈ subnodes root →
      nodeFilled [mkFolder "id1" "id0" None "A" 1 1;
                  mkFolder "id2" "id0" (Some "id1") "B" 3 3] node.
Proof.
  apply (buildFolderTree_nodes 3
           [mkFolder "id1" "id0" None "A" 1 1;
            mkFolder "id2" "id0" (Some "id1") "B" 3 3]
           None
           [mkTreeNode "id1" "A"
              [mkTreeNode "id2" "B" [] (Some "id1") 1 0 0] None 0 0 1]).
  by vm_compute.
Defined.

(** The breadcrumbs of B in the nested world: the room, A, B. *)
Lemma buildBreadcrumbs_path_witness :
  ∃ path,
    [mkBreadcrumbItem "id0" "Acme" CrumbDataroom;
     mkBreadcrumbItem "id1" "A" CrumbFolder;
     mkBreadcrumbItem "id2" "B" CrumbFolder]
    = mkBreadcrumbItem "id0" "Acme" CrumbDataroom :: (folderCrumb <$> path)
    ∧ ∀ folder, folder ∈ path →
                folder ∈ [mkFolder "id1" "id0" None "A" 1 1;
                          mkFolder "id2" "id0" (Some "id1") "B" 3 3].
Proof.
  destruct (buildBreadcrumbs_path 5 (Some "id2")
              [mkFolder "id1" "id0" None "A" 1 1;
               mkFolder "id2" "id0" (Some "id1") "B" 3 3]
              "Acme" "id0"
              [mkBreadcrumbItem "id0" "Acme" CrumbDataroom;
               mkBreadcrumbItem "id1" "A" CrumbFolder;
               mkBreadcrumbItem "id2" "B" CrumbFolder])
    as (path & Hcrumbs & _ & _ & Hmembers).
  - by vm_compute.
  - exists path. exact (conj Hcrumbs Hmembers).
Defined.

(** In the nested world the breadcrumbs of B are built. *)
Lemma buildBreadcrumbs_returns_witness :
  is_Some (buildBreadcrumbs (S (idsUsed worldNested)) (Some "id2")
             (foldersOfRoom demoOracle (store worldNested) "id0") "Acme"
             "id0").
Proof.
  apply (buildBreadcrumbs_returns demoOracle worldNested (Some "id2") "Acme"
           "id0").
  - exact demoOracle_fresh.
  - exact demoOracle_lawful.
  - apply reachable_runAll, reachable_empty.
Defined.

(** Counting and listing at the root of the room "id0". *)
Lemma repo_count_agrees_with_list_witness :
  ∃ l w1 w2,
    FileRepo_listByParent demoOracle None "id0" worldSideBySide = (Ok l, w1)
    ∧ FileRepo_countInFolder None "id0" worldSideBySide
      = (Ok (length l), w2).
Proof.
  apply (repo_count_agrees_with_list demoOracle None "id0" worldSideBySide).
  - exact demoOracle_lawful.
  - discriminate.
Defined.

(** Deleting the files at the root of the room "id0" leaves the blobs. *)
Lemma FileRepo_deleteByFolder_leaves_blobs_witness :
  ∃ n w1,
    FileRepo_deleteByFolder demoOracle None "id0" worldSideBySide = (Ok n, w1)
    ∧ n + size (files (store w1)) = size (files (store worldSideBySide))
    ∧ blobs (store w1) = blobs (store worldSideBySide).
Proof.
  destruct (FileRepo_deleteByFolder_leaves_blobs demoOracle None "id0"
              worldSideBySide)
    as (n & w1 & Hrun & _ & Hsize & Hblobs & _).
  - exact demoOracle_lawful.
  - apply (bool_decide_unpack
             (map_Forall (λ k f, file_id f = k)
                (files (store worldSideBySide)))).
    by vm_compute.
  - exists n, w1. exact (conj Hrun (conj Hsize Hblobs)).
Defined.

(** A second "A" beside A and B, keeping both, is stored as "A (1)" under
    "id5". *)
Lemma FolderService_create_outcome_witness :
  folders (store (FolderService_create demoOracle "A" "id0" None KeepBoth
                    worldSideBySide).2)
  = <["id5" := mkFolder "id5" "id0" None "A (1)" 7 7]>
      (folders (store worldSideBySide))
  ∧ files (store (FolderService_create demoOracle "A" "id0" None KeepBoth
                    worldSideBySide).2)
    = files (store worldSideBySide).
Proof.
  destruct (FolderService_create_outcome demoOracle "A" "id0" None KeepBoth
              worldSideBySide
              (FolderService_create demoOracle "A" "id0" None KeepBoth
                 worldSideBySide).2
              (mkFolder "id5" "id0" None "A (1)" 7 7)
              demoOracle_lawful)
    as (_ & _ & _ & _ & _ & _ & _ & _ & Hfolders & _ & Hfiles & _).
  - by vm_compute.
  - exact (conj Hfolders Hfiles).
Defined.

(** B renamed to "A", keeping both, is stored as "A (1)". *)
Lemma FolderService_rename_outcome_witness :
  ∃ folder now,
    folders (store worldSideBySide) !! "id2" = Some folder
    ∧ mkFolder "id2" "id0" None "A (1)" 3 7
      = renamedFolder folder "A (1)" now.
Proof.
  destruct (FolderService_rename_outcome demoOracle "id2" "A" KeepBoth
              worldSideBySide
              (FolderService_rename demoOracle "id2" "A" KeepBoth
                 worldSideBySide).2
              (mkFolder "id2" "id0" None "A (1)" 3 7)
              demoOracle_lawful)
    as (folder & now & Hfolder & Hrenamed & _).
  - by vm_compute.
  - exists folder, now. exact (conj Hfolder Hrenamed).
Defined.

(** A second "q1.pdf" under "replace" takes the place of the first. *)
Lemma FileService_upload_outcome_witness :
  ∃ replaced,
    is_Some replaced
    ∧ files (store (FileService_upload demoOracle (pdfFile "q1.pdf") "id0"
                      None Replace worldSideBySide).2)
      = <["id6" := mkFileObject "id6" "id0" None "q1.pdf" "application/pdf" 4
                     "id5" 8 8]>
          (filesWithout replaced (files (store worldSideBySide)))
    ∧ blobs (store (FileService_upload demoOracle (pdfFile "q1.pdf") "id0"
                      None Replace worldSideBySide).2)
      = <["id5" := mkDBBlob "id5" (pdfFile "q1.pdf")]>
          (blobsWithout replaced (blobs (store worldSideBySide))).
Proof.
  destruct (FileService_upload_outcome demoOracle (pdfFile "q1.pdf") "id0"
              None Replace worldSideBySide
              (FileService_upload demoOracle (pdfFile "q1.pdf") "id0" None
                 Replace worldSideBySide).2
              (mkFileObject "id6" "id0" None "q1.pdf" "application/pdf" 4
                 "id5" 8 8)
              demoOracle_lawful)
    as (replaced & _ & _ & _ & _ & _ & _ & _ & _ & _ & Hname & _ & Hfiles
        & Hblobs & _).
  - apply (bool_decide_unpack
             (map_Forall (λ k f, file_id f = k)
                (files (store worldSideBySide)))).
    by vm_compute.
  - by vm_compute.
  - by vm_compute.
  - exists replaced. split; [|exact (conj Hfiles Hblobs)].
    exact (proj2 Hname).
Defined.

(** "q1.pdf" renamed to "q2.pdf". *)
Lemma FileService_rename_outcome_witness :
  ∃ file now,
    files (store worldSideBySide) !! "id4" = Some file
    ∧ mkFileObject "id4" "id0" None "q2.pdf" "application/pdf" 4 "id3" 5 7
      = renamedFile file "q2.pdf" now.
Proof.
  destruct (FileService_rename_outcome demoOracle "id4" "q2.pdf" Cancel
              worldSideBySide
              (FileService_rename demoOracle "id4" "q2.pdf" Cancel
                 worldSideBySide).2
              (mkFileObject "id4" "id0" None "q2.pdf" "application/pdf" 4
                 "id3" 5 7)
              demoOracle_lawful)
    as (file & now & replaced & Hfile & Hrenamed & _).
  - apply (bool_decide_unpack
             (map_Forall (λ k f, file_id f = k ∧ file_dataroomId f ≠ "")
                (files (store worldSideBySide)))).
    by vm_compute.
  - by vm_compute.
  - exists file, now. exact (conj Hfile Hrenamed).
Defined.

(** A room "  Beta  " is stored as "Beta". *)
Lemma DataroomService_create_outcome_witness :
  datarooms (store (DataroomService_create demoOracle "  Beta  "
                      worldNested).2)
  = <["id5" := mkDataroom "id5" "Beta" 7 7]> (datarooms (store worldNested)).
Proof.
  pose proof (DataroomService_create_outcome demoOracle "  Beta  " worldNested
                (DataroomService_create demoOracle "  Beta  " worldNested).2
                (Ok (mkDataroom "id5" "Beta" 7 7))
                demoOracle_lawful)
    as Hout.
  destruct Hout as (_ & _ & _ & _ & _ & Hrooms & _).
  - by vm_compute.
  - exact Hrooms.
Defined.

(** The room of the nested world goes with its two folders, its file and
    the blob of the file. *)
Lemma DataroomService_delete_outcome_witness :
  ∃ counts w',
    DataroomService_delete demoOracle "id0" worldNested = (Ok counts, w')
    ∧ datarooms (store w') = delete "id0" (datarooms (store worldNested))
    ∧ (DataroomService_getDeletionImpact demoOracle "id0" worldNested).1
      = Ok (mkFolderDeletion (room_deleted_folders counts)
              (room_deleted_files counts)).
Proof.
  destruct (DataroomService_delete_outcome demoOracle "id0" worldNested
              demoOracle_lawful)
    as (counts & w' & Hrun & Hrooms & _ & _ & _ & Himpact & _).
  exists counts, w'. exact (conj Hrun (conj Hrooms Himpact)).
Defined.

(** The names in the world with A and B side by side. *)
Lemma reachable_names_unique_witness :
  uniqueRoomNames (datarooms (store worldSideBySide))
  ∧ uniqueFolderNames (folders (store worldSideBySide))
  ∧ uniqueFileNames (files (store worldSideBySide)).
Proof.
  apply (reachable_names_unique demoOracle worldSideBySide).
  - exact demoOracle_fresh.
  - exact demoOracle_lawful.
  - apply reachable_runAll, reachable_empty.
Defined.

(** The file L of the nested world and its blob. *)
Lemma reachable_files_match_blobs_witness :
  file_mimeType
    (mkFileObject "id4" "id0" (Some "id2") "L.pdf" "application/pdf" 4 "id3"
       5 5)
  = "application/pdf"
  ∧ blob_key (mkDBBlob "id3" (pdfFile "L.pdf")) = "id3"
  ∧ jsfile_size (blob_data (mkDBBlob "id3" (pdfFile "L.pdf"))) = 4%N.
Proof.
  destruct (reachable_files_match_blobs demoOracle worldNested)
    as [Hfiles _].
  - exact demoOracle_fresh.
  - exact demoOracle_lawful.
  - apply reachable_runAll, reachable_empty.
  - destruct (Hfiles "id4"
                (mkFileObject "id4" "id0" (Some "id2") "L.pdf"
                   "application/pdf" 4 "id3" 5 5))
      as (Hpdf & _ & Hblob); [by vm_compute|].
    destruct (Hblob (mkDBBlob "id3" (pdfFile "L.pdf")))
      as (Hkey & _ & Hsize); [by vm_compute|].
    exact (conj Hpdf (conj Hkey Hsize)).
Defined.

(** The records of the nested world sit under their ids and in stored
    rooms. *)
Lemma reachable_records_in_rooms_witness :
  (∀ k d, datarooms (store worldNested) !! k = Some d →
          room_id d = k ∧ k ≠ "")
  ∧ (∀ k f, folders (store worldNested) !! k = Some f →
            folder_id f = k
            ∧ is_Some (datarooms (store worldNested) !! folder_dataroomId f))
  ∧ (∀ k f, files (store worldNested) !! k = Some f →
            file_id f = k
            ∧ is_Some (datarooms (store worldNested) !! file_dataroomId f)).
Proof.
  apply (reachable_records_in_rooms demoOracle worldNested).
  - exact demoOracle_fresh.
  - exact demoOracle_lawful.
  - apply reachable_runAll, reachable_empty.
Defined.


(** A folder "A" beside A, under "cancel": refused, and nothing written. *)
Lemma failed_check_leaves_store_witness :
  store (perform demoOracle (FolderCreate "A" "id0" None Cancel)
           worldSideBySide).2
  = store worldSideBySide.
Proof.
  apply (failed_check_leaves_store demoOracle
           (FolderCreate "A" "id0" None Cancel) worldSideBySide
           (perform demoOracle (FolderCreate "A" "id0" None Cancel)
              worldSideBySide).2
           (AlreadyExistsError "Folder" "A")).
  - exact demoOracle_lawful.
  - split.
    + apply (bool_decide_unpack
               (map_Forall (λ k f, folder_id f = k)
                  (folders (store worldSideBySide)))).
      by vm_compute.
    + apply (bool_decide_unpack
               (map_Forall (λ k f, file_id f = k)
                  (files (store worldSideBySide)))).
      by vm_compute.
  - by vm_compute.
  - apply (bool_decide_unpack
             (map_Forall (λ k f, file_dataroomId f ≠ "")
                (files (store worldSideBySide)))).
    by vm_compute.
  - by vm_compute.
  - discriminate.
  - discriminate.
Defined.
